(** * Photeditor core: pixel pipeline and edit history

  A shallow embedding of the image-editor core of the repository:

  - [History]           (core/History.js)          bounded undo/redo stack
  - [ImageEditor]       (core/ImageEditor.js)      adjustments, sharpening,
    colour filters, rotate, flip and crop
  - [BackgroundRemover] (ai/BackgroundRemover.js)  single-flight guard

  JavaScript numbers are IEEE-754 binary64 values and are carried as
  primitive floats; a [Uint8ClampedArray] is a list of bytes whose stores go
  through the ECMAScript conversion [ToUint8Clamp]; canvases live in a store
  indexed by object identity, so that "the source canvas is not written" is
  a statement about the store.  A canvas bitmap is the pixel buffer of the
  specification: straight RGBA samples, which [drawImage] onto a blank
  canvas, [getImageData] and [putImageData] copy as they are.  A browser
  keeps bitmaps with premultiplied alpha: it returns in this way the samples
  a canvas already holds and every opaque sample, but not a translucent
  sample written by [putImageData] or taken from a decoded image.  What is
  stated about the samples left by such a write is therefore stated for
  opaque samples ([Dom.opaque]).

  The modules [AdjustmentSpec], [GeometrySpec] and [SharpenSpec] do not come
  from the source: they word the specification, and the properties compare
  the source with them. *)

From Stdlib Require Import ZArith Lia PrimFloat Uint63 FloatOps SpecFloat
  FloatAxioms.
From Stdlib.Strings Require Import Byte.
From stdpp Require Import base list strings gmap.

Set Warnings "-inexact-float".
Local Open Scope Z_scope.

(* ===================================================================== *)
(** ** HistoryManager (core/History.js) *)
(* ===================================================================== *)

Module History.
Section HistoryManager.
(** The type of snapshots stored in the history; the manager never looks
    inside them. *)
Context {State : Type}.

(** Fields of the class.  [currentIndex] is a signed number (it starts at
    -1); [maxSize] is whatever number the constructor received. *)
Record t := mk {
  states : list State;
  currentIndex : Z;
  maxSize : Z
}.

(** [constructor(maxSize = 20)] *)
Definition new (maxSize : Z) : t :=
  {| states := []; currentIndex := -1; maxSize := maxSize |}.

Definition default_maxSize : Z := 20.

(** [Array.prototype.slice(0, end)]: a negative [end] counts from the back,
    and the result is clipped to the array. *)
Definition slice0 (l : list State) (e : Z) : list State :=
  let len := Z.of_nat (length l) in
  let final := if e <? 0 then Z.max (len + e) 0 else Z.min e len in
  take (Z.to_nat final) l.

(** [this.states[i]]: [None] stands for [undefined]. *)
Definition at_index (l : list State) (i : Z) : option State :=
  if i <? 0 then None else l !! Z.to_nat i.

Definition push (state : State) (h : t) : t :=
  let states1 := slice0 (states h) (currentIndex h + 1) ++ [state] in
  let index1 := currentIndex h + 1 in
  if maxSize h <? Z.of_nat (length states1)
  then {| states := drop 1 states1;        (* this.states.shift() *)
          currentIndex := index1 - 1;
          maxSize := maxSize h |}
  else {| states := states1; currentIndex := index1; maxSize := maxSize h |}.

Definition canUndo (h : t) : bool := 0 <? currentIndex h.

Definition canRedo (h : t) : bool :=
  currentIndex h <? Z.of_nat (length (states h)) - 1.

(** [undo] and [redo] return [null] ([None]) when nothing is available. *)
Definition undo (h : t) : option State * t :=
  if negb (canUndo h) then (None, h)
  else
    let h' := {| states := states h;
                 currentIndex := currentIndex h - 1;
                 maxSize := maxSize h |} in
    (at_index (states h') (currentIndex h'), h').

Definition redo (h : t) : option State * t :=
  if negb (canRedo h) then (None, h)
  else
    let h' := {| states := states h;
                 currentIndex := currentIndex h + 1;
                 maxSize := maxSize h |} in
    (at_index (states h') (currentIndex h'), h').

Definition getCurrent (h : t) : option State :=
  if currentIndex h <? 0 then None else at_index (states h) (currentIndex h).

Definition clear (h : t) : t :=
  {| states := []; currentIndex := -1; maxSize := maxSize h |}.

(** *** Sequences of operations *)

Inductive op := Push (s : State) | Undo | Redo | Clear.

Definition step (h : t) (o : op) : t :=
  match o with
  | Push s => push s h
  | Undo => snd (undo h)
  | Redo => snd (redo h)
  | Clear => clear h
  end.

Definition run (ops : list op) (h : t) : t := fold_left step ops h.

Definition push_all (l : list State) (h : t) : t :=
  fold_left (fun h s => push s h) l h.

(** *** The invariant of the data model *)

Definition cursor_ok (h : t) : Prop :=
  -1 <= currentIndex h < Z.of_nat (length (states h)) /\
  (states h <> [] -> 0 <= currentIndex h).

Definition bounded (h : t) : Prop :=
  Z.of_nat (length (states h)) <= maxSize h.

Definition inv (h : t) : Prop := cursor_ok h /\ bounded h.

(** *** The rest of the class *)

(** The object returned by [getInfo]. *)
Record Info := mkInfo {
  total : nat;
  current : Z;
  info_canUndo : bool;
  info_canRedo : bool
}.

Definition getInfo (h : t) : Info :=
  {| total := length (states h);
     current := currentIndex h;
     info_canUndo := canUndo h;
     info_canRedo := canRedo h |}.

(** [k] calls of [undo] in a row, results dropped. *)
Definition undo_n (k : nat) (h : t) : t :=
  Nat.iter k (fun h => snd (undo h)) h.

End HistoryManager.
Arguments t : clear implicits.
Arguments op : clear implicits.
Arguments Info : clear implicits.
End History.

(* ===================================================================== *)
(** ** JavaScript numbers and typed-array stores *)
(* ===================================================================== *)

Module JS.
Local Open Scope float_scope.

(** A JavaScript number is a binary64 value. *)
Definition of_Z (z : Z) : float :=
  if (z <? 0)%Z then - of_uint63 (Uint63.of_Z (- z))
  else of_uint63 (Uint63.of_Z z).

Definition of_nat (n : nat) : float := of_Z (Z.of_nat n).

(** Reading an element of a [Uint8ClampedArray] yields its value as a
    number. *)
Definition of_byte (b : byte) : float := of_Z (Z.of_N (Byte.to_N b)).

Definition byte_of_Z (z : Z) : byte :=
  match Byte.of_N (Z.to_N z) with Some b => b | None => x00 end.

(** [a !== b] on numbers: IEEE inequality, so [NaN !== 0] holds and
    [-0 !== 0] does not. *)
Definition strict_ne (a b : float) : bool := negb (a =? b).

Definition is_neg_zero (a : float) : bool :=
  PrimFloat.is_zero a && PrimFloat.get_sign a.

(** [Math.max] and [Math.min] of two numbers: NaN is contagious and [+0] is
    larger than [-0]. *)
Definition Math_max (a b : float) : float :=
  if PrimFloat.is_nan a || PrimFloat.is_nan b then nan
  else if a <? b then b
  else if b <? a then a
  else if is_neg_zero a then b else a.

Definition Math_min (a b : float) : float :=
  if PrimFloat.is_nan a || PrimFloat.is_nan b then nan
  else if a <? b then a
  else if b <? a then b
  else if is_neg_zero a then a else b.

Definition Math_abs (a : float) : float := PrimFloat.abs a.

Definition Math_PI : float := 3.141592653589793.

(** [floor x] for [0 < x < 255], found bit by bit with exact comparisons. *)
Definition floor_byte (x : float) : Z :=
  fold_left (fun k bit => if of_Z (k + bit) <=? x then (k + bit)%Z else k)
            [128; 64; 32; 16; 8; 4; 2; 1]%Z 0%Z.

(** ECMAScript [ToUint8Clamp]: the conversion applied by every store into a
    [Uint8ClampedArray].  NaN becomes 0, the value is clamped to [0, 255]
    and rounded to the nearest integer, ties to even. *)
Definition ToUint8Clamp (x : float) : byte :=
  if PrimFloat.is_nan x then x00
  else if x <=? 0 then x00
  else if 255 <=? x then xff
  else
    let f := floor_byte x in
    if of_Z f + 0.5 <? x then byte_of_Z (f + 1)
    else if x <? of_Z f + 0.5 then byte_of_Z f
    else if Z.even f then byte_of_Z f else byte_of_Z (f + 1).

(** Integer part of a finite number, read off its binary representation;
    NaN and the infinities give 0. *)
Definition truncate (x : float) : Z :=
  match Prim2SF x with
  | S754_finite s m e =>
      let v := Z.shiftl (Zpos m) e in if s then (- v)%Z else v
  | _ => 0%Z
  end.

(** Numbers handed to the canvas API.  Integer-valued arguments (canvas
    extents, the literals [-1], [0], [1]) are kept exact; computed doubles
    are carried as they are. *)
Inductive num := Int (z : Z) | Dbl (f : float).

Definition to_float (n : num) : float :=
  match n with Int z => of_Z z | Dbl f => f end.

(** [Math.round]: the nearest integer, a tie going to the larger one;
    computed exactly from the binary representation.  NaN and the
    infinities are returned as they are. *)
Definition Math_round (x : float) : num :=
  match Prim2SF x with
  | S754_zero _ => Int 0
  | S754_finite s m e =>
      let n := if s then Zneg m else Zpos m in
      Int (if (0 <=? e)%Z then Z.shiftl n e
           else Z.shiftr (2 * n + 2 ^ (- e)) (- e + 1))
  | _ => Dbl x
  end.

(** [Math.round] of a number handed over as [num]. *)
Definition round (n : num) : num :=
  match n with Int z => Int z | Dbl f => Math_round f end.

(** Whether a number is neither NaN nor infinite. *)
Definition finite (n : num) : bool :=
  match n with Int _ => true | Dbl f => PrimFloat.is_finite f end.

End JS.

(* ===================================================================== *)
(** ** The canvas objects the editor works on *)
(* ===================================================================== *)

Module Dom.
Import JS.

(** Calls that change a 2D context's current transform, in call order. *)
Inductive xform :=
| Translate (tx ty : num)
| Scale (sx sy : num)
| Rotate (angle : float).

(** A canvas with its 2D context: a [width] x [height] grid of straight
    (non-premultiplied) RGBA samples, row-major, and the transform calls made
    on its context since the bitmap was last reset. *)
Record canvas := mkCanvas {
  width : nat;
  height : nat;
  pixels : list byte;
  transform : list xform
}.

(** The object returned by [getImageData]: a private copy of the samples. *)
Record ImageData := mkImageData {
  iwidth : nat;
  iheight : nat;
  data : list byte
}.

Definition transparent : list byte := [x00; x00; x00; x00].

(** A transparent-black bitmap, as left by setting [width] or [height]. *)
Definition blank (w h : nat) : canvas :=
  mkCanvas w h (replicate (4 * (w * h)) x00) [].

#[global] Instance canvas_inhabited : Inhabited canvas := populate (blank 0 0).

(** Data-model invariant of a pixel buffer. *)
Definition wf (c : canvas) : Prop :=
  length (pixels c) = (4 * (width c * height c))%nat.

(** The four samples of pixel number [i] of a sample array. *)
Definition chunk (d : list byte) (i : nat) : list byte :=
  [nth (4 * i) d x00; nth (4 * i + 1) d x00;
   nth (4 * i + 2) d x00; nth (4 * i + 3) d x00].

(** The pixel at column [x], row [y] of a [w] x [h] bitmap; transparent
    black outside it. *)
Definition pixel_at (w h : nat) (d : list byte) (x y : Z) : list byte :=
  if (0 <=? x) && (x <? Z.of_nat w) && (0 <=? y) && (y <? Z.of_nat h)
  then chunk d (Z.to_nat (y * Z.of_nat w + x))
  else transparent.

Definition inside (w h : nat) (x y : Z) : bool :=
  (0 <=? x) && (x <? Z.of_nat w) && (0 <=? y) && (y <? Z.of_nat h).

(** The sample array of a [w] x [h] bitmap whose pixel at [(x, y)] is
    [f x y]. *)
Definition raster (w h : nat) (f : Z -> Z -> list byte) : list byte :=
  flat_map (fun i => f (Z.of_nat (i mod w)) (Z.of_nat (i / w)))
           (seq 0 (w * h)).

(** Conversion of a number assigned to [canvas.width] or [canvas.height]
    (Web IDL [unsigned long]): the fractional part is dropped.  Values
    outside the range of the type are not modelled. *)
Definition extent (n : num) : nat :=
  Z.to_nat (match n with Int z => z | Dbl f => truncate f end).

(** What the host environment decides and this repository does not:
    the approximations behind [Math.sin] and [Math.cos], the resampling
    done by [drawImage] when the current transform does not map pixels onto
    pixels, and the blending of a source sample with a destination sample
    that is not transparent. *)
Class UserAgent := {
  Math_sin : float -> float;
  Math_cos : float -> float;
  resample : list xform -> num -> num ->
             nat -> nat -> list byte -> nat -> nat -> list byte;
  blend : list byte -> list byte -> list byte
}.

(** A host used to run the model on examples: sine and cosine return their
    values at 45 degrees, which is the only angle the examples rotate by;
    resampling leaves the canvas transparent; blending lets the source
    sample win. *)
Definition sample_agent : UserAgent :=
  {| Math_sin := fun _ => 0.7071067811865475%float;
     Math_cos := fun _ => 0.7071067811865476%float;
     resample := fun _ _ _ _ _ _ w h => replicate (4 * (w * h)) x00;
     blend := fun dst src => src |}.

(** The transform [x' = a*x + e], [y' = d*y + f] with [a], [d] in
    {1, -1} and integer offsets reached by a sequence of calls, when the calls
    are integer translations and mirrorings; such a transform maps pixels
    onto pixels. *)
Fixpoint aligned (ops : list xform) (a d e f : Z) : option (Z * Z * Z * Z) :=
  match ops with
  | [] => Some (a, d, e, f)
  | Translate (Int tx) (Int ty) :: ops =>
      aligned ops a d (a * tx + e) (d * ty + f)
  | Scale (Int sx) (Int sy) :: ops =>
      if (Z.abs sx =? 1) && (Z.abs sy =? 1)
      then aligned ops (a * sx) (d * sy) e f
      else None
  | _ => None
  end.

(** Source coordinate whose unit cell lands on destination cell [x] under
    [x' = a * (x + dx) + e]. *)
Definition preimage (a e dx x : Z) : Z :=
  if a =? 1 then x - e - dx else e - 1 - x - dx.

Definition alpha (p : list byte) : byte := nth 3 p x00.

(** Samples that are opaque throughout: the alpha of every pixel is 255.
    Premultiplied storage keeps such samples exactly as they are written. *)
Definition opaque (d : list byte) : bool :=
  forallb (fun k => N.eqb (Byte.to_N (alpha (chunk d k))) 255)
          (seq 0 (length d / 4)).

Section Store.
Context `{ua : UserAgent}.

(** Source-over compositing of one sample. *)
Definition composite (dst src : list byte) : list byte :=
  if N.eqb (Byte.to_N (alpha dst)) 0 then src else blend dst src.

(** The store of canvas objects, by identity. *)
Definition createElement (s : gmap nat canvas) : nat * gmap nat canvas :=
  let id := fresh (dom s) in (id, <[id := blank 300 150]> s).

Definition set_width (id : nat) (n : num) (s : gmap nat canvas)
  : gmap nat canvas :=
  alter (fun c => blank (extent n) (height c)) id s.

Definition set_height (id : nat) (n : num) (s : gmap nat canvas)
  : gmap nat canvas :=
  alter (fun c => blank (width c) (extent n)) id s.

Definition get_width (id : nat) (s : gmap nat canvas) : nat :=
  width (s !!! id).

Definition get_height (id : nat) (s : gmap nat canvas) : nat :=
  height (s !!! id).

(** [canvas.getContext('2d')]: the context is addressed by its canvas. *)
Definition getContext (id : nat) : nat := id.

Definition push_xform (op : xform) (c : canvas) : canvas :=
  mkCanvas (width c) (height c) (pixels c) (transform c ++ [op]).

Definition ctx_translate (ctx : nat) (tx ty : num) (s : gmap nat canvas)
  : gmap nat canvas :=
  alter (push_xform (Translate tx ty)) ctx s.

Definition ctx_scale (ctx : nat) (sx sy : num) (s : gmap nat canvas)
  : gmap nat canvas :=
  alter (push_xform (Scale sx sy)) ctx s.

Definition ctx_rotate (ctx : nat) (angle : float) (s : gmap nat canvas)
  : gmap nat canvas :=
  alter (push_xform (Rotate angle)) ctx s.

(** [ctx.drawImage(image, dx, dy)] *)
Definition draw (src : canvas) (dx dy : num) (c : canvas) : canvas :=
  let px :=
    match dx, dy, aligned (transform c) 1 1 0 0 with
    | Int dx, Int dy, Some (a, d, e, f) =>
        raster (width c) (height c) (fun x y =>
          let sx := preimage a e dx x in
          let sy := preimage d f dy y in
          let here := pixel_at (width c) (height c) (pixels c) x y in
          if inside (width src) (height src) sx sy
          then composite here
                 (pixel_at (width src) (height src) (pixels src) sx sy)
          else here)
    | _, _, _ =>
        resample (transform c) dx dy (width src) (height src) (pixels src)
                 (width c) (height c)
    end in
  mkCanvas (width c) (height c) px (transform c).

Definition ctx_drawImage (ctx image : nat) (dx dy : num)
    (s : gmap nat canvas) : gmap nat canvas :=
  alter (draw (s !!! image) dx dy) ctx s.

(** [ctx.drawImage(image, sx, sy, sw, sh, dx, dy, dw, dh)].  Nothing is
    drawn when an argument is NaN or infinite or when a rectangle is empty.
    When the arguments are integers, the two rectangles have the same
    positive size and the transform maps pixels onto pixels, the part of the
    source rectangle that lies inside the image is copied, pixel for pixel.
    Every other case is a scaled drawing and is left to the host. *)
Definition draw_rect (src : canvas) (sx sy sw sh dx dy dw dh : num)
    (c : canvas) : canvas :=
  if negb (finite sx && finite sy && finite sw && finite sh &&
           finite dx && finite dy && finite dw && finite dh)
  then c
  else
    match sx, sy, sw, sh, dx, dy, dw, dh, aligned (transform c) 1 1 0 0 with
    | Int sx, Int sy, Int sw, Int sh, Int dx, Int dy, Int dw, Int dh,
      Some (a, d, e, f) =>
        if (sw =? 0) || (sh =? 0) || (dw =? 0) || (dh =? 0) then c
        else if (sw =? dw) && (sh =? dh) && (0 <? sw) && (0 <? sh) then
          mkCanvas (width c) (height c)
            (raster (width c) (height c) (fun x y =>
               let u := preimage a e dx x in
               let v := preimage d f dy y in
               let here := pixel_at (width c) (height c) (pixels c) x y in
               if (0 <=? u) && (u <? sw) && (0 <=? v) && (v <? sh) &&
                  inside (width src) (height src) (sx + u) (sy + v)
               then composite here
                      (pixel_at (width src) (height src) (pixels src)
                         (sx + u) (sy + v))
               else here))
            (transform c)
        else
          mkCanvas (width c) (height c)
            (resample
               (transform c ++
                [Translate (Int dx) (Int dy);
                 Scale (Dbl (of_Z dw / of_Z sw)) (Dbl (of_Z dh / of_Z sh));
                 Translate (Int (- sx)) (Int (- sy))])
               (Int 0) (Int 0) (width src) (height src) (pixels src)
               (width c) (height c))
            (transform c)
    | _, _, _, _, _, _, _, _, _ =>
        mkCanvas (width c) (height c)
          (resample
             (transform c ++
              [Translate dx dy;
               Scale (Dbl (to_float dw / to_float sw))
                     (Dbl (to_float dh / to_float sh));
               Translate (Dbl (- to_float sx)) (Dbl (- to_float sy))])
             (Int 0) (Int 0) (width src) (height src) (pixels src)
             (width c) (height c))
          (transform c)
    end.

Definition ctx_drawImage_rect (ctx image : nat)
    (sx sy sw sh dx dy dw dh : num) (s : gmap nat canvas) : gmap nat canvas :=
  alter (draw_rect (s !!! image) sx sy sw sh dx dy dw dh) ctx s.

(** [ctx.getImageData(sx, sy, sw, sh)] *)
Definition ctx_getImageData (ctx : nat) (sx sy : Z) (sw sh : nat)
    (s : gmap nat canvas) : ImageData :=
  let c := s !!! ctx in
  mkImageData sw sh
    (raster sw sh (fun x y =>
       pixel_at (width c) (height c) (pixels c) (sx + x) (sy + y))).

(** [ctx.putImageData(imageData, dx, dy)]: samples are copied, neither
    transformed nor composited.  The copy is exact for opaque samples and
    for samples read from the same bitmap; a browser may keep other values
    for a translucent sample (premultiplied storage), which is not
    modelled. *)
Definition put (img : ImageData) (dx dy : Z) (c : canvas) : canvas :=
  mkCanvas (width c) (height c)
    (raster (width c) (height c) (fun x y =>
       if inside (iwidth img) (iheight img) (x - dx) (y - dy)
       then pixel_at (iwidth img) (iheight img) (data img) (x - dx) (y - dy)
       else pixel_at (width c) (height c) (pixels c) x y))
    (transform c).

Definition ctx_putImageData (ctx : nat) (img : ImageData) (dx dy : Z)
    (s : gmap nat canvas) : gmap nat canvas :=
  alter (put img dx dy) ctx s.

End Store.
End Dom.

(* ===================================================================== *)
(** ** ImageEditor (core/ImageEditor.js) *)
(* ===================================================================== *)

Module ImageEditor.
Import JS Dom.
Local Open Scope float_scope.

(** The [adjustments] object read by [applyAdjustments]. *)
Record Adjustments := mkAdjustments {
  exposure : float;
  brightness : float;
  contrast : float;
  temperature : float;
  highlights : float;
  shadows : float;
  saturation : float;
  sharpness : float
}.

(** [data[i]] used as an operand: an element read past the end is
    [undefined], which is NaN in arithmetic. *)
Definition rd (d : list byte) (i : nat) : float :=
  match d !! i with Some b => of_byte b | None => nan end.

Definition rdZ (d : list byte) (i : Z) : float :=
  if (i <? 0)%Z then nan else rd d (Z.to_nat i).

(** [data[i] = v]: the store converts with [ToUint8Clamp]; a store past the
    end of a typed array is ignored. *)
Definition wr (d : list byte) (i : nat) (v : float) : list byte :=
  <[i := ToUint8Clamp v]> d.

(** [for (let i = 0; i < data.length; i += 4) body] *)
Definition for_pixels (body : nat -> list byte -> list byte)
    (d : list byte) : list byte :=
  fold_left (fun d i => body i d)
            (map (fun k => (4 * k)%nat) (seq 0 ((length d + 3) / 4))) d.

(** A loop body that rewrites pixel [k] by [pf] and nothing else. *)
Definition pixelwise (body : nat -> list byte -> list byte)
    (pf : list byte -> list byte) : Prop :=
  forall pre r g b a post,
    body (length pre) (pre ++ r :: g :: b :: a :: post)
    = pre ++ pf [r; g; b; a] ++ post.

(** Body of the adjustment loop of [applyAdjustments], for one [i]. *)
Definition adjust_body (adjustments : Adjustments) (i : nat)
    (d : list byte) : list byte :=
  let r := rd d i in
  let g := rd d (i + 1) in
  let b := rd d (i + 2) in
  (* Exposure *)
  let '(r, g, b) :=
    if strict_ne (exposure adjustments) 0 then
      let factor := 1 + exposure adjustments / 100 in
      (r * factor, g * factor, b * factor)
    else (r, g, b) in
  (* Brightness *)
  let '(r, g, b) :=
    if strict_ne (brightness adjustments) 0 then
      let adjustment := brightness adjustments * 2.55 in
      (r + adjustment, g + adjustment, b + adjustment)
    else (r, g, b) in
  (* Contrast *)
  let '(r, g, b) :=
    if strict_ne (contrast adjustments) 0 then
      let factor := (259 * (contrast adjustments + 255))
                    / (255 * (259 - contrast adjustments)) in
      (factor * (r - 128) + 128, factor * (g - 128) + 128,
       factor * (b - 128) + 128)
    else (r, g, b) in
  (* Temperature *)
  let '(r, g, b) :=
    if strict_ne (temperature adjustments) 0 then
      let temp := temperature adjustments * 0.5 in
      (r + temp, g, b - temp)
    else (r, g, b) in
  (* Highlights *)
  let '(r, g, b) :=
    if strict_ne (highlights adjustments) 0 then
      let luminance := (r + g + b) / 3 in
      let highlightFactor := Math_max 0 ((luminance - 128) / 127) in
      let adjustment := highlights adjustments * highlightFactor * 0.5 in
      (r + adjustment, g + adjustment, b + adjustment)
    else (r, g, b) in
  (* Shadows *)
  let '(r, g, b) :=
    if strict_ne (shadows adjustments) 0 then
      let luminance := (r + g + b) / 3 in
      let shadowFactor := Math_max 0 ((128 - luminance) / 128) in
      let adjustment := shadows adjustments * shadowFactor * 0.5 in
      (r + adjustment, g + adjustment, b + adjustment)
    else (r, g, b) in
  (* Saturation *)
  let '(r, g, b) :=
    if strict_ne (saturation adjustments) 0 then
      let gray := 0.2989 * r + 0.587 * g + 0.114 * b in
      let factor := 1 + saturation adjustments / 100 in
      (gray + factor * (r - gray), gray + factor * (g - gray),
       gray + factor * (b - gray))
    else (r, g, b) in
  (* Clamp values *)
  let d := wr d i (Math_max 0 (Math_min 255 r)) in
  let d := wr d (i + 1) (Math_max 0 (Math_min 255 g)) in
  wr d (i + 2) (Math_max 0 (Math_min 255 b)).

(** *** applySharpness *)

Definition kernel (amount : float) : list float :=
  [0; - amount; 0;
   - amount; 1 + 4 * amount; - amount;
   0; - amount; 0].

(** [kernel[j]] as an operand. *)
Definition kernel_at (k : list float) (j : Z) : float :=
  if (j <? 0)%Z then nan else nth (Z.to_nat j) k nan.

(** The innermost two loops: the weighted sum around [(x, y)], channel
    [c], read from [original]. *)
Definition convolve (original : list byte) (k : list float)
    (width : nat) (y x c : nat) : float :=
  fold_left (fun sum ky =>
    fold_left (fun sum kx =>
      let idx := (((Z.of_nat y + ky) * Z.of_nat width + (Z.of_nat x + kx)) * 4
                  + Z.of_nat c)%Z in
      sum + rdZ original idx * kernel_at k ((ky + 1) * 3 + (kx + 1))%Z)
      [-1; 0; 1]%Z sum)
    [-1; 0; 1]%Z 0.

Definition sharpen_channel (original : list byte) (k : list float)
    (width : nat) (y x : nat) (d : list byte) (c : nat) : list byte :=
  let sum := convolve original k width y x c in
  let idx := ((y * width + x) * 4 + c)%nat in
  wr d idx (Math_max 0 (Math_min 255 sum)).

Definition sharpen_pixel (original : list byte) (k : list float)
    (width : nat) (y : nat) (d : list byte) (x : nat) : list byte :=
  fold_left (sharpen_channel original k width y x) [0; 1; 2]%nat d.

Definition sharpen_row (original : list byte) (k : list float)
    (width : nat) (d : list byte) (y : nat) : list byte :=
  fold_left (sharpen_pixel original k width y) (seq 1 (width - 2)) d.

(** [applySharpness(imageData, amount)] writes into [imageData.data]; the
    updated object is returned here. *)
Definition applySharpness (imageData : ImageData) (amount : float)
  : ImageData :=
  let width := iwidth imageData in
  let height := iheight imageData in
  (* new Uint8ClampedArray(data) *)
  let original := data imageData in
  let k := kernel amount in
  mkImageData width height
    (fold_left (sharpen_row original k width) (seq 1 (height - 2))
               (data imageData)).

(** *** applyFilter: one loop body per [case] *)

Definition vintage_body (i : nat) (d : list byte) : list byte :=
  let d := wr d i (Math_min 255 (rd d i * 1.1 + 20)) in
  let d := wr d (i + 1) (Math_min 255 (rd d (i + 1) * 0.9)) in
  wr d (i + 2) (Math_min 255 (rd d (i + 2) * 0.8)).

(** [data[i] = data[i + 1] = data[i + 2] = gray] stores right to left. *)
Definition bw_body (i : nat) (d : list byte) : list byte :=
  let gray := rd d i * 0.299 + rd d (i + 1) * 0.587 + rd d (i + 2) * 0.114 in
  let d := wr d (i + 2) gray in
  let d := wr d (i + 1) gray in
  wr d i gray.

Definition sepia_body (i : nat) (d : list byte) : list byte :=
  let r := rd d i in
  let g := rd d (i + 1) in
  let b := rd d (i + 2) in
  let d := wr d i (Math_min 255 (r * 0.393 + g * 0.769 + b * 0.189)) in
  let d := wr d (i + 1) (Math_min 255 (r * 0.349 + g * 0.686 + b * 0.168)) in
  wr d (i + 2) (Math_min 255 (r * 0.272 + g * 0.534 + b * 0.131)).

Definition vibrant_body (i : nat) (d : list byte) : list byte :=
  let gray := (rd d i + rd d (i + 1) + rd d (i + 2)) / 3 in
  let d := wr d i (Math_min 255 (gray + (rd d i - gray) * 1.5)) in
  let d := wr d (i + 1) (Math_min 255 (gray + (rd d (i + 1) - gray) * 1.5)) in
  wr d (i + 2) (Math_min 255 (gray + (rd d (i + 2) - gray) * 1.5)).

Definition warm_body (i : nat) (d : list byte) : list byte :=
  let d := wr d i (Math_min 255 (rd d i * 1.1)) in
  let d := wr d (i + 1) (Math_min 255 (rd d (i + 1) * 1.05)) in
  wr d (i + 2) (Math_max 0 (rd d (i + 2) * 0.9)).

Definition cool_body (i : nat) (d : list byte) : list byte :=
  let d := wr d i (Math_max 0 (rd d i * 0.9)) in
  let d := wr d (i + 1) (Math_min 255 (rd d (i + 1) * 1.05)) in
  wr d (i + 2) (Math_min 255 (rd d (i + 2) * 1.1)).

Definition dramatic_body (i : nat) (d : list byte) : list byte :=
  let gray := rd d i * 0.299 + rd d (i + 1) * 0.587 + rd d (i + 2) * 0.114 in
  let factor := 1.3 in
  let d := wr d i
    (Math_max 0 (Math_min 255
       (factor * (rd d i * 0.9 + gray * 0.1 - 128) + 128))) in
  let d := wr d (i + 1)
    (Math_max 0 (Math_min 255
       (factor * (rd d (i + 1) * 0.9 + gray * 0.1 - 128) + 128))) in
  wr d (i + 2)
    (Math_max 0 (Math_min 255
       (factor * (rd d (i + 2) * 0.9 + gray * 0.1 - 128) + 128))).

Definition fade_body (i : nat) (d : list byte) : list byte :=
  let d := wr d i (Math_min 255 (rd d i * 0.85 + 30)) in
  let d := wr d (i + 1) (Math_min 255 (rd d (i + 1) * 0.85 + 30)) in
  wr d (i + 2) (Math_min 255 (rd d (i + 2) * 0.85 + 30)).

Definition noir_body (i : nat) (d : list byte) : list byte :=
  let gray := rd d i * 0.299 + rd d (i + 1) * 0.587 + rd d (i + 2) * 0.114 in
  let gray := Math_max 0 (Math_min 255 (1.4 * (gray - 128) + 128)) in
  let gray := if gray <? 40 then gray * 0.5 else gray in
  let d := wr d (i + 2) gray in
  let d := wr d (i + 1) gray in
  wr d i gray.

(** The [switch (filter)]: a name without a [case] leaves the samples as
    they are. *)
Definition filter_data (filter : string) (d : list byte) : list byte :=
  if String.eqb filter "vintage" then for_pixels vintage_body d
  else if String.eqb filter "bw" then for_pixels bw_body d
  else if String.eqb filter "sepia" then for_pixels sepia_body d
  else if String.eqb filter "vibrant" then for_pixels vibrant_body d
  else if String.eqb filter "warm" then for_pixels warm_body d
  else if String.eqb filter "cool" then for_pixels cool_body d
  else if String.eqb filter "dramatic" then for_pixels dramatic_body d
  else if String.eqb filter "fade" then for_pixels fade_body d
  else if String.eqb filter "noir" then for_pixels noir_body d
  else d.

(** What [applyAdjustments] does to the sample array after the adjustment
    loop: the guarded sharpening and the guarded filter. *)
Definition after_adjust (adjustments : Adjustments) (filter : string)
    (w h : nat) (d : list byte) : list byte :=
  let d :=
    if 0 <? sharpness adjustments
    then data (applySharpness (mkImageData w h d) (sharpness adjustments / 100))
    else d in
  if negb (String.eqb filter "none") then filter_data filter d else d.

Definition zero_adjustments : Adjustments := mkAdjustments 0 0 0 0 0 0 0 0.

Section Editor.
Context `{ua : UserAgent}.

Definition applyFilter (ctx : nat) (width height : nat) (filter : string)
    (s : gmap nat canvas) : gmap nat canvas :=
  let imageData := ctx_getImageData ctx 0 0 width height s in
  let imageData :=
    mkImageData (iwidth imageData) (iheight imageData)
                (filter_data filter (data imageData)) in
  ctx_putImageData ctx imageData 0 0 s.

Definition applyAdjustments (sourceCanvas : nat) (adjustments : Adjustments)
    (filter : string) (s : gmap nat canvas) : nat * gmap nat canvas :=
  let '(canvas, s) := createElement s in
  let s := set_width canvas (Int (Z.of_nat (get_width sourceCanvas s))) s in
  let s := set_height canvas (Int (Z.of_nat (get_height sourceCanvas s))) s in
  let ctx := getContext canvas in
  (* Draw original image *)
  let s := ctx_drawImage ctx sourceCanvas (Int 0) (Int 0) s in
  (* Get image data for pixel manipulation *)
  let imageData :=
    ctx_getImageData ctx 0 0 (get_width canvas s) (get_height canvas s) s in
  (* Apply adjustments pixel by pixel *)
  let imageData :=
    mkImageData (iwidth imageData) (iheight imageData)
                (for_pixels (adjust_body adjustments) (data imageData)) in
  (* Apply sharpness *)
  let imageData :=
    if 0 <? sharpness adjustments
    then applySharpness imageData (sharpness adjustments / 100)
    else imageData in
  let s := ctx_putImageData ctx imageData 0 0 s in
  (* Apply filter *)
  let s :=
    if negb (String.eqb filter "none")
    then applyFilter ctx (get_width canvas s) (get_height canvas s) filter s
    else s in
  (canvas, s).

Definition rotate (sourceCanvas : nat) (degrees : float)
    (s : gmap nat canvas) : nat * gmap nat canvas :=
  let radians := degrees * Math_PI / 180 in
  let sin := Math_abs (Math_sin radians) in
  let cos := Math_abs (Math_cos radians) in
  let w := of_nat (get_width sourceCanvas s) in
  let h := of_nat (get_height sourceCanvas s) in
  let newWidth := w * cos + h * sin in
  let newHeight := w * sin + h * cos in
  let '(canvas, s) := createElement s in
  let s := set_width canvas (Dbl newWidth) s in
  let s := set_height canvas (Dbl newHeight) s in
  let ctx := getContext canvas in
  let s := ctx_translate ctx (Dbl (newWidth / 2)) (Dbl (newHeight / 2)) s in
  let s := ctx_rotate ctx radians s in
  let s := ctx_drawImage ctx sourceCanvas (Dbl (- w / 2)) (Dbl (- h / 2)) s in
  (canvas, s).

Definition flip (sourceCanvas : nat) (direction : string)
    (s : gmap nat canvas) : nat * gmap nat canvas :=
  let '(canvas, s) := createElement s in
  let s := set_width canvas (Int (Z.of_nat (get_width sourceCanvas s))) s in
  let s := set_height canvas (Int (Z.of_nat (get_height sourceCanvas s))) s in
  let ctx := getContext canvas in
  let s :=
    if String.eqb direction "horizontal" then
      let s := ctx_translate ctx (Int (Z.of_nat (get_width canvas s))) (Int 0) s in
      ctx_scale ctx (Int (-1)) (Int 1) s
    else
      let s := ctx_translate ctx (Int 0) (Int (Z.of_nat (get_height canvas s))) s in
      ctx_scale ctx (Int 1) (Int (-1)) s in
  let s := ctx_drawImage ctx sourceCanvas (Int 0) (Int 0) s in
  (canvas, s).

(** [imageToCanvas(img)]: the decoded image is a bitmap in the store, like
    a canvas.  For an opaque image, and for a canvas passed as the image,
    the samples drawn are the samples held; what a browser draws of the
    translucent samples of a decoded image is not modelled. *)
Definition imageToCanvas (img : nat) (s : gmap nat canvas)
  : nat * gmap nat canvas :=
  let '(canvas, s) := createElement s in
  let s := set_width canvas (Int (Z.of_nat (get_width img s))) s in
  let s := set_height canvas (Int (Z.of_nat (get_height img s))) s in
  let ctx := getContext canvas in
  let s := ctx_drawImage ctx img (Int 0) (Int 0) s in
  (canvas, s).

Definition crop (sourceCanvas : nat) (x y width height : num)
    (s : gmap nat canvas) : nat * gmap nat canvas :=
  let '(canvas, s) := createElement s in
  let s := set_width canvas (round width) s in
  let s := set_height canvas (round height) s in
  let ctx := getContext canvas in
  let s :=
    ctx_drawImage_rect ctx sourceCanvas
      (round x) (round y) (round width) (round height)
      (Int 0) (Int 0)
      (Int (Z.of_nat (get_width canvas s)))
      (Int (Z.of_nat (get_height canvas s))) s in
  (canvas, s).

End Editor.

(** *** Inputs used in examples *)

(** A 1 x 1 canvas holding one opaque pure-red pixel. *)
Definition red_canvas : canvas := mkCanvas 1 1 [xff; x00; x00; xff] [].

(** A 2 x 2 canvas with four different pixels. *)
Definition quad_canvas : canvas :=
  mkCanvas 2 2
    (map byte_of_Z [255; 0; 0; 255;  10; 20; 30; 40;
                    50; 60; 70; 80;  200; 200; 200; 255]%Z) [].

(** A store holding these two canvases. *)
Definition example_store : gmap nat canvas :=
  <[1%nat := quad_canvas]> {[ 0%nat := red_canvas ]}.

(** A 3 x 3 image, the smallest with an interior pixel. *)
Definition example_image : ImageData :=
  mkImageData 3 3
    (map byte_of_Z [1; 2; 3; 4;  5; 6; 7; 8;  9; 10; 11; 12;
                    13; 14; 15; 16;  100; 110; 120; 130;  21; 22; 23; 24;
                    31; 32; 33; 34;  41; 42; 43; 44;  51; 52; 53; 54]%Z).

End ImageEditor.

(* ===================================================================== *)
(** ** BackgroundRemover (ai/BackgroundRemover.js) *)
(* ===================================================================== *)

Module BackgroundRemover.
Section Remover.
(** Image blobs are opaque to the remover. *)
Context {Blob : Type}.

Record Config := mkConfig {
  debug : bool;
  proxyToWorker : bool;
  model : string
}.

(** The remover object together with what its [remove] method touches
    outside it: the calls to the external [removeBackground] that have been
    started and have not settled yet (each with the ticket of the promise
    being awaited), the number of such calls made so far, and the console. *)
Record world := mkWorld {
  isProcessing : bool;
  config : Config;
  pending : list (nat * Blob);
  started : nat;
  console : list string
}.

(** [constructor()] *)
Definition new : world :=
  {| isProcessing := false;
     config := mkConfig false true "medium";
     pending := [];
     started := 0;
     console := [] |}.

(** What a call of the [async] method has done when it hands control back:
    it has thrown (its promise is rejected at once), or it is suspended at
    the [await] on the external call with the given ticket. *)
Inductive reply := Throws (message : string) | Awaits (ticket : nat).

(** How the awaited external call ends. *)
Inductive settlement := Fulfilled (result : Blob) | Rejected (error : string).

(** [remove(imageBlob)], up to its [await]. *)
Definition remove (imageBlob : Blob) (w : world) : reply * world :=
  if isProcessing w then
    (Throws "Background removal already in progress", w)
  else
    let ticket := started w in
    (Awaits ticket,
     {| isProcessing := true;
        config := config w;
        pending := pending w ++ [(ticket, imageBlob)];
        started := S (started w);
        console := console w ++ ["Starting background removal..."] |}).

Definition awaited (ticket : nat) (w : world) : bool :=
  existsb (fun p => Nat.eqb (fst p) ticket) (pending w).

(** [remove] from its [await] to its end, when the external call with
    [ticket] settles: the [try] returns or the [catch] rethrows, and the
    [finally] clears the flag.  The result is the settlement of the promise
    [remove] returned. *)
Definition resume (ticket : nat) (r : settlement) (w : world)
  : option settlement * world :=
  if awaited ticket w then
    let line := match r with
                | Fulfilled _ => "Background removal complete"
                | Rejected _ => "Background removal failed:"
                end in
    (Some r,
     {| isProcessing := false;
        config := config w;
        pending := filter (fun p => fst p <> ticket) (pending w);
        started := started w;
        console := console w ++ [line] |})
  else (None, w).

Inductive event := Call (imageBlob : Blob) | Settle (ticket : nat) (r : settlement).

Definition step (w : world) (e : event) : world :=
  match e with
  | Call b => snd (remove b w)
  | Settle t r => snd (resume t r w)
  end.

Definition run (es : list event) (w : world) : world := fold_left step es w.

(** At most one external call is outstanding, and the flag is set exactly
    while it is. *)
Definition single_flight (w : world) : Prop :=
  (isProcessing w = true /\ exists p, pending w = [p]) \/
  (isProcessing w = false /\ pending w = []).

(** *** The rest of the class *)

(** [get busy()] *)
Definition busy (w : world) : bool := isProcessing w.

(** [removeFromFile(file)] hands the file to [remove]. *)
Definition removeFromFile (file : Blob) (w : world) : reply * world :=
  remove file w.

(** [setQuality(quality)] *)
Definition setQuality (quality : string) (w : world) : world :=
  {| isProcessing := isProcessing w;
     config := mkConfig (debug (config w)) (proxyToWorker (config w)) quality;
     pending := pending w;
     started := started w;
     console := console w |}.

(** The calls of [remove] in a run of events that were accepted, that is,
    reached the external call. *)
Fixpoint accepted (es : list event) (w : world) : nat :=
  match es with
  | [] => 0
  | Call b :: es =>
      (if isProcessing w then 0 else 1) + accepted es (snd (remove b w))
  | Settle t r :: es => accepted es (snd (resume t r w))
  end.

End Remover.
Arguments world : clear implicits.
Arguments event : clear implicits.
Arguments settlement : clear implicits.
End BackgroundRemover.

(* ===================================================================== *)
(** ** The adjustment engine as the specification words it *)
(* ===================================================================== *)

Module AdjustmentSpec.
Import JS Dom ImageEditor.
Local Open Scope float_scope.

(** This module does not come from the source.  It follows section 4.1 of
    the specification: seven steps on floating-point channel values, in the
    order exposure, brightness, contrast, temperature, highlights, shadows,
    saturation, each applied only when its parameter is non-zero; then one
    clamp per channel; alpha passed through.  It is compared with the loop of
    [applyAdjustments] in the properties below. *)

Definition channels : Type := float * float * float.

Definition exposure_step (p : float) (v : channels) : channels :=
  let '(r, g, b) := v in
  let k := 1 + p / 100 in (r * k, g * k, b * k).

Definition brightness_step (p : float) (v : channels) : channels :=
  let '(r, g, b) := v in
  let a := p * 2.55 in (r + a, g + a, b + a).

Definition contrast_step (p : float) (v : channels) : channels :=
  let '(r, g, b) := v in
  let k := (259 * (p + 255)) / (255 * (259 - p)) in
  (k * (r - 128) + 128, k * (g - 128) + 128, k * (b - 128) + 128).

Definition temperature_step (p : float) (v : channels) : channels :=
  let '(r, g, b) := v in
  let t := p * 0.5 in (r + t, g, b - t).

Definition mean (v : channels) : float :=
  let '(r, g, b) := v in (r + g + b) / 3.

Definition highlights_step (p : float) (v : channels) : channels :=
  let '(r, g, b) := v in
  let factor := Math_max 0 ((mean v - 128) / 127) in
  let a := p * factor * 0.5 in (r + a, g + a, b + a).

Definition shadows_step (p : float) (v : channels) : channels :=
  let '(r, g, b) := v in
  let factor := Math_max 0 ((128 - mean v) / 128) in
  let a := p * factor * 0.5 in (r + a, g + a, b + a).

Definition saturation_step (p : float) (v : channels) : channels :=
  let '(r, g, b) := v in
  let gray := 0.2989 * r + 0.587 * g + 0.114 * b in
  let k := 1 + p / 100 in
  (gray + k * (r - gray), gray + k * (g - gray), gray + k * (b - gray)).

(** "each step applied only if its parameter is non-zero" *)
Definition when_nonzero (step : float -> channels -> channels) (p : float)
    (v : channels) : channels :=
  if strict_ne p 0 then step p v else v.

(** The seven steps in their fixed order; no clamp in between. *)
Definition steps (a : Adjustments) : list (channels -> channels) :=
  [when_nonzero exposure_step (exposure a);
   when_nonzero brightness_step (brightness a);
   when_nonzero contrast_step (contrast a);
   when_nonzero temperature_step (temperature a);
   when_nonzero highlights_step (highlights a);
   when_nonzero shadows_step (shadows a);
   when_nonzero saturation_step (saturation a)].

Definition chain (a : Adjustments) (v : channels) : channels :=
  fold_left (fun v step => step v) (steps a) v.

(** Clamp to [0, 255]. *)
Definition clamp (x : float) : float := Math_max 0 (Math_min 255 x).

(** One pixel: the chain, one clamp per channel, the 8-bit store; alpha
    untouched. *)
Definition adjust_pixel (a : Adjustments) (p : list byte) : list byte :=
  match p with
  | [r; g; b; al] =>
      let '(r', g', b') := chain a (of_byte r, of_byte g, of_byte b) in
      [ToUint8Clamp (clamp r'); ToUint8Clamp (clamp g');
       ToUint8Clamp (clamp b'); al]
  | _ => p
  end.

Definition apply (a : Adjustments) (d : list byte) : list byte :=
  flat_map (fun i => adjust_pixel a (chunk d i)) (seq 0 (length d / 4)).

(** A variant that clamps after every step, for contrast with [chain]. *)
Definition clamp3 (v : channels) : channels :=
  let '(r, g, b) := v in (clamp r, clamp g, clamp b).

Definition chain_clamping_each_step (a : Adjustments) (v : channels) : channels :=
  fold_left (fun v step => clamp3 (step v)) (steps a) v.

Definition adjust_pixel_clamping_each_step (a : Adjustments) (p : list byte)
  : list byte :=
  match p with
  | [r; g; b; al] =>
      let '(r', g', b') :=
        chain_clamping_each_step a (of_byte r, of_byte g, of_byte b) in
      [ToUint8Clamp r'; ToUint8Clamp g'; ToUint8Clamp b'; al]
  | _ => p
  end.

End AdjustmentSpec.

(* ===================================================================== *)
(** ** Mirror images *)
(* ===================================================================== *)

Module GeometrySpec.
Import JS Dom.

(** This module does not come from the source.  It says what the mirror
    image of a [w] x [h] bitmap is: about the vertical centre line, the pixel
    at column [x] is the one that was at column [w - 1 - x]; about the
    horizontal centre line, the pixel at row [y] is the one that was at row
    [h - 1 - y]. *)

Definition mirror_horizontal (w h : nat) (d : list byte) : list byte :=
  raster w h (fun x y => pixel_at w h d (Z.of_nat w - 1 - x) y).

Definition mirror_vertical (w h : nat) (d : list byte) : list byte :=
  raster w h (fun x y => pixel_at w h d x (Z.of_nat h - 1 - y)).

(** The transform calls [flip] makes on the new context. *)
Definition flip_ops (direction : string) (w h : nat) : list xform :=
  if String.eqb direction "horizontal"
  then [Translate (Int (Z.of_nat w)) (Int 0); Scale (Int (-1)) (Int 1)]
  else [Translate (Int 0) (Int (Z.of_nat h)); Scale (Int 1) (Int (-1))].

End GeometrySpec.

(* ===================================================================== *)
(** ** The sharpening kernel as the specification words it *)
(* ===================================================================== *)

Module SharpenSpec.
Import JS Dom ImageEditor.
Local Open Scope float_scope.

(** This module does not come from the source.  It follows section 4.2 of
    the specification: the unsharp-mask kernel has the weight [1 + 4 x amount]
    at the centre, [- amount] at the four orthogonal neighbours and 0 at the
    diagonal neighbours, and is applied to the samples as they were before
    sharpening. *)

Definition weight (amount : float) (kx ky : Z) : float :=
  if ((kx =? 0) && (ky =? 0))%Z then 1 + 4 * amount
  else if ((kx =? 0) || (ky =? 0))%Z then - amount
  else 0.

(** Channel [c] of the pixel at column [x], row [y]. *)
Definition sample (d : list byte) (w : nat) (x y : Z) (c : nat) : float :=
  rdZ d ((y * Z.of_nat w + x) * 4 + Z.of_nat c)%Z.

(** The 3 x 3 neighbourhood, row by row. *)
Definition offsets : list (Z * Z) :=
  [(-1, -1); (0, -1); (1, -1);
   (-1, 0);  (0, 0);  (1, 0);
   (-1, 1);  (0, 1);  (1, 1)]%Z.

Definition weights (amount : float) : list float :=
  map (fun k => weight amount (fst k) (snd k)) offsets.

(** Sum of the samples, each times its weight, from the first on. *)
Definition weighted_sum (samples weights : list float) : float :=
  fold_left (fun sum sk => sum + fst sk * snd sk) (combine samples weights) 0.

Definition unsharp (amount : float) (d : list byte) (w : nat)
    (x y c : nat) : float :=
  weighted_sum
    (map (fun k => sample d w (Z.of_nat x + fst k) (Z.of_nat y + snd k) c)
         offsets)
    (weights amount).

Definition store_at (d : list byte) (p : nat * byte) : list byte :=
  <[fst p := snd p]> d.

(** The stores [applySharpness] makes, in order: index and value. *)
Definition writes (amount : float) (d : list byte) (w h : nat)
  : list (nat * byte) :=
  flat_map (fun y =>
    flat_map (fun x =>
      map (fun c => (((y * w + x) * 4 + c)%nat,
                     ToUint8Clamp (Math_max 0 (Math_min 255
                                     (unsharp amount d w x y c)))))
          [0; 1; 2]%nat)
      (seq 1 (w - 2)))
    (seq 1 (h - 2)).

End SharpenSpec.

(* ===================================================================== *)
(** * Properties *)
(* ===================================================================== *)

Module HistoryFacts.
Import History.
Section Facts.
Context {State : Type}.
Implicit Types (h : History.t State) (s e : State) (l : list State).

(** *** Basic facts *)

Lemma slice0_take (l : list State) (e : Z) :
  0 <= e -> slice0 l e = take (Z.to_nat e) l.
Proof.
  intros He. unfold slice0.
  destruct (Z.ltb_spec e 0) as [?|_]; [lia|].
  destruct (Z.le_gt_cases e (Z.of_nat (length l))) as [Hle|Hgt].
  - now rewrite Z.min_l by lia.
  - rewrite Z.min_r by lia. rewrite Nat2Z.id.
    rewrite firstn_all. symmetry. apply take_ge. lia.
Qed.

Lemma maxSize_push s h : maxSize (push s h) = maxSize h.
Proof. unfold push. now destruct (_ <? _). Qed.

Lemma maxSize_step h o : maxSize (step h o) = maxSize h.
Proof.
  destruct o; simpl.
  - apply maxSize_push.
  - unfold undo. now destruct (negb _).
  - unfold redo. now destruct (negb _).
  - reflexivity.
Qed.

(** What one push does, in terms of the list before it. *)
Lemma push_unfold s h :
  -1 <= currentIndex h ->
  let grown := take (Z.to_nat (currentIndex h + 1)) (states h) ++ [s] in
  (Z.of_nat (length grown) <= maxSize h ->
     states (push s h) = grown /\
     currentIndex (push s h) = currentIndex h + 1) /\
  (maxSize h < Z.of_nat (length grown) ->
     states (push s h) = drop 1 grown /\
     currentIndex (push s h) = currentIndex h).
Proof.
  intros Hc grown. unfold push.
  rewrite slice0_take by lia. fold grown.
  destruct (Z.ltb_spec (maxSize h) (Z.of_nat (length grown))); simpl;
    split; intros; try lia; split; auto; lia.
Qed.

Lemma push_cursor_last s h :
  cursor_ok h ->
  currentIndex (push s h) = Z.of_nat (length (states (push s h))) - 1.
Proof.
  intros [[Hlo Hhi] _].
  pose proof (push_unfold s h Hlo) as [Hfit Hevict]. cbv zeta in *.
  set (grown := take (Z.to_nat (currentIndex h + 1)) (states h) ++ [s]) in *.
  assert (Hlen : Z.of_nat (length grown) = currentIndex h + 2).
  { unfold grown. rewrite length_app, length_take. simpl. lia. }
  destruct (Z.le_gt_cases (Z.of_nat (length grown)) (maxSize h)) as [Hle|Hgt].
  - destruct (Hfit Hle) as [-> ->]. lia.
  - destruct (Hevict ltac:(lia)) as [-> ->]. rewrite length_drop. lia.
Qed.

Lemma push_inv s h : 0 <= maxSize h -> inv h -> inv (push s h).
Proof.
  intros Hm [Hc Hb].
  pose proof (push_cursor_last s h Hc) as Hlast.
  destruct Hc as [[Hlo Hhi] Hne]. unfold bounded in Hb.
  pose proof (push_unfold s h Hlo) as [Hfit Hevict]. cbv zeta in *.
  set (grown := take (Z.to_nat (currentIndex h + 1)) (states h) ++ [s]) in *.
  assert (Hlen : Z.of_nat (length grown) = currentIndex h + 2).
  { unfold grown. rewrite length_app, length_take. simpl. lia. }
  split; [split; [split|]|].
  - rewrite Hlast. lia.
  - rewrite Hlast. lia.
  - intros Hnil. rewrite Hlast.
    destruct (states (push s h)); [congruence|simpl; lia].
  - unfold bounded. rewrite maxSize_push.
    destruct (Z.le_gt_cases (Z.of_nat (length grown)) (maxSize h)) as [Hle|Hgt].
    + destruct (Hfit Hle) as [-> _]. lia.
    + destruct (Hevict ltac:(lia)) as [-> _]. rewrite length_drop. lia.
Qed.

Lemma undo_inv h : inv h -> inv (snd (undo h)).
Proof.
  intros [[[Hlo Hhi] Hne] Hb]. unfold undo, canUndo.
  destruct (Z.ltb_spec 0 (currentIndex h)); simpl.
  - repeat split; simpl; try lia. exact Hb.
  - repeat split; auto.
Qed.

Lemma redo_inv h : inv h -> inv (snd (redo h)).
Proof.
  intros [[[Hlo Hhi] Hne] Hb]. unfold redo, canRedo.
  destruct (Z.ltb_spec (currentIndex h) (Z.of_nat (length (states h)) - 1));
    simpl.
  - repeat split; simpl; try lia. exact Hb.
  - repeat split; auto.
Qed.

Lemma clear_inv h : 0 <= maxSize h -> inv (clear h).
Proof.
  intros Hm. repeat split; simpl; try lia. congruence.
  unfold bounded. simpl. lia.
Qed.

Lemma new_inv m : 0 <= m -> inv (new (State:=State) m).
Proof.
  intros Hm. repeat split; simpl; try lia. congruence.
  unfold bounded. simpl. lia.
Qed.

Lemma step_inv h o : 0 <= maxSize h -> inv h -> inv (step h o).
Proof.
  intros Hm Hi. destruct o; simpl.
  - now apply push_inv.
  - now apply undo_inv.
  - now apply redo_inv.
  - now apply clear_inv.
Qed.

Lemma maxSize_run ops : forall h, maxSize (run ops h) = maxSize h.
Proof.
  induction ops as [|o ops IH]; intros h; simpl; [reflexivity|].
  change (run (o :: ops) h) with (run ops (step h o)).
  now rewrite IH, maxSize_step.
Qed.

Lemma run_inv ops : forall h, 0 <= maxSize h -> inv h -> inv (run ops h).
Proof.
  induction ops as [|o ops IH]; intros h Hm Hi; simpl; [exact Hi|].
  apply IH; [now rewrite maxSize_step | now apply step_inv].
Qed.

(** Pushing a whole list from the empty history keeps the most recent
    [maxSize] entries. *)
Lemma push_all_new (m : Z) (l : list State) :
  0 <= m ->
  let h := push_all l (new m) in
  states h = drop (length l - Z.to_nat m) l /\
  currentIndex h = Z.of_nat (length (states h)) - 1 /\
  maxSize h = m.
Proof.
  intros Hm. induction l as [|e l IH] using rev_ind; simpl.
  - repeat split; reflexivity.
  - unfold push_all in *. rewrite fold_left_app. simpl.
    set (h := fold_left (fun h s => push s h) l (new m)) in *.
    destruct IH as (Hs & Hc & Hmax).
    assert (Hlen : length (states h) = Nat.min (length l) (Z.to_nat m)).
    { rewrite Hs, length_drop. lia. }
    assert (Hlo : -1 <= currentIndex h) by lia.
    pose proof (push_unfold e h Hlo) as [Hfit Hevict]. cbv zeta in *.
    assert (Htake : take (Z.to_nat (currentIndex h + 1)) (states h) = states h).
    { apply take_ge. lia. }
    rewrite Htake in *. rewrite length_app in *. simpl in *.
    rewrite maxSize_push.
    destruct (Z.le_gt_cases (Z.of_nat (length (states h) + 1)) (maxSize h))
      as [Hle|Hgt].
    + destruct (Hfit Hle) as [E1 E2]. rewrite E1, E2.
      repeat split; try lia.
      * rewrite Hs.
        replace (length l + 1 - Z.to_nat m)%nat with 0%nat by lia.
        replace (length l - Z.to_nat m)%nat with 0%nat by lia.
        reflexivity.
      * rewrite length_app. simpl. lia.
    + destruct (Hevict ltac:(lia)) as [E1 E2]. rewrite E1, E2.
      repeat split; try lia.
      * rewrite Hs.
        rewrite <- (drop_app_le l [e]) by lia.
        rewrite drop_drop. f_equal. lia.
      * rewrite length_drop, length_app. simpl. lia.
Qed.


Local Ltac push_case :=
  unfold push, new; simpl;
  match goal with
  | |- context [?a <? ?b] =>
      destruct (Z.ltb_spec a b); [simpl in *; lia | reflexivity]
  end.

Lemma getCurrent_push_all (m : Z) (l : list State) :
  1 <= m -> l <> [] -> getCurrent (push_all l (new m)) = last l.
Proof.
  intros Hm Hl.
  destruct (push_all_new m l ltac:(lia)) as (Hs & Hc & _).
  set (h := push_all l (new m)) in *.
  assert (Hlen : (0 < length l)%nat) by (destruct l; [congruence|simpl; lia]).
  assert (Hk : (length l - Z.to_nat m < length l)%nat) by lia.
  assert (Hne : (0 < length (states h))%nat) by (rewrite Hs, length_drop; lia).
  unfold getCurrent, at_index. rewrite Hc.
  destruct (Z.ltb_spec (Z.of_nat (length (states h)) - 1) 0) as [?|_]; [lia|].
  replace (Z.to_nat (Z.of_nat (length (states h)) - 1))
    with (pred (length (states h))) by lia.
  rewrite <- last_lookup, Hs.
  rewrite !last_lookup, length_drop, lookup_drop. f_equal. lia.
Qed.

(** C2.  [push] cuts the list after the cursor, appends the new entry and
    moves the cursor onto it; when that makes the list longer than the bound
    the oldest entry is dropped and the cursor moved back by one.  Pushing a
    list of entries onto the empty history therefore keeps exactly the
    [maxSize] most recent ones, with the cursor on the last entry pushed
    (there is one as soon as the bound is positive).
    With a bound of at least three: push A, B, C leaves the cursor at 2,
    [undo] returns B with the cursor at 1, pushing D gives [A; B; D] with the
    cursor at 2, and [redo] then returns nothing. *)
Theorem push_truncates_appends_evicts (m : Z) :
  (forall h e, maxSize h = m -> -1 <= currentIndex h ->
     let grown := take (Z.to_nat (currentIndex h + 1)) (states h) ++ [e] in
     (Z.of_nat (length grown) <= m ->
        states (push e h) = grown /\
        currentIndex (push e h) = currentIndex h + 1) /\
     (m < Z.of_nat (length grown) ->
        states (push e h) = drop 1 grown /\
        currentIndex (push e h) = currentIndex h + 1 - 1)) /\
  (forall l, 0 <= m ->
     let h := push_all l (new m) in
     states h = drop (length l - Z.to_nat m) l /\
     Z.of_nat (length (states h)) = Z.min (Z.of_nat (length l)) m /\
     currentIndex h = Z.of_nat (length (states h)) - 1 /\
     (1 <= m -> l <> [] -> getCurrent h = last l)) /\
  (forall A B C D : State, 3 <= m ->
     let h3 := push C (push B (push A (new m))) in
     let hu := snd (undo h3) in
     let hd := push D hu in
     states h3 = [A; B; C] /\ currentIndex h3 = 2 /\
     fst (undo h3) = Some B /\ currentIndex hu = 1 /\
     states hd = [A; B; D] /\ currentIndex hd = 2 /\
     fst (redo hd) = None /\ snd (redo hd) = hd).
Proof.
  split; [|split].
  - intros h e Hmax Hc. subst m.
    replace (currentIndex h + 1 - 1) with (currentIndex h) by lia.
    exact (push_unfold e h Hc).
  - intros l Hm h.
    destruct (push_all_new m l ltac:(lia)) as (Hs & Hc & _). fold h in Hs, Hc.
    repeat split; auto.
    + rewrite Hs, length_drop. lia.
    + intros Hm1 Hl. now apply getCurrent_push_all.
  - intros A B C D Hm. cbv zeta.
    assert (E1 : push A (new m) = mk [A] 0 m).
    { push_case. }
    assert (E2 : push B (mk [A] 0 m) = mk [A; B] 1 m).
    { push_case. }
    assert (E3 : push C (mk [A; B] 1 m) = mk [A; B; C] 2 m).
    { push_case. }
    assert (E4 : push D (mk [A; B; C] 1 m) = mk [A; B; D] 2 m).
    { push_case. }
    rewrite E1, E2, E3.
    change (snd (undo (mk [A; B; C] 2 m))) with (mk [A; B; C] 1 m).
    rewrite E4. repeat split; try reflexivity.
    all: unfold redo, canRedo; simpl; reflexivity.
Qed.

(** C6.  Starting from the empty history with a non-negative bound, every
    sequence of [push], [undo], [redo] and [clear] leads to a state in which
    the cursor indexes an entry whenever there is one, and in which the
    number of entries does not exceed the bound. *)
Theorem history_invariant (m : Z) (ops : list (op State)) :
  0 <= m ->
  let h := run ops (new m) in
  (states h <> [] -> 0 <= currentIndex h < Z.of_nat (length (states h))) /\
  Z.of_nat (length (states h)) <= m.
Proof.
  intros Hm h.
  assert (Hi : inv h) by (apply run_inv; [exact Hm | now apply new_inv]).
  assert (Hmax : maxSize h = m).
  { unfold h. now rewrite maxSize_run. }
  destruct Hi as [[[Hlo Hhi] Hne] Hb]. unfold bounded in Hb.
  split; [intros Hnil; specialize (Hne Hnil); lia | lia].
Qed.

End Facts.

Lemma push_truncates_appends_evicts_witness :
  let h := History.mk [1; 2; 3] 1 3 in
  History.states (History.push 4 h) = [1; 2; 4] /\ History.currentIndex (History.push 4 h) = 2.
Proof.
  destruct (push_truncates_appends_evicts (State:=Z) 3) as [Hpush _].
  destruct (Hpush (History.mk [1; 2; 3] 1 3) 4 eq_refl ltac:(simpl; lia)) as [Hfit _].
  apply Hfit. simpl. lia.
Defined.

Lemma history_invariant_witness :
  let h := History.run [History.Push 1; History.Push 2; History.Push 3; History.Undo;
                        History.Redo; History.Undo; History.Push 4]
             (History.new 2) in
  (History.states h <> [] ->
   0 <= History.currentIndex h < Z.of_nat (length (History.states h))) /\
  Z.of_nat (length (History.states h)) <= 2.
Proof. apply (history_invariant (State:=Z) 2). lia. Defined.

End HistoryFacts.

(* ===================================================================== *)
(** ** Facts about BackgroundRemover *)
(* ===================================================================== *)

Module BackgroundRemoverFacts.
Import BackgroundRemover.
Section Facts.
Context {Blob : Type}.
Implicit Types (w : world Blob) (b : Blob).

Lemma remove_single_flight b w :
  single_flight w -> single_flight (snd (remove b w)).
Proof.
  intros [[Hp [p Hq]]|[Hp Hq]]; unfold remove; rewrite Hp; simpl.
  - left. eauto.
  - left. rewrite Hq. simpl. eauto.
Qed.

Lemma resume_single_flight t r w :
  single_flight w -> single_flight (snd (resume t r w)).
Proof.
  intros Hw. unfold resume.
  destruct (awaited t w) eqn:Ha; simpl; [|exact Hw].
  right. split; [reflexivity|]. simpl.
  unfold awaited in Ha.
  destruct Hw as [[_ [p Hq]]|[_ Hq]]; rewrite Hq in *; simpl in *.
  - rewrite orb_false_r in Ha. apply Nat.eqb_eq in Ha.
    rewrite filter_cons_False by (simpl; intros Hn; now apply Hn).
    reflexivity.
  - discriminate.
Qed.

Lemma run_single_flight (es : list (event Blob)) :
  forall w, single_flight w -> single_flight (run es w).
Proof.
  induction es as [|e es IH]; intros w Hw; simpl; [exact Hw|].
  apply IH. destruct e; simpl.
  - now apply remove_single_flight.
  - now apply resume_single_flight.
Qed.

(** C5.  In every state the remover can reach, if a call to the external
    removal is outstanding then a further [remove] throws the error "Background
    removal already in progress" at once and changes nothing: the outstanding
    call stays the only one pending (it is neither cancelled nor joined by a
    second one), no new external call is started, and the flag stays set. *)
Theorem remove_while_pending_throws (es : list (event Blob)) (b : Blob) :
  let w := run es new in
  pending w <> [] ->
  remove b w = (Throws "Background removal already in progress", w) /\
  length (pending (snd (remove b w))) = 1%nat /\
  started (snd (remove b w)) = started w /\
  isProcessing (snd (remove b w)) = true.
Proof.
  intros w Hp.
  assert (Hs : single_flight w).
  { apply run_single_flight. right. split; reflexivity. }
  destruct Hs as [[Hflag [p Hq]]|[_ Hq]]; [|congruence].
  assert (E : remove b w = (Throws "Background removal already in progress", w)).
  { unfold remove. now rewrite Hflag. }
  rewrite E. simpl. rewrite Hq. auto.
Qed.

End Facts.

Lemma remove_while_pending_throws_witness :
  let w := BackgroundRemover.run [BackgroundRemover.Call 7%nat]
             BackgroundRemover.new in
  BackgroundRemover.remove 8%nat w
  = (BackgroundRemover.Throws "Background removal already in progress", w).
Proof.
  apply (remove_while_pending_throws [BackgroundRemover.Call 7%nat] 8%nat).
  simpl. discriminate.
Defined.

End BackgroundRemoverFacts.

(* ===================================================================== *)
(** ** Facts about bitmaps and the canvas store *)
(* ===================================================================== *)

Module DomFacts.
Import JS Dom.
Local Open Scope nat_scope.

Section Chunks.
Context {A : Type}.
Implicit Types (g : nat -> list A).

Lemma flat_map_seq_S g n :
  flat_map g (seq 0 (S n)) = flat_map g (seq 0 n) ++ g n.
Proof. rewrite seq_S, flat_map_app. simpl. now rewrite app_nil_r. Qed.

Lemma length_flat_map_chunks g m n :
  (forall i, length (g i) = m) ->
  length (flat_map g (seq 0 n)) = m * n.
Proof.
  intros Hg. induction n as [|n IH]; [simpl; lia|].
  rewrite flat_map_seq_S, length_app, IH, Hg. lia.
Qed.

Lemma lookup_flat_map_chunks g m n i k :
  (forall i, length (g i) = m) -> i < n -> k < m ->
  flat_map g (seq 0 n) !! (m * i + k) = g i !! k.
Proof.
  intros Hg. induction n as [|n IH]; intros Hi Hk; [lia|].
  rewrite flat_map_seq_S.
  destruct (decide (i = n)) as [->|Hne].
  - rewrite lookup_app_r by (rewrite (length_flat_map_chunks g m); auto; lia).
    rewrite (length_flat_map_chunks g m) by auto. f_equal. lia.
  - rewrite lookup_app_l by (rewrite (length_flat_map_chunks g m); auto; nia).
    apply IH; lia.
Qed.

Lemma flat_map_ext_seq g g' n :
  (forall i, i < n -> g i = g' i) ->
  flat_map g (seq 0 n) = flat_map g' (seq 0 n).
Proof.
  intros Hg. induction n as [|n IH]; [reflexivity|].
  rewrite !flat_map_seq_S, IH, Hg; auto.
Qed.

End Chunks.

Lemma length_chunk d i : length (chunk d i) = 4.
Proof. reflexivity. Qed.

Lemma lookup_chunk d i k :
  4 * i + 3 < length d -> k < 4 -> chunk d i !! k = d !! (4 * i + k).
Proof.
  intros Hi Hk. unfold chunk.
  destruct k as [|[|[|[|k]]]]; try lia; simpl; rewrite ?Nat.add_0_r; symmetry;
    match goal with
    | |- ?l !! ?j = Some (nth ?j ?l ?z) =>
        destruct (nth_lookup_or_length l j z) as [E|E]; [exact E|lia]
    end.
Qed.

(** Cutting an array into its pixels and joining them again. *)
Lemma flat_map_chunk d n :
  length d = 4 * n -> flat_map (chunk d) (seq 0 n) = d.
Proof.
  intros Hd. apply list_eq. intros j.
  destruct (decide (j < 4 * n)) as [Hj|Hj].
  - replace j with (4 * (j / 4) + j mod 4) at 1
      by (symmetry; apply Nat.div_mod_eq).
    assert (j mod 4 < 4) by (apply Nat.mod_upper_bound; lia).
    assert (j / 4 < n) by (apply Nat.Div0.div_lt_upper_bound; lia).
    rewrite (lookup_flat_map_chunks (chunk d) 4) by auto using length_chunk.
    rewrite lookup_chunk by (auto; pose proof (Nat.div_mod_eq j 4); lia).
    f_equal. symmetry. apply Nat.div_mod_eq.
  - rewrite !(proj2 (lookup_ge_None _ _)); auto; try lia.
    rewrite (length_flat_map_chunks (chunk d) 4) by auto using length_chunk.
    lia.
Qed.

Lemma chunk_flat_map g n i :
  (forall i, length (g i) = 4) -> i < n ->
  chunk (flat_map g (seq 0 n)) i = g i.
Proof.
  intros Hg Hi.
  assert (L : forall k, k < 4 ->
            nth (4 * i + k) (flat_map g (seq 0 n)) x00 = nth k (g i) x00).
  { intros k Hk. rewrite !nth_lookup.
    now rewrite (lookup_flat_map_chunks g 4) by auto. }
  unfold chunk. rewrite <- (Nat.add_0_r (4 * i)) at 1.
  rewrite !L by lia.
  specialize (Hg i). destruct (g i) as [|a [|b [|c [|e [|? ?]]]]];
    simpl in Hg; try lia. reflexivity.
Qed.

Lemma chunk_replicate n i :
  4 * i + 3 < n -> chunk (replicate n x00) i = transparent.
Proof.
  intros Hi. unfold chunk, transparent.
  rewrite !nth_lookup, !lookup_replicate_2 by lia. reflexivity.
Qed.

(** *** Rasters *)

Lemma raster_coords w h i :
  i < w * h -> i mod w < w /\ i / w < h.
Proof.
  intros Hi. assert (w <> 0) by nia. split.
  - now apply Nat.mod_upper_bound.
  - apply Nat.Div0.div_lt_upper_bound. lia.
Qed.

Lemma raster_index w x y :
  x < w -> (y * w + x) mod w = x /\ (y * w + x) / w = y.
Proof.
  intros Hx. split.
  - rewrite Nat.add_comm, Nat.Div0.mod_add. now apply Nat.mod_small.
  - rewrite Nat.div_add_l by lia. rewrite Nat.div_small by lia. lia.
Qed.

Lemma length_raster w h f :
  (forall x y, length (f x y) = 4) -> length (raster w h f) = 4 * (w * h).
Proof.
  intros Hf. unfold raster.
  now rewrite (length_flat_map_chunks _ 4) by (intros; apply Hf).
Qed.

Lemma raster_ext w h f g :
  (forall x y, x < w -> y < h ->
     f (Z.of_nat x) (Z.of_nat y) = g (Z.of_nat x) (Z.of_nat y)) ->
  raster w h f = raster w h g.
Proof.
  intros Hfg. unfold raster. apply flat_map_ext_seq. intros i Hi.
  destruct (raster_coords w h i Hi). now apply Hfg.
Qed.

Lemma chunk_raster w h f x y :
  (forall x y, length (f x y) = 4) -> x < w -> y < h ->
  chunk (raster w h f) (y * w + x) = f (Z.of_nat x) (Z.of_nat y).
Proof.
  intros Hf Hx Hy. unfold raster.
  rewrite chunk_flat_map by (auto; nia).
  destruct (raster_index w x y Hx) as [-> ->]. reflexivity.
Qed.

Lemma pixel_at_inside w h d x y :
  x < w -> y < h ->
  pixel_at w h d (Z.of_nat x) (Z.of_nat y) = chunk d (y * w + x).
Proof.
  intros Hx Hy. unfold pixel_at.
  destruct (Z.leb_spec 0 (Z.of_nat x)); [|lia].
  destruct (Z.ltb_spec (Z.of_nat x) (Z.of_nat w)); [|lia].
  destruct (Z.leb_spec 0 (Z.of_nat y)); [|lia].
  destruct (Z.ltb_spec (Z.of_nat y) (Z.of_nat h)); [|lia].
  simpl. f_equal. lia.
Qed.

Lemma inside_true w h x y :
  x < w -> y < h -> inside w h (Z.of_nat x) (Z.of_nat y) = true.
Proof.
  intros Hx Hy. unfold inside.
  destruct (Z.leb_spec 0 (Z.of_nat x)); [|lia].
  destruct (Z.ltb_spec (Z.of_nat x) (Z.of_nat w)); [|lia].
  destruct (Z.leb_spec 0 (Z.of_nat y)); [|lia].
  destruct (Z.ltb_spec (Z.of_nat y) (Z.of_nat h)); [|lia].
  reflexivity.
Qed.

Lemma length_pixel_at w h d x y : length (pixel_at w h d x y) = 4.
Proof. unfold pixel_at. now destruct (_ && _). Qed.

(** Reading every pixel of a well-formed bitmap gives the bitmap back. *)
Lemma raster_pixel_at w h d :
  length d = 4 * (w * h) -> raster w h (pixel_at w h d) = d.
Proof.
  intros Hd. rewrite <- (flat_map_chunk d (w * h) Hd) at 2.
  unfold raster. apply flat_map_ext_seq. intros i Hi.
  destruct (raster_coords w h i Hi) as [Hx Hy].
  rewrite pixel_at_inside by auto. f_equal.
  rewrite Nat.mul_comm. symmetry. apply Nat.div_mod_eq.
Qed.

Lemma pixel_at_raster w h f x y :
  (forall x y, length (f x y) = 4) -> x < w -> y < h ->
  pixel_at w h (raster w h f) (Z.of_nat x) (Z.of_nat y)
  = f (Z.of_nat x) (Z.of_nat y).
Proof.
  intros Hf Hx Hy. rewrite pixel_at_inside by auto.
  now apply chunk_raster.
Qed.

(** *** The store *)

Section StoreFacts.
Context `{ua : UserAgent}.
Implicit Types (s : gmap nat canvas) (c : canvas).

Lemma fresh_unused s : s !! fresh (dom s) = None.
Proof. apply not_elem_of_dom, is_fresh. Qed.

Lemma fresh_ne s i c : s !! i = Some c -> i <> fresh (dom s).
Proof. intros Hi ->. rewrite fresh_unused in Hi. discriminate. Qed.

Lemma width_blank w h : width (blank w h) = w.
Proof. reflexivity. Qed.

Lemma height_blank w h : height (blank w h) = h.
Proof. reflexivity. Qed.

Lemma wf_blank w h : wf (blank w h).
Proof. unfold wf, blank. cbn [pixels width height]. apply length_replicate. Qed.

Lemma composite_transparent p : composite transparent p = p.
Proof. reflexivity. Qed.

(** Drawing a well-formed bitmap at the origin of a blank canvas of the
    same size copies it. *)
Lemma draw_blank c :
  wf c ->
  draw c (Int 0) (Int 0) (blank (width c) (height c))
  = mkCanvas (width c) (height c) (pixels c) [].
Proof.
  intros Hc. unfold draw, blank.
  cbn [transform width height pixels aligned]. f_equal.
  etransitivity; [|exact (raster_pixel_at (width c) (height c) (pixels c) Hc)].
  apply raster_ext. intros x y Hx Hy.
  unfold preimage. cbn [Z.eqb Pos.eqb]. rewrite !Z.sub_0_r.
  rewrite inside_true by auto.
  rewrite (pixel_at_inside _ _ (replicate _ _)) by auto.
  rewrite chunk_replicate by nia. apply composite_transparent.
Qed.

Lemma getImageData_full i s c :
  s !! i = Some c -> wf c ->
  ctx_getImageData i 0 0 (width c) (height c) s
  = mkImageData (width c) (height c) (pixels c).
Proof.
  intros Hi Hc. unfold ctx_getImageData.
  rewrite (lookup_total_correct _ _ _ Hi). f_equal.
  etransitivity; [|exact (raster_pixel_at (width c) (height c) (pixels c) Hc)].
  apply raster_ext. intros x y _ _. now rewrite !Z.add_0_l.
Qed.

Lemma put_full c w h d :
  width c = w -> height c = h -> length d = 4 * (w * h) ->
  put (mkImageData w h d) 0 0 c = mkCanvas w h d (transform c).
Proof.
  intros <- <- Hd. unfold put. cbn [iwidth iheight data]. f_equal.
  etransitivity; [|exact (raster_pixel_at (width c) (height c) d Hd)].
  apply raster_ext. intros x y Hx Hy.
  rewrite !Z.sub_0_r. now rewrite inside_true.
Qed.

Lemma alter_Some (f : canvas -> canvas) s i c :
  s !! i = Some c -> alter f i s = <[i := f c]> s.
Proof.
  intros Hi. apply map_eq. intros j.
  destruct (decide (i = j)) as [<-|Hne].
  - now rewrite lookup_alter_eq, lookup_insert_eq, Hi.
  - now rewrite lookup_alter_ne, lookup_insert_ne.
Qed.

(** The first steps shared by [applyAdjustments] and [flip]: a new canvas
    of the size of the source. *)
Lemma sized_like s src c id :
  s !! src = Some c -> src <> id ->
  set_height id
    (Int (Z.of_nat
       (get_height src
          (set_width id
             (Int (Z.of_nat (get_width src (<[id := blank 300 150]> s))))
             (<[id := blank 300 150]> s)))))
    (set_width id
       (Int (Z.of_nat (get_width src (<[id := blank 300 150]> s))))
       (<[id := blank 300 150]> s))
  = <[id := blank (width c) (height c)]> s.
Proof.
  intros Hsrc Hne.
  assert (E1 : get_width src (<[id := blank 300 150]> s) = width c).
  { unfold get_width. rewrite lookup_total_insert_ne by auto.
    now rewrite (lookup_total_correct _ _ _ Hsrc). }
  rewrite E1.
  assert (E2 : set_width id (Int (Z.of_nat (width c)))
                 (<[id := blank 300 150]> s)
               = <[id := blank (width c) 150]> s).
  { unfold set_width. rewrite alter_insert_eq.
    unfold extent. now rewrite Nat2Z.id, height_blank. }
  rewrite E2.
  assert (E3 : get_height src (<[id := blank (width c) 150]> s) = height c).
  { unfold get_height. rewrite lookup_total_insert_ne by auto.
    now rewrite (lookup_total_correct _ _ _ Hsrc). }
  rewrite E3. unfold set_height. rewrite alter_insert_eq.
  unfold extent. now rewrite Nat2Z.id, width_blank.
Qed.

(** Drawing the source at the origin of that canvas copies it. *)
Lemma drawImage_copy s src c id :
  s !! src = Some c -> wf c -> src <> id ->
  ctx_drawImage id src (Int 0) (Int 0)
    (<[id := blank (width c) (height c)]> s)
  = <[id := mkCanvas (width c) (height c) (pixels c) []]> s.
Proof.
  intros Hsrc Hc Hne. unfold ctx_drawImage.
  rewrite lookup_total_insert_ne by auto.
  rewrite (lookup_total_correct _ _ _ Hsrc).
  now rewrite alter_insert_eq, draw_blank.
Qed.

Lemma putImageData_full s id c w h d :
  s !! id = Some c -> width c = w -> height c = h ->
  length d = 4 * (w * h) ->
  ctx_putImageData id (mkImageData w h d) 0 0 s
  = <[id := mkCanvas w h d (transform c)]> s.
Proof.
  intros Hi Hw Hh Hd. unfold ctx_putImageData.
  rewrite (alter_Some _ _ _ _ Hi). now rewrite put_full.
Qed.

End StoreFacts.

End DomFacts.

(* ===================================================================== *)
(** ** Facts about ImageEditor *)
(* ===================================================================== *)

Module ImageEditorFacts.
Import JS Dom ImageEditor DomFacts.
Local Open Scope nat_scope.

(** *** Reads and stores around one pixel *)

Lemma rd_pre pre l j : rd (pre ++ l) (length pre + j) = rd l j.
Proof.
  unfold rd. rewrite lookup_app_r by lia.
  now replace (length pre + j - length pre) with j by lia.
Qed.

Lemma wr_pre pre l j v : wr (pre ++ l) (length pre + j) v = pre ++ wr l j v.
Proof. unfold wr. apply insert_app_r. Qed.

Lemma length_wr d i v : length (wr d i v) = length d.
Proof. apply length_insert. Qed.

(** A sample array cut around pixel [k]. *)
Lemma split_pixel d k :
  4 * k + 3 < length d ->
  exists pre r g b a post,
    d = pre ++ r :: g :: b :: a :: post /\ length pre = 4 * k /\
    chunk d k = [r; g; b; a] /\
    take (4 * k) d = pre /\ drop (4 * k + 4) d = post.
Proof.
  intros Hk.
  assert (Hd : d = take (4 * k) d ++ drop (4 * k) d)
    by (symmetry; apply take_drop).
  assert (Hl : length (take (4 * k) d) = 4 * k)
    by (rewrite length_take; lia).
  assert (Hr : 4 <= length (drop (4 * k) d)) by (rewrite length_drop; lia).
  destruct (drop (4 * k) d) as [|r [|g [|b [|a post]]]] eqn:E;
    simpl in Hr; try lia.
  exists (take (4 * k) d), r, g, b, a, post.
  split; [exact Hd|]. split; [exact Hl|]. split; [|split; [reflexivity|]].
  - unfold chunk. rewrite Hd at 1 2 3 4. rewrite <- Hl at 1 3 5 7.
    rewrite <- (Nat.add_0_r (length (take (4 * k) d))) at 1.
    rewrite !app_nth2_plus. reflexivity.
  - rewrite <- drop_drop, E. reflexivity.
Qed.

(** *** Loops over pixels *)

Lemma pixelwise_at body pf d k :
  pixelwise body pf -> 4 * k + 3 < length d ->
  body (4 * k) d = take (4 * k) d ++ pf (chunk d k) ++ drop (4 * k + 4) d.
Proof.
  intros Hb Hk.
  destruct (split_pixel d k Hk) as (pre & r & g & b & a & post &
                                     Hd & Hl & Hc & Ht & Hp).
  rewrite Hc, Ht, Hp. rewrite Hd at 1. rewrite <- Hl. apply Hb.
Qed.

Lemma for_pixels_prefix body pf d n j :
  pixelwise body pf -> (forall p, length p = 4 -> length (pf p) = 4) ->
  length d = 4 * n -> j <= n ->
  fold_left (fun d i => body i d) (map (fun k => 4 * k) (seq 0 j)) d
  = flat_map (fun i => pf (chunk d i)) (seq 0 j) ++ drop (4 * j) d.
Proof.
  intros Hb Hpf Hd. induction j as [|j IH]; intros Hj.
  - reflexivity.
  - rewrite flat_map_seq_S.
    rewrite seq_S, map_app, fold_left_app, IH by lia.
    cbn [map fold_left]. change (0 + j) with j.
    set (P := flat_map (fun i => pf (chunk d i)) (seq 0 j)).
    assert (HP : length P = 4 * j).
    { unfold P. apply (length_flat_map_chunks _ 4).
      intros; apply Hpf, length_chunk. }
    destruct (split_pixel d j ltac:(lia)) as (pre & r & g & b & a & post &
                                              Hd' & Hl & Hc & Ht & Hp).
    assert (E : drop (4 * j) d = r :: g :: b :: a :: post).
    { rewrite Hd' at 1. rewrite <- Hl. now rewrite drop_app_length. }
    rewrite E, Hc. rewrite <- HP. rewrite (Hb P r g b a post).
    rewrite <- app_assoc. do 2 f_equal.
    rewrite <- Hp. f_equal. lia.
Qed.

(** A pixel-wise loop maps its pixel function over the pixels. *)
Lemma for_pixels_map body pf d n :
  pixelwise body pf -> (forall p, length p = 4 -> length (pf p) = 4) ->
  length d = 4 * n ->
  for_pixels body d = flat_map (fun i => pf (chunk d i)) (seq 0 n).
Proof.
  intros Hb Hpf Hd. unfold for_pixels.
  replace ((length d + 3) / 4) with n.
  2: { rewrite Hd. apply Nat.div_unique with 3; lia. }
  rewrite (for_pixels_prefix body pf d n n) by auto.
  rewrite drop_ge by lia. apply app_nil_r.
Qed.

Lemma length_for_pixels body pf d n :
  pixelwise body pf -> (forall p, length p = 4 -> length (pf p) = 4) ->
  length d = 4 * n -> length (for_pixels body d) = 4 * n.
Proof.
  intros Hb Hpf Hd. rewrite (for_pixels_map body pf d n) by auto.
  apply (length_flat_map_chunks _ 4). intros; apply Hpf, length_chunk.
Qed.

Lemma chunk_for_pixels body pf d n k :
  pixelwise body pf -> (forall p, length p = 4 -> length (pf p) = 4) ->
  length d = 4 * n -> k < n ->
  chunk (for_pixels body d) k = pf (chunk d k).
Proof.
  intros Hb Hpf Hd Hk. rewrite (for_pixels_map body pf d n) by auto.
  now rewrite chunk_flat_map by (auto; intros; apply Hpf, length_chunk).
Qed.

(** *** The loop bodies are pixel-wise *)

Lemma rd_pre0 pre l : rd (pre ++ l) (length pre) = rd l 0.
Proof. rewrite <- (Nat.add_0_r (length pre)) at 1. apply rd_pre. Qed.

Lemma wr_pre0 pre l v : wr (pre ++ l) (length pre) v = pre ++ wr l 0 v.
Proof. rewrite <- (Nat.add_0_r (length pre)) at 1. apply wr_pre. Qed.

Lemma rd_here x l : rd (x :: l) 0 = of_byte x.
Proof. reflexivity. Qed.

Lemma rd_next x l j : rd (x :: l) (S j) = rd l j.
Proof. reflexivity. Qed.

Lemma wr_here x l v : wr (x :: l) 0 v = ToUint8Clamp v :: l.
Proof. reflexivity. Qed.

Lemma wr_next x l j v : wr (x :: l) (S j) v = x :: wr l j v.
Proof. reflexivity. Qed.

(** Evaluates the reads and stores of a loop body at
    [pre ++ r :: g :: b :: a :: post], index [length pre]. *)
Ltac at_pixel :=
  repeat first
    [ rewrite rd_pre0 | rewrite rd_pre | rewrite wr_pre0 | rewrite wr_pre
    | rewrite rd_here | rewrite rd_next | rewrite wr_here | rewrite wr_next ].

(** One step of the chain: expose the next guarded step on the
    specification side, split on its guard, and abstract the channel values
    reached so far. *)
Ltac chain_step c :=
  match goal with
  | |- context [fold_left ?f (?s :: ?l) ?v] =>
      change (fold_left f (s :: l) v) with (fold_left f l (s v))
  end;
  match goal with
  | |- context [AdjustmentSpec.when_nonzero ?st ?p (?x, ?y, ?z)] =>
      change (AdjustmentSpec.when_nonzero st p (x, y, z))
        with (if strict_ne p 0 then st p (x, y, z) else (x, y, z))
  end;
  destruct c;
  cbv beta iota zeta delta
    [AdjustmentSpec.exposure_step AdjustmentSpec.brightness_step
     AdjustmentSpec.contrast_step AdjustmentSpec.temperature_step
     AdjustmentSpec.highlights_step AdjustmentSpec.shadows_step
     AdjustmentSpec.saturation_step AdjustmentSpec.mean];
  match goal with
  | |- context [fold_left _ _ (?x, ?y, ?z)] => generalize x, y, z
  end;
  intros ? ? ?.

Lemma pixelwise_adjust adj :
  pixelwise (adjust_body adj) (AdjustmentSpec.adjust_pixel adj).
Proof.
  intros pre r g b a post.
  unfold adjust_body, AdjustmentSpec.adjust_pixel, AdjustmentSpec.chain,
    AdjustmentSpec.steps, AdjustmentSpec.clamp.
  rewrite rd_pre0, !rd_pre, !rd_next, !rd_here.
  generalize (of_byte r), (of_byte g), (of_byte b). intros R G B.
  chain_step (strict_ne (exposure adj) 0);
  chain_step (strict_ne (brightness adj) 0);
  chain_step (strict_ne (contrast adj) 0);
  chain_step (strict_ne (temperature adj) 0);
  chain_step (strict_ne (highlights adj) 0);
  chain_step (strict_ne (shadows adj) 0);
  chain_step (strict_ne (saturation adj) 0);
  cbn [fold_left]; at_pixel; reflexivity.
Qed.

Lemma length_adjust_pixel adj p :
  length p = 4 -> length (AdjustmentSpec.adjust_pixel adj p) = 4.
Proof.
  intros Hp. destruct p as [|r [|g [|b [|a [|? ?]]]]]; simpl in Hp; try lia.
  unfold AdjustmentSpec.adjust_pixel.
  now destruct (AdjustmentSpec.chain adj _) as [[? ?] ?].
Qed.

Lemma pixelwise_sepia : pixelwise sepia_body (sepia_body 0).
Proof.
  intros pre r g b a post. unfold sepia_body. cbv zeta.
  at_pixel. reflexivity.
Qed.

Lemma length_sepia_pixel p : length p = 4 -> length (sepia_body 0 p) = 4.
Proof. intros Hp. unfold sepia_body. cbv zeta. now rewrite !length_wr. Qed.

Lemma for_pixels_adjust adj d n :
  length d = 4 * n ->
  for_pixels (adjust_body adj) d = AdjustmentSpec.apply adj d.
Proof.
  intros Hd. unfold AdjustmentSpec.apply.
  replace (length d / 4) with n
    by (rewrite Hd, Nat.mul_comm; symmetry; apply Nat.div_mul; lia).
  apply for_pixels_map; auto using pixelwise_adjust, length_adjust_pixel.
Qed.

(** *** Lengths *)

Lemma length_fold_body {A} (body : list byte -> A -> list byte) (l : list A) :
  (forall d a, length (body d a) = length d) ->
  forall d, length (fold_left body l d) = length d.
Proof.
  intros Hb. induction l as [|a l IH]; intros d; simpl; [reflexivity|].
  now rewrite IH, Hb.
Qed.

Lemma length_for_pixels_body body d :
  (forall i d, length (body i d) = length d) ->
  length (for_pixels body d) = length d.
Proof.
  intros Hb. unfold for_pixels.
  apply (length_fold_body (fun d i => body i d)). intros; apply Hb.
Qed.

Lemma length_adjust_body adj i d : length (adjust_body adj i d) = length d.
Proof.
  unfold adjust_body.
  repeat match goal with
         | |- context [if ?c then _ else _] => destruct c
         end; cbv beta iota zeta; now rewrite !length_wr.
Qed.

Lemma length_filter_data filter d : length (filter_data filter d) = length d.
Proof.
  unfold filter_data.
  repeat match goal with
         | |- context [String.eqb ?a ?b] => destruct (String.eqb a b)
         end; try reflexivity;
    apply length_for_pixels_body; intros i d';
    unfold vintage_body, bw_body, sepia_body, vibrant_body, warm_body,
      cool_body, dramatic_body, fade_body, noir_body;
    cbv zeta; now rewrite !length_wr.
Qed.

Lemma length_applySharpness img amount :
  length (data (applySharpness img amount)) = length (data img).
Proof.
  unfold applySharpness. cbn [data].
  apply length_fold_body. intros d y. unfold sharpen_row.
  apply length_fold_body. intros d' x. unfold sharpen_pixel.
  apply length_fold_body. intros d'' c. unfold sharpen_channel.
  apply length_wr.
Qed.

Lemma length_after_adjust adj filter w h d :
  length (after_adjust adj filter w h d) = length d.
Proof.
  unfold after_adjust.
  destruct (negb _); rewrite ?length_filter_data;
    destruct (PrimFloat.ltb _ _); rewrite ?length_applySharpness; reflexivity.
Qed.

(** *** What the editor's canvas operations leave in the store *)

Section StoreLevel.
Context `{ua : UserAgent}.
Implicit Types (s : gmap nat canvas) (c : canvas).

Lemma applyFilter_store s ctx c filter :
  s !! ctx = Some c -> wf c ->
  applyFilter ctx (width c) (height c) filter s
  = <[ctx := mkCanvas (width c) (height c)
               (filter_data filter (pixels c)) (transform c)]> s.
Proof.
  intros Hctx Hc. unfold applyFilter.
  rewrite (getImageData_full _ _ _ Hctx Hc). cbn [iwidth iheight data].
  apply putImageData_full; auto.
  rewrite length_filter_data. exact Hc.
Qed.

(** [applyAdjustments] returns a canvas that did not exist before, holding
    the processed copy of the source; every other entry of the store is as
    it was. *)
Lemma applyAdjustments_store s src c adj filter :
  s !! src = Some c -> wf c ->
  applyAdjustments src adj filter s
  = (fresh (dom s),
     <[fresh (dom s) :=
         mkCanvas (width c) (height c)
           (after_adjust adj filter (width c) (height c)
              (for_pixels (adjust_body adj) (pixels c))) []]> s).
Proof.
  intros Hsrc Hc.
  pose proof (fresh_ne s src c Hsrc) as Hne.
  set (id := fresh (dom s)) in *.
  unfold applyAdjustments, createElement, getContext. fold id.
  cbv beta iota zeta.
  rewrite (sized_like s src c id Hsrc Hne).
  rewrite (drawImage_copy s src c id Hsrc Hc Hne).
  set (c1 := mkCanvas (width c) (height c) (pixels c) []).
  assert (Hc1 : wf c1) by exact Hc.
  assert (Hw : get_width id (<[id := c1]> s) = width c)
    by (unfold get_width; now rewrite lookup_total_insert_eq).
  assert (Hh : get_height id (<[id := c1]> s) = height c)
    by (unfold get_height; now rewrite lookup_total_insert_eq).
  rewrite Hw, Hh.
  rewrite (getImageData_full id (<[id := c1]> s) c1
             (lookup_insert_eq _ _ _) Hc1).
  cbn [iwidth iheight data].
  change (pixels c1) with (pixels c).
  change (width c1) with (width c). change (height c1) with (height c).
  set (d1 := for_pixels (adjust_body adj) (pixels c)).
  assert (Hd1 : length d1 = 4 * (width c * height c)).
  { unfold d1. rewrite length_for_pixels_body by apply length_adjust_body.
    exact Hc. }
  unfold after_adjust.
  destruct (PrimFloat.ltb 0 (sharpness adj)).
  - set (img := applySharpness _ _).
    assert (Hd2 : length (data img) = 4 * (width c * height c)).
    { unfold img. now rewrite length_applySharpness. }
    set (c2 := mkCanvas (width c) (height c) (data img) []).
    assert (Eput : ctx_putImageData id img 0 0 (<[id := c1]> s)
                   = <[id := c2]> s).
    { transitivity (ctx_putImageData id
                      (mkImageData (width c) (height c) (data img)) 0 0
                      (<[id := c1]> s)); [reflexivity|].
      rewrite (putImageData_full _ id c1 _ _ _ (lookup_insert_eq _ _ _)
                 eq_refl eq_refl Hd2).
      now rewrite insert_insert_eq. }
    rewrite !Eput.
    destruct (negb _); [|reflexivity].
    assert (Hw2 : get_width id (<[id := c2]> s) = width c2)
      by (unfold get_width; now rewrite lookup_total_insert_eq).
    assert (Hh2 : get_height id (<[id := c2]> s) = height c2)
      by (unfold get_height; now rewrite lookup_total_insert_eq).
    rewrite Hw2, Hh2.
    rewrite (applyFilter_store _ id c2 filter (lookup_insert_eq _ _ _) Hd2).
    now rewrite insert_insert_eq.
  - set (c2 := mkCanvas (width c) (height c) d1 []).
    assert (Eput : ctx_putImageData id
                     (mkImageData (width c) (height c) d1) 0 0
                     (<[id := c1]> s)
                   = <[id := c2]> s).
    { rewrite (putImageData_full _ id c1 _ _ _ (lookup_insert_eq _ _ _)
                 eq_refl eq_refl Hd1).
      now rewrite insert_insert_eq. }
    rewrite !Eput.
    destruct (negb _); [|reflexivity].
    assert (Hw2 : get_width id (<[id := c2]> s) = width c2)
      by (unfold get_width; now rewrite lookup_total_insert_eq).
    assert (Hh2 : get_height id (<[id := c2]> s) = height c2)
      by (unfold get_height; now rewrite lookup_total_insert_eq).
    rewrite Hw2, Hh2.
    rewrite (applyFilter_store _ id c2 filter (lookup_insert_eq _ _ _) Hd1).
    now rewrite insert_insert_eq.
Qed.

(** Every canvas operation writes to the one canvas it is called on. *)
Ltac frame :=
  unfold applyFilter, ctx_putImageData, ctx_drawImage, ctx_translate,
    ctx_scale, ctx_rotate, set_height, set_width;
  rewrite ?lookup_alter_ne, ?lookup_insert_ne by auto; auto.

Lemma applyAdjustments_frame s src adj filter j :
  j <> fresh (dom s) ->
  fst (applyAdjustments src adj filter s) = fresh (dom s) /\
  snd (applyAdjustments src adj filter s) !! j = s !! j.
Proof.
  intros Hj. unfold applyAdjustments, createElement, getContext.
  cbv beta iota zeta. split; [reflexivity|]. cbn [snd].
  destruct (negb _); frame.
Qed.

Lemma rotate_frame s src degrees j :
  j <> fresh (dom s) ->
  fst (rotate src degrees s) = fresh (dom s) /\
  snd (rotate src degrees s) !! j = s !! j.
Proof.
  intros Hj. unfold rotate, createElement, getContext.
  cbv beta iota zeta. split; [reflexivity|]. cbn [snd]. frame.
Qed.

Lemma flip_frame s src direction j :
  j <> fresh (dom s) ->
  fst (flip src direction s) = fresh (dom s) /\
  snd (flip src direction s) !! j = s !! j.
Proof.
  intros Hj. unfold flip, createElement, getContext.
  cbv beta iota zeta. split; [reflexivity|]. cbn [snd].
  destruct (String.eqb _ _); frame.
Qed.

(** *** Numbers that fit a sample *)

Lemma store_of_byte x :
  ToUint8Clamp (Math_max 0 (Math_min 255 (of_byte x))) = x.
Proof. destruct x; vm_compute; reflexivity. Qed.

Lemma adjust_pixel_zero p :
  length p = 4 -> AdjustmentSpec.adjust_pixel zero_adjustments p = p.
Proof.
  intros Hp. destruct p as [|r [|g [|b [|a [|? ?]]]]]; simpl in Hp; try lia.
  change (AdjustmentSpec.adjust_pixel zero_adjustments [r; g; b; a])
    with [ToUint8Clamp (Math_max 0 (Math_min 255 (of_byte r)));
          ToUint8Clamp (Math_max 0 (Math_min 255 (of_byte g)));
          ToUint8Clamp (Math_max 0 (Math_min 255 (of_byte b))); a].
  now rewrite !store_of_byte.
Qed.

Lemma apply_zero d n :
  length d = 4 * n -> AdjustmentSpec.apply zero_adjustments d = d.
Proof.
  intros Hd. unfold AdjustmentSpec.apply.
  replace (length d / 4) with n
    by (rewrite Hd, Nat.mul_comm; symmetry; apply Nat.div_mul; lia).
  etransitivity; [|exact (flat_map_chunk d n Hd)].
  apply flat_map_ext_seq. intros i _.
  apply adjust_pixel_zero, length_chunk.
Qed.

Lemma alpha_adjust_pixel adj p :
  length p = 4 ->
  nth 3 (AdjustmentSpec.adjust_pixel adj p) x00 = nth 3 p x00.
Proof.
  intros Hp. destruct p as [|r [|g [|b [|a [|? ?]]]]]; simpl in Hp; try lia.
  unfold AdjustmentSpec.adjust_pixel.
  now destruct (AdjustmentSpec.chain adj _) as [[? ?] ?].
Qed.

(** *** The claims about [applyAdjustments] and [applyFilter] *)

(** C10.  [applyAdjustments] does not write to its source canvas.  The
    canvas it returns did not exist before the call and has the size of the
    source; the source, like every other canvas already in the store, is the
    same object with the same samples after the call.  When the source
    samples are opaque, the canvas returned holds what the adjustment loop,
    the sharpening step and the filter step make of a copy of them. *)
Theorem applyAdjustments_leaves_source s src c adj filter :
  s !! src = Some c -> wf c ->
  let out := fst (applyAdjustments src adj filter s) in
  let s' := snd (applyAdjustments src adj filter s) in
  s !! out = None /\
  out <> src /\
  s' !! src = Some c /\
  (forall j, j <> out -> s' !! j = s !! j) /\
  exists c',
    s' !! out = Some c' /\
    width c' = width c /\ height c' = height c /\
    (opaque (pixels c) = true ->
     pixels c' = after_adjust adj filter (width c) (height c)
                   (for_pixels (adjust_body adj) (pixels c))).
Proof.
  intros Hsrc Hc out s'.
  pose proof (fresh_ne s src c Hsrc) as Hne.
  assert (Hout : out = fresh (dom s))
    by (apply (applyAdjustments_frame s src adj filter src Hne)).
  split; [|split; [|split; [|split]]].
  - rewrite Hout. apply fresh_unused.
  - rewrite Hout. auto.
  - unfold s'. rewrite <- Hsrc.
    now apply applyAdjustments_frame.
  - intros j Hj. apply applyAdjustments_frame. now rewrite <- Hout.
  - unfold s', out. rewrite (applyAdjustments_store s src c adj filter Hsrc Hc).
    cbn [fst snd]. eexists. split; [apply lookup_insert_eq|].
    cbn [width height pixels]. auto.
Qed.

(** C3.  With every adjustment parameter at zero and the filter ['none'],
    the canvas returned by [applyAdjustments] has the width, the height and,
    sample for sample, the contents of the source.  (Overlays are drawn by the
    caller, after this function, and play no part here.) *)
Theorem render_identity s src c :
  s !! src = Some c -> wf c ->
  let out := fst (applyAdjustments src zero_adjustments "none" s) in
  let s' := snd (applyAdjustments src zero_adjustments "none" s) in
  exists c', s' !! out = Some c' /\
             width c' = width c /\ height c' = height c /\
             pixels c' = pixels c.
Proof.
  intros Hsrc Hc out s'. unfold out, s'.
  rewrite (applyAdjustments_store s src c _ _ Hsrc Hc). cbn [fst snd].
  eexists. split; [apply lookup_insert_eq|]. cbn [width height pixels].
  repeat split.
  change (after_adjust zero_adjustments "none" (width c) (height c) ?d)
    with d.
  rewrite (for_pixels_adjust _ _ _ Hc).
  exact (apply_zero _ _ Hc).
Qed.

(** C1.  On every pixel buffer the adjustment loop of [applyAdjustments]
    computes what the specification describes: for each pixel, the R, G and
    B samples are taken as floating-point values through exposure,
    brightness, contrast, temperature, highlights, shadows and saturation in
    this order, each step being skipped when its parameter is zero, and only
    then is each channel clamped to [0, 255] and stored; the alpha sample of
    every pixel is left as it was.  When the source samples are opaque, the
    canvas returned holds this result, passed through the sharpening and
    filter steps.  That the clamp is not
    applied between steps shows on a gray pixel of value 200 with exposure
    +100 and brightness -100: the code stores 145, where clamping after the
    exposure step would give 0. *)
Theorem adjustment_chain_refines_spec s src c adj filter :
  s !! src = Some c -> wf c ->
  let d := pixels c in
  let out := fst (applyAdjustments src adj filter s) in
  let s' := snd (applyAdjustments src adj filter s) in
  for_pixels (adjust_body adj) d = AdjustmentSpec.apply adj d /\
  (forall k, k < width c * height c ->
     chunk (for_pixels (adjust_body adj) d) k
     = AdjustmentSpec.adjust_pixel adj (chunk d k) /\
     nth (4 * k + 3) (for_pixels (adjust_body adj) d) x00
     = nth (4 * k + 3) d x00) /\
  (exists c', s' !! out = Some c' /\
     (opaque d = true ->
      pixels c' = after_adjust adj filter (width c) (height c)
                    (AdjustmentSpec.apply adj d))) /\
  (let a := mkAdjustments 100 (-100) 0 0 0 0 0 0 in
   let gray := [byte_of_Z 200; byte_of_Z 200; byte_of_Z 200; xff] in
   for_pixels (adjust_body a) gray
   = [byte_of_Z 145; byte_of_Z 145; byte_of_Z 145; xff] /\
   AdjustmentSpec.adjust_pixel_clamping_each_step a gray
   = [x00; x00; x00; xff]).
Proof.
  intros Hsrc Hc d out s'.
  assert (E : for_pixels (adjust_body adj) d = AdjustmentSpec.apply adj d)
    by exact (for_pixels_adjust adj d _ Hc).
  split; [exact E|]. split; [|split].
  - intros k Hk.
    assert (Hch : chunk (for_pixels (adjust_body adj) d) k
                  = AdjustmentSpec.adjust_pixel adj (chunk d k)).
    { apply (chunk_for_pixels _ _ d (width c * height c));
        auto using pixelwise_adjust, length_adjust_pixel. }
    split; [exact Hch|].
    change (nth (4 * k + 3) (for_pixels (adjust_body adj) d) x00)
      with (nth 3 (chunk (for_pixels (adjust_body adj) d) k) x00).
    rewrite Hch, alpha_adjust_pixel by apply length_chunk. reflexivity.
  - unfold out, s'.
    rewrite (applyAdjustments_store s src c _ _ Hsrc Hc). cbn [fst snd].
    eexists. split; [apply lookup_insert_eq|]. cbn [pixels].
    intros _. fold d. now rewrite E.
  - split; vm_compute; reflexivity.
Qed.

(** C7.  The sepia filter turns every pixel of value (255, 0, 0, 255) into
    the sepia-matrix image of pure red: R, G and B are 255 x 0.393,
    255 x 0.349 and 255 x 0.272, clamped to [0, 255] and stored as 8-bit
    samples, that is 100, 89 and 69; alpha stays 255. *)
Theorem sepia_pure_red s ctx c k :
  s !! ctx = Some c -> wf c -> k < width c * height c ->
  chunk (pixels c) k = [xff; x00; x00; xff] ->
  let s' := applyFilter ctx (width c) (height c) "sepia" s in
  exists c', s' !! ctx = Some c' /\
    chunk (pixels c') k
    = [ToUint8Clamp (AdjustmentSpec.clamp (255 * 0.393)%float);
       ToUint8Clamp (AdjustmentSpec.clamp (255 * 0.349)%float);
       ToUint8Clamp (AdjustmentSpec.clamp (255 * 0.272)%float);
       xff] /\
    chunk (pixels c') k = [byte_of_Z 100; byte_of_Z 89; byte_of_Z 69; xff].
Proof.
  intros Hctx Hc Hk Hred s'. unfold s'.
  rewrite (applyFilter_store s ctx c "sepia" Hctx Hc).
  eexists. split; [apply lookup_insert_eq|]. cbn [pixels].
  change (filter_data "sepia" (pixels c))
    with (for_pixels sepia_body (pixels c)).
  rewrite (chunk_for_pixels sepia_body (sepia_body 0) (pixels c)
             (width c * height c) k pixelwise_sepia length_sepia_pixel Hc Hk).
  rewrite Hred. split; vm_compute; reflexivity.
Qed.

End StoreLevel.

Lemma applyAdjustments_leaves_source_witness :
  snd (applyAdjustments (ua:=sample_agent) 1 (mkAdjustments 5 10 15 0 0 0 20 30)
         "sepia" example_store) !! 1%nat
  = Some quad_canvas /\
  exists c',
    snd (applyAdjustments (ua:=sample_agent) 0
           (mkAdjustments 5 10 15 0 0 0 20 30) "sepia" example_store)
    !! fst (applyAdjustments (ua:=sample_agent) 0
              (mkAdjustments 5 10 15 0 0 0 20 30) "sepia" example_store)
    = Some c' /\
    pixels c' = map byte_of_Z [100; 89; 69; 255]%Z.
Proof.
  split.
  - destruct (applyAdjustments_leaves_source (ua:=sample_agent) example_store
                1 quad_canvas (mkAdjustments 5 10 15 0 0 0 20 30) "sepia")
      as (_ & _ & Hsame & _); [reflexivity | reflexivity | exact Hsame].
  - destruct (applyAdjustments_leaves_source (ua:=sample_agent) example_store
                0 red_canvas (mkAdjustments 5 10 15 0 0 0 20 30) "sepia")
      as (_ & _ & _ & _ & c' & Hc' & _ & _ & Hpx);
      [reflexivity | reflexivity |].
    exists c'. split; [exact Hc'|].
    rewrite (Hpx eq_refl). vm_compute. reflexivity.
Defined.

Lemma render_identity_witness :
  exists c',
    snd (applyAdjustments (ua:=sample_agent) 1 zero_adjustments "none"
           example_store)
    !! fst (applyAdjustments (ua:=sample_agent) 1 zero_adjustments "none"
              example_store)
    = Some c' /\
    width c' = 2 /\ height c' = 2 /\ pixels c' = pixels quad_canvas.
Proof.
  apply (render_identity (ua:=sample_agent) example_store 1 quad_canvas);
    reflexivity.
Defined.

Lemma adjustment_chain_refines_spec_witness :
  for_pixels (adjust_body (mkAdjustments 5 10 15 (-20) 30 (-10) 20 0))
    (pixels quad_canvas)
  = AdjustmentSpec.apply (mkAdjustments 5 10 15 (-20) 30 (-10) 20 0)
      (pixels quad_canvas) /\
  exists c',
    snd (applyAdjustments (ua:=sample_agent) 0
           (mkAdjustments 5 10 15 (-20) 30 (-10) 20 0) "none" example_store)
    !! fst (applyAdjustments (ua:=sample_agent) 0
              (mkAdjustments 5 10 15 (-20) 30 (-10) 20 0) "none"
              example_store)
    = Some c' /\
    pixels c'
    = AdjustmentSpec.apply (mkAdjustments 5 10 15 (-20) 30 (-10) 20 0)
        (pixels red_canvas).
Proof.
  split.
  - destruct (adjustment_chain_refines_spec (ua:=sample_agent) example_store
                1 quad_canvas (mkAdjustments 5 10 15 (-20) 30 (-10) 20 0)
                "none")
      as (Hloop & _); [reflexivity | reflexivity | exact Hloop].
  - destruct (adjustment_chain_refines_spec (ua:=sample_agent) example_store
                0 red_canvas (mkAdjustments 5 10 15 (-20) 30 (-10) 20 0)
                "none")
      as (_ & _ & (c' & Hc' & Hpx) & _); [reflexivity | reflexivity |].
    exists c'. split; [exact Hc'|]. exact (Hpx eq_refl).
Defined.

Lemma sepia_pure_red_witness :
  exists c',
    applyFilter 1 2 2 "sepia" example_store !! 1%nat
    = Some c' /\
    chunk (pixels c') 0
    = [ToUint8Clamp (AdjustmentSpec.clamp (255 * 0.393)%float);
       ToUint8Clamp (AdjustmentSpec.clamp (255 * 0.349)%float);
       ToUint8Clamp (AdjustmentSpec.clamp (255 * 0.272)%float);
       xff] /\
    chunk (pixels c') 0 = [byte_of_Z 100; byte_of_Z 89; byte_of_Z 69; xff].
Proof.
  apply (sepia_pure_red example_store 1 quad_canvas 0);
    [reflexivity | reflexivity | simpl; lia | reflexivity].
Defined.

(** *** Sharpening *)

Lemma convolve_unsharp amount d w y x c :
  convolve d (kernel amount) w y x c = SharpenSpec.unsharp amount d w x y c.
Proof. reflexivity. Qed.

Lemma fold_left_flat_map {A B C} (f : A -> C -> A) (g : B -> list C)
    (l : list B) (a : A) :
  fold_left f (flat_map g l) a
  = fold_left (fun a x => fold_left f (g x) a) l a.
Proof.
  revert a. induction l as [|x l IH]; intros a; simpl; [reflexivity|].
  now rewrite fold_left_app, IH.
Qed.

Lemma fold_left_map {A B C} (f : A -> C -> A) (g : B -> C)
    (l : list B) (a : A) :
  fold_left f (map g l) a = fold_left (fun a x => f a (g x)) l a.
Proof.
  revert a. induction l as [|x l IH]; intros a; simpl; [reflexivity|].
  apply IH.
Qed.

Lemma fold_left_ext {A B} (f g : A -> B -> A) (l : list B) (a : A) :
  (forall a x, f a x = g a x) -> fold_left f l a = fold_left g l a.
Proof.
  intros Hfg. revert a. induction l as [|x l IH]; intros a; simpl;
    [reflexivity|]. now rewrite Hfg, IH.
Qed.

(** [applySharpness] is the sequence of its stores. *)
Lemma applySharpness_writes img amount :
  data (applySharpness img amount)
  = fold_left SharpenSpec.store_at
      (SharpenSpec.writes amount (data img) (iwidth img) (iheight img))
      (data img).
Proof.
  unfold applySharpness, SharpenSpec.writes. cbn [data].
  rewrite fold_left_flat_map. unfold sharpen_row.
  apply fold_left_ext. intros d y.
  rewrite fold_left_flat_map. unfold sharpen_pixel.
  apply fold_left_ext. intros d' x.
  rewrite fold_left_map. reflexivity.
Qed.

(** An index no store goes to keeps its sample. *)
Lemma stores_elsewhere ws : forall d j,
  (forall p, p ∈ ws -> fst p <> j) ->
  fold_left SharpenSpec.store_at ws d !! j = d !! j.
Proof.
  induction ws as [|p ws IH]; intros d j Hj; simpl; [reflexivity|].
  rewrite IH by (intros q Hq; apply Hj; now right).
  unfold SharpenSpec.store_at. apply list_lookup_insert_ne. apply Hj. now left.
Qed.

(** An index that is stored to, always with the same value, ends with that
    value. *)
Lemma stores_here ws : forall d j v,
  (forall p, p ∈ ws -> fst p = j -> snd p = v) ->
  (exists p, p ∈ ws /\ fst p = j) ->
  j < length d ->
  fold_left SharpenSpec.store_at ws d !! j = Some v.
Proof.
  induction ws as [|p ws IH]; intros d j v Hv [q [Hq Hqj]] Hlen.
  - inversion Hq.
  - simpl. destruct (decide (j ∈ ws.*1)) as [Hin|Hout].
    + apply IH.
      * intros p' Hp'. apply Hv. now right.
      * apply list_elem_of_fmap in Hin as [p' [-> Hp']]. eauto.
      * unfold SharpenSpec.store_at. now rewrite length_insert.
    + rewrite stores_elsewhere.
      * apply elem_of_cons in Hq as [->|Hq].
        -- unfold SharpenSpec.store_at. rewrite Hqj.
           rewrite (Hv p (proj2 (elem_of_cons ws p p) (or_introl eq_refl)) Hqj).
           now apply list_lookup_insert_eq.
        -- exfalso. apply Hout. apply list_elem_of_fmap. eauto.
      * intros p' Hp' Heq. apply Hout. apply list_elem_of_fmap. eauto.
Qed.

(** Which stores [applySharpness] makes. *)
Lemma elem_of_writes amount d w h p :
  p ∈ SharpenSpec.writes amount d w h <->
  exists y x c,
    1 <= y /\ y + 1 < h /\ 1 <= x /\ x + 1 < w /\ c < 3 /\
    p = ((y * w + x) * 4 + c,
         ToUint8Clamp (Math_max 0 (Math_min 255
                         (SharpenSpec.unsharp amount d w x y c)))).
Proof.
  unfold SharpenSpec.writes. rewrite list_elem_of_In, in_flat_map. split.
  - intros (y & Hy & Hp). apply in_flat_map in Hp as (x & Hx & Hp).
    apply in_map_iff in Hp as (c & <- & Hc).
    apply in_seq in Hy. apply in_seq in Hx.
    exists y, x, c. repeat split; try lia.
    simpl in Hc. lia.
  - intros (y & x & c & Hy1 & Hy2 & Hx1 & Hx2 & Hc & ->).
    exists y. split; [apply in_seq; lia|].
    apply in_flat_map. exists x. split; [apply in_seq; lia|].
    apply in_map_iff. exists c. split; [reflexivity|].
    simpl. lia.
Qed.

(** A sample index determines its pixel and channel. *)
Lemma sample_index_inj w y x c y' x' c' :
  x < w -> x' < w -> c < 4 -> c' < 4 ->
  (y * w + x) * 4 + c = (y' * w + x') * 4 + c' ->
  y = y' /\ x = x' /\ c = c'.
Proof.
  intros Hx Hx' Hc Hc' E.
  assert (Ea : y * w + x = y' * w + x' /\ c = c') by lia.
  destruct Ea as [Ea <-].
  assert (Hy : y = y').
  { destruct (lt_eq_lt_dec y y') as [[Hlt|Heq]|Hgt]; [|exact Heq|].
    - assert ((y + 1) * w <= y' * w) by (apply Nat.mul_le_mono_r; lia). lia.
    - assert ((y' + 1) * w <= y * w) by (apply Nat.mul_le_mono_r; lia). lia. }
  subst y'. repeat split; lia.
Qed.

Lemma pixel_index_bound w h x y : x < w -> y < h -> y * w + x < w * h.
Proof.
  intros Hx Hy.
  assert ((y + 1) * w <= h * w) by (apply Nat.mul_le_mono_r; lia). lia.
Qed.

(** Pixels of the interior take the clamped weighted sum of the samples
    around them, as these were before the call. *)
Lemma sharpen_interior img amount x y c :
  length (data img) = 4 * (iwidth img * iheight img) ->
  1 <= x -> x + 1 < iwidth img -> 1 <= y -> y + 1 < iheight img -> c < 3 ->
  data (applySharpness img amount) !! ((y * iwidth img + x) * 4 + c)
  = Some (ToUint8Clamp (Math_max 0 (Math_min 255
            (SharpenSpec.unsharp amount (data img) (iwidth img) x y c)))).
Proof.
  intros Hd Hx1 Hx2 Hy1 Hy2 Hc. rewrite applySharpness_writes.
  apply stores_here.
  - intros p Hp Hj.
    apply elem_of_writes in Hp
      as (y' & x' & c' & Hy1' & Hy2' & Hx1' & Hx2' & Hc' & ->).
    cbn [fst snd] in *.
    destruct (sample_index_inj (iwidth img) y' x' c' y x c) as (-> & -> & ->);
      auto; lia.
  - eexists (_, _). split; [|reflexivity].
    apply elem_of_writes. exists y, x, c. repeat split; auto.
  - pose proof (pixel_index_bound (iwidth img) (iheight img) x y). lia.
Qed.

(** Samples of the border and alpha samples receive no store. *)
Lemma sharpen_elsewhere img amount x y k :
  x < iwidth img -> y < iheight img -> k < 4 ->
  x = 0 \/ y = 0 \/ x + 1 = iwidth img \/ y + 1 = iheight img \/ k = 3 ->
  data (applySharpness img amount) !! ((y * iwidth img + x) * 4 + k)
  = data img !! ((y * iwidth img + x) * 4 + k).
Proof.
  intros Hx Hy Hk Hb. rewrite applySharpness_writes.
  apply stores_elsewhere. intros p Hp Hj.
  apply elem_of_writes in Hp
    as (y' & x' & c' & Hy1' & Hy2' & Hx1' & Hx2' & Hc' & ->).
  cbn [fst] in Hj.
  destruct (sample_index_inj (iwidth img) y' x' c' y x k) as (-> & -> & ->);
    auto; lia.
Qed.

(** With amount 0 the kernel is 1 at the centre and a zero elsewhere. *)
Lemma weights_zero :
  SharpenSpec.weights 0
  = [0; neg_zero; 0; neg_zero; 1; neg_zero; 0; neg_zero; 0]%float.
Proof. vm_compute. reflexivity. Qed.

Lemma weights_neg_zero :
  SharpenSpec.weights neg_zero = [0; 0; 0; 0; 1; 0; 0; 0; 0]%float.
Proof. vm_compute. reflexivity. Qed.

Lemma of_byte_mul_zero b : (of_byte b * 0 = 0)%float.
Proof. destruct b; vm_compute; reflexivity. Qed.

Lemma of_byte_mul_neg_zero b : (of_byte b * neg_zero = neg_zero)%float.
Proof. destruct b; vm_compute; reflexivity. Qed.

Lemma centre_only (b1 b2 b3 b4 b5 b6 b7 b8 b9 : byte) (ws : list float) :
  ws = [0; neg_zero; 0; neg_zero; 1; neg_zero; 0; neg_zero; 0]%float \/
  ws = [0; 0; 0; 0; 1; 0; 0; 0; 0]%float ->
  ToUint8Clamp (Math_max 0 (Math_min 255
    (SharpenSpec.weighted_sum
       [of_byte b1; of_byte b2; of_byte b3; of_byte b4; of_byte b5;
        of_byte b6; of_byte b7; of_byte b8; of_byte b9] ws)))
  = b5.
Proof.
  intros [-> | ->]; unfold SharpenSpec.weighted_sum;
    cbn [combine fold_left fst snd];
    rewrite ?of_byte_mul_zero, ?of_byte_mul_neg_zero;
    destruct b5; vm_compute; reflexivity.
Qed.

(** In a well-formed image the neighbours of an interior pixel exist. *)
Lemma sample_in_range d w h x y c (kx ky : Z) :
  length d = 4 * (w * h) ->
  1 <= x -> x + 1 < w -> 1 <= y -> y + 1 < h -> c < 3 ->
  (-1 <= kx <= 1)%Z -> (-1 <= ky <= 1)%Z ->
  exists b,
    d !! ((Z.to_nat (Z.of_nat y + ky) * w + Z.to_nat (Z.of_nat x + kx)) * 4 + c)
    = Some b /\
    SharpenSpec.sample d w (Z.of_nat x + kx) (Z.of_nat y + ky) c = of_byte b.
Proof.
  intros Hd Hx1 Hx2 Hy1 Hy2 Hc Hkx Hky.
  set (x' := Z.to_nat (Z.of_nat x + kx)).
  set (y' := Z.to_nat (Z.of_nat y + ky)).
  assert (Hx' : x' < w) by (unfold x'; lia).
  assert (Hy' : y' < h) by (unfold y'; lia).
  pose proof (pixel_index_bound w h x' y' Hx' Hy') as Hb.
  destruct (lookup_lt_is_Some_2 d ((y' * w + x') * 4 + c)) as [b Eb]; [lia|].
  exists b. split; [exact Eb|].
  unfold SharpenSpec.sample, rdZ, rd.
  replace (Z.of_nat x + kx)%Z with (Z.of_nat x') by (unfold x'; lia).
  replace (Z.of_nat y + ky)%Z with (Z.of_nat y') by (unfold y'; lia).
  replace (Z.of_nat y' * Z.of_nat w + Z.of_nat x')%Z
    with (Z.of_nat (y' * w + x')) by lia.
  destruct (Z.ltb_spec (Z.of_nat (y' * w + x') * 4 + Z.of_nat c) 0); [lia|].
  replace (Z.to_nat (Z.of_nat (y' * w + x') * 4 + Z.of_nat c))
    with ((y' * w + x') * 4 + c) by lia.
  now rewrite Eb.
Qed.

Lemma unsharp_zero amount d w h x y c :
  amount = 0%float \/ amount = neg_zero ->
  length d = 4 * (w * h) ->
  1 <= x -> x + 1 < w -> 1 <= y -> y + 1 < h -> c < 3 ->
  d !! ((y * w + x) * 4 + c)
  = Some (ToUint8Clamp (Math_max 0 (Math_min 255
            (SharpenSpec.unsharp amount d w x y c)))).
Proof.
  intros Ha Hd Hx1 Hx2 Hy1 Hy2 Hc.
  unfold SharpenSpec.unsharp, SharpenSpec.offsets. cbn [map fst snd].
  pose proof (fun kx ky => sample_in_range d w h x y c kx ky
                             Hd Hx1 Hx2 Hy1 Hy2 Hc) as S.
  destruct (S (-1) (-1))%Z as (b1 & _ & ->); try lia.
  destruct (S 0 (-1))%Z as (b2 & _ & ->); try lia.
  destruct (S 1 (-1))%Z as (b3 & _ & ->); try lia.
  destruct (S (-1) 0)%Z as (b4 & _ & ->); try lia.
  destruct (S 0 0)%Z as (b5 & E5 & ->); try lia.
  destruct (S 1 0)%Z as (b6 & _ & ->); try lia.
  destruct (S (-1) 1)%Z as (b7 & _ & ->); try lia.
  destruct (S 0 1)%Z as (b8 & _ & ->); try lia.
  destruct (S 1 1)%Z as (b9 & _ & ->); try lia.
  rewrite centre_only.
  - rewrite <- E5. f_equal. lia.
  - destruct Ha as [-> | ->]; [left; apply weights_zero
                              | right; apply weights_neg_zero].
Qed.

(** Sharpening by zero stores into every interior sample the value it
    already has. *)
Lemma applySharpness_zero img amount :
  amount = 0%float \/ amount = neg_zero ->
  length (data img) = 4 * (iwidth img * iheight img) ->
  applySharpness img amount = img.
Proof.
  intros Ha Hd.
  assert (E : data (applySharpness img amount) = data img).
  { apply list_eq. intros j.
    destruct (decide (j ∈ (SharpenSpec.writes amount (data img)
                             (iwidth img) (iheight img)).*1)) as [Hin|Hout].
    - apply list_elem_of_fmap in Hin as (p & -> & Hp).
      apply elem_of_writes in Hp
        as (y & x & c & Hy1 & Hy2 & Hx1 & Hx2 & Hc & ->).
      cbn [fst].
      rewrite (sharpen_interior img amount x y c) by auto.
      symmetry. now apply (unsharp_zero amount _ _ (iheight img)).
    - rewrite applySharpness_writes.
      apply stores_elsewhere. intros p Hp Hj. apply Hout.
      apply list_elem_of_fmap. eauto. }
  destruct img as [w h d]. unfold applySharpness in *.
  cbn [data iwidth iheight] in *. now rewrite E.
Qed.

(** C4.  The kernel of [applySharpness] has the weight [1 + 4 x amount]
    at the centre, [- amount] at the four orthogonal neighbours and 0 at the
    four diagonal ones.  In a well-formed image every R, G, B sample of an
    interior pixel becomes the clamped sum of the nine samples around it, as
    they were before the call, each times its weight.  For every image and
    every amount the samples of the pixels in the one-pixel border and all
    alpha samples are what they were, and so are the dimensions.  With amount
    0 a well-formed image comes out unchanged. *)
Theorem sharpen_unsharp_mask img amount :
  let w := iwidth img in
  let h := iheight img in
  let d := data img in
  let out := applySharpness img amount in
  (forall kx ky, (-1 <= kx <= 1)%Z -> (-1 <= ky <= 1)%Z ->
     kernel_at (kernel amount) ((ky + 1) * 3 + (kx + 1))%Z
     = SharpenSpec.weight amount kx ky) /\
  iwidth out = w /\ iheight out = h /\ length (data out) = length d /\
  (length d = 4 * (w * h) ->
   forall x y c,
     1 <= x -> x + 1 < w -> 1 <= y -> y + 1 < h -> c < 3 ->
     data out !! ((y * w + x) * 4 + c)
     = Some (ToUint8Clamp (Math_max 0 (Math_min 255
               (SharpenSpec.unsharp amount d w x y c))))) /\
  (forall x y k,
     x < w -> y < h -> k < 4 ->
     x = 0 \/ y = 0 \/ x + 1 = w \/ y + 1 = h \/ k = 3 ->
     data out !! ((y * w + x) * 4 + k) = d !! ((y * w + x) * 4 + k)) /\
  (length d = 4 * (w * h) -> applySharpness img 0 = img).
Proof.
  intros w h d out. repeat split.
  - intros kx ky Hkx Hky.
    assert (Hx : kx = (-1)%Z \/ kx = 0%Z \/ kx = 1%Z) by lia.
    assert (Hy : ky = (-1)%Z \/ ky = 0%Z \/ ky = 1%Z) by lia.
    destruct Hx as [-> | [-> | ->]], Hy as [-> | [-> | ->]]; reflexivity.
  - apply length_applySharpness.
  - intros Hd x y c Hx1 Hx2 Hy1 Hy2 Hc. now apply sharpen_interior.
  - intros x y k Hx Hy Hk Hb. now apply sharpen_elsewhere.
  - intros Hd. apply applySharpness_zero; auto.
Qed.

Lemma sharpen_unsharp_mask_witness :
  data (applySharpness example_image 0.5) !! ((1 * 3 + 1) * 4 + 0)
  = Some (ToUint8Clamp (Math_max 0 (Math_min 255
            (SharpenSpec.unsharp 0.5 (data example_image) 3 1 1 0)))) /\
  applySharpness example_image 0 = example_image.
Proof.
  destruct (sharpen_unsharp_mask example_image 0.5)
    as (_ & _ & _ & _ & Hin & _ & Hzero).
  split.
  - apply Hin; [reflexivity | simpl; lia ..].
  - apply Hzero. reflexivity.
Defined.

(** *** Flipping *)

Lemma mirror_horizontal_involutive w h d :
  length d = 4 * (w * h) ->
  GeometrySpec.mirror_horizontal w h (GeometrySpec.mirror_horizontal w h d) = d.
Proof.
  intros Hd. unfold GeometrySpec.mirror_horizontal.
  etransitivity; [|exact (raster_pixel_at w h d Hd)].
  apply raster_ext. intros x y Hx Hy.
  replace (Z.of_nat w - 1 - Z.of_nat x)%Z with (Z.of_nat (w - 1 - x)) by lia.
  rewrite pixel_at_raster by (auto using length_pixel_at; lia).
  f_equal. lia.
Qed.

Lemma mirror_vertical_involutive w h d :
  length d = 4 * (w * h) ->
  GeometrySpec.mirror_vertical w h (GeometrySpec.mirror_vertical w h d) = d.
Proof.
  intros Hd. unfold GeometrySpec.mirror_vertical.
  etransitivity; [|exact (raster_pixel_at w h d Hd)].
  apply raster_ext. intros x y Hx Hy.
  replace (Z.of_nat h - 1 - Z.of_nat y)%Z with (Z.of_nat (h - 1 - y)) by lia.
  rewrite pixel_at_raster by (auto using length_pixel_at; lia).
  f_equal. lia.
Qed.

Section Flip.
Context `{ua : UserAgent}.
Implicit Types (s : gmap nat canvas) (c : canvas).

(** Drawing at the origin of a blank canvas whose transform maps pixels
    onto pixels: each destination pixel shows the source pixel that lands on
    it, if any. *)
Lemma draw_aligned c w h ops a d e f :
  aligned ops 1 1 0 0 = Some (a, d, e, f) ->
  draw c (Int 0) (Int 0) (mkCanvas w h (replicate (4 * (w * h)) x00) ops)
  = mkCanvas w h
      (raster w h (fun x y =>
         if inside (width c) (height c) (preimage a e 0 x) (preimage d f 0 y)
         then pixel_at (width c) (height c) (pixels c)
                (preimage a e 0 x) (preimage d f 0 y)
         else transparent))
      ops.
Proof.
  intros Ha. unfold draw. cbn [transform width height pixels]. rewrite Ha.
  f_equal. apply raster_ext. intros x y Hx Hy.
  rewrite (pixel_at_inside _ _ (replicate _ _)) by auto.
  rewrite chunk_replicate by nia.
  now destruct (inside _ _ _ _).
Qed.

Lemma aligned_flip_horizontal w :
  aligned [Translate (Int (Z.of_nat w)) (Int 0); Scale (Int (-1)) (Int 1)]
          1 1 0 0
  = Some ((-1)%Z, 1%Z, Z.of_nat w, 0%Z).
Proof.
  unfold aligned.
  change ((Z.abs (-1) =? 1)%Z && (Z.abs 1 =? 1)%Z) with true. cbv iota.
  rewrite !Z.mul_1_l, !Z.add_0_r. reflexivity.
Qed.

Lemma aligned_flip_vertical h :
  aligned [Translate (Int 0) (Int (Z.of_nat h)); Scale (Int 1) (Int (-1))]
          1 1 0 0
  = Some (1%Z, (-1)%Z, 0%Z, Z.of_nat h).
Proof.
  unfold aligned.
  change ((Z.abs 1 =? 1)%Z && (Z.abs (-1) =? 1)%Z) with true. cbv iota.
  rewrite !Z.mul_1_l, !Z.add_0_r. reflexivity.
Qed.

Lemma flip_store s src c direction :
  s !! src = Some c -> wf c ->
  flip src direction s
  = (fresh (dom s),
     <[fresh (dom s) :=
         mkCanvas (width c) (height c)
           (if String.eqb direction "horizontal"
            then GeometrySpec.mirror_horizontal (width c) (height c) (pixels c)
            else GeometrySpec.mirror_vertical (width c) (height c) (pixels c))
           (GeometrySpec.flip_ops direction (width c) (height c))]> s).
Proof.
  intros Hsrc Hc.
  pose proof (fresh_ne s src c Hsrc) as Hne.
  set (id := fresh (dom s)) in *.
  unfold flip, createElement, getContext, GeometrySpec.flip_ops. fold id.
  cbv beta iota zeta.
  rewrite (sized_like s src c id Hsrc Hne).
  assert (Hw : get_width id (<[id := blank (width c) (height c)]> s) = width c)
    by (unfold get_width; now rewrite lookup_total_insert_eq).
  assert (Hh : get_height id (<[id := blank (width c) (height c)]> s) = height c)
    by (unfold get_height; now rewrite lookup_total_insert_eq).
  rewrite Hw, Hh. f_equal.
  unfold ctx_drawImage, ctx_scale, ctx_translate.
  destruct (String.eqb direction "horizontal").
  - rewrite !alter_insert_eq.
    rewrite lookup_total_insert_ne by auto.
    rewrite (lookup_total_correct _ _ _ Hsrc). f_equal.
    unfold push_xform, blank. cbn [width height pixels transform app].
    rewrite (draw_aligned c _ _ _ (-1) 1 (Z.of_nat (width c)) 0)
      by apply aligned_flip_horizontal.
    f_equal. apply raster_ext. intros x y Hx Hy.
    unfold preimage. cbn [Z.eqb Pos.eqb]. rewrite !Z.sub_0_r.
    replace (Z.of_nat (width c) - 1 - Z.of_nat x)%Z
      with (Z.of_nat (width c - 1 - x)) by lia.
    rewrite inside_true by lia. reflexivity.
  - rewrite !alter_insert_eq.
    rewrite lookup_total_insert_ne by auto.
    rewrite (lookup_total_correct _ _ _ Hsrc). f_equal.
    unfold push_xform, blank. cbn [width height pixels transform app].
    rewrite (draw_aligned c _ _ _ 1 (-1) 0 (Z.of_nat (height c)))
      by apply aligned_flip_vertical.
    f_equal. apply raster_ext. intros x y Hx Hy.
    unfold preimage. cbn [Z.eqb Pos.eqb]. rewrite !Z.sub_0_r.
    replace (Z.of_nat (height c) - 1 - Z.of_nat y)%Z
      with (Z.of_nat (height c - 1 - y)) by lia.
    rewrite inside_true by lia. reflexivity.
Qed.

(** C9.  [flip] returns a new canvas of the size of the source in which
    every pixel is the mirror image of the source: for ['horizontal'] the
    pixel at column [x] is the source pixel at column [width - 1 - x], for
    any other direction (['vertical']) the pixel at row [y] is the source
    pixel at row [height - 1 - y].  Flipping the result again in the same
    direction gives a canvas with the size and, sample for sample, the
    contents of the original; the original itself is not written. *)
Theorem flip_involution s src c direction :
  s !! src = Some c -> wf c ->
  let once := flip src direction s in
  let twice := flip (fst once) direction (snd once) in
  let w := width c in
  let h := height c in
  exists c1 c2,
    snd once !! fst once = Some c1 /\
    snd twice !! fst twice = Some c2 /\
    width c1 = w /\ height c1 = h /\
    (forall x y, x < w -> y < h ->
       pixel_at w h (pixels c1) (Z.of_nat x) (Z.of_nat y)
       = if String.eqb direction "horizontal"
         then pixel_at w h (pixels c) (Z.of_nat w - 1 - Z.of_nat x) (Z.of_nat y)
         else pixel_at w h (pixels c) (Z.of_nat x)
                (Z.of_nat h - 1 - Z.of_nat y)) /\
    width c2 = w /\ height c2 = h /\ pixels c2 = pixels c /\
    snd twice !! src = Some c.
Proof.
  intros Hsrc Hc once twice w h. subst w h.
  pose proof (fresh_ne s src c Hsrc) as Hne.
  pose proof (flip_store s src c direction Hsrc Hc) as E1.
  set (id1 := fresh (dom s)) in *.
  set (w := width c) in *. set (h := height c) in *.
  set (c1 := mkCanvas w h
               (if String.eqb direction "horizontal"
                then GeometrySpec.mirror_horizontal w h (pixels c)
                else GeometrySpec.mirror_vertical w h (pixels c))
               (GeometrySpec.flip_ops direction w h)) in *.
  assert (Hc1 : wf c1).
  { unfold wf, c1. cbn [pixels width height].
    destruct (String.eqb _ _);
      apply length_raster; intros; apply length_pixel_at. }
  assert (H1 : (<[id1 := c1]> s) !! id1 = Some c1) by apply lookup_insert_eq.
  pose proof (flip_store _ id1 c1 direction H1 Hc1) as E2.
  unfold twice, once. rewrite E1. cbn [fst snd]. rewrite E2. cbn [fst snd].
  eexists c1, _. split; [exact H1|]. split; [apply lookup_insert_eq|].
  cbn [width height pixels]. repeat split.
  - intros x y Hx Hy. unfold c1. cbn [pixels].
    destruct (String.eqb _ _);
      unfold GeometrySpec.mirror_horizontal, GeometrySpec.mirror_vertical;
      now rewrite pixel_at_raster by (auto using length_pixel_at).
  - unfold c1. cbn [pixels width height].
    destruct (String.eqb _ _);
      [apply mirror_horizontal_involutive | apply mirror_vertical_involutive];
      exact Hc.
  - rewrite lookup_insert_ne.
    + rewrite lookup_insert_ne by auto. exact Hsrc.
    + intros Heq.
      assert (Hin : (<[id1 := c1]> s) !! src = Some c)
        by (rewrite lookup_insert_ne by auto; exact Hsrc).
      exact (fresh_ne _ _ _ Hin (eq_sym Heq)).
Qed.

End Flip.

(** *** Rotating *)

Section Rotate.
Context `{ua : UserAgent}.
Implicit Types (s : gmap nat canvas) (c : canvas).
Local Open Scope float_scope.

(** The two sums [rotate] computes before it creates the canvas. *)
Lemma rotate_store s src c degrees :
  s !! src = Some c ->
  let radians := degrees * Math_PI / 180 in
  let sin := Math_abs (Math_sin radians) in
  let cos := Math_abs (Math_cos radians) in
  let newWidth := of_nat (width c) * cos + of_nat (height c) * sin in
  let newHeight := of_nat (width c) * sin + of_nat (height c) * cos in
  exists px,
    rotate src degrees s
    = (fresh (dom s),
       <[fresh (dom s) :=
           mkCanvas (Z.to_nat (truncate newWidth))
                    (Z.to_nat (truncate newHeight)) px
                    [Translate (Dbl (newWidth / 2)) (Dbl (newHeight / 2));
                     Rotate radians]]> s).
Proof.
  intros Hsrc radians sin cos newWidth newHeight.
  unfold rotate, createElement, getContext.
  unfold get_width, get_height. rewrite (lookup_total_correct _ _ _ Hsrc).
  fold radians sin cos newWidth newHeight. cbv beta iota zeta.
  unfold ctx_drawImage, ctx_rotate, ctx_translate, set_height, set_width.
  rewrite !alter_insert_eq. eexists. reflexivity.
Qed.

(** C8 (as the code has it).  [rotate] returns a new canvas whose width
    and height are the integer parts of the sums W x |cos t| + H x |sin t| and
    W x |sin t| + H x |cos t| computed in double precision: the sums are
    assigned to [canvas.width] and [canvas.height], which hold integers and
    drop the fraction.  The source canvas, like every other canvas already in
    the store, is left as it was. *)
Theorem rotate_dimensions_truncated s src c degrees :
  s !! src = Some c ->
  let radians := degrees * Math_PI / 180 in
  let sin := Math_abs (Math_sin radians) in
  let cos := Math_abs (Math_cos radians) in
  let newWidth := of_nat (width c) * cos + of_nat (height c) * sin in
  let newHeight := of_nat (width c) * sin + of_nat (height c) * cos in
  let out := fst (rotate src degrees s) in
  let s' := snd (rotate src degrees s) in
  s !! out = None /\
  (exists c', s' !! out = Some c' /\
     Z.of_nat (width c') = Z.max 0 (truncate newWidth) /\
     Z.of_nat (height c') = Z.max 0 (truncate newHeight)) /\
  s' !! src = Some c /\
  (forall j, j <> out -> s' !! j = s !! j).
Proof.
  intros Hsrc radians sin cos newWidth newHeight out s'.
  pose proof (fresh_ne s src c Hsrc) as Hne.
  destruct (rotate_store s src c degrees Hsrc) as [px E].
  fold radians sin cos newWidth newHeight in E.
  assert (Hout : out = fresh (dom s)) by (unfold out; now rewrite E).
  repeat split.
  - rewrite Hout. apply fresh_unused.
  - unfold s', out. rewrite E. cbn [fst snd].
    eexists. split; [apply lookup_insert_eq|].
    cbn [width height]. split; lia.
  - unfold s'. rewrite <- Hsrc. now apply rotate_frame.
  - intros j Hj. apply rotate_frame. now rewrite <- Hout.
Qed.

End Rotate.

Lemma rotate_dimensions_truncated_witness :
  exists c',
    snd (rotate (ua:=sample_agent) 1 45 example_store)
      !! fst (rotate (ua:=sample_agent) 1 45 example_store) = Some c' /\
    Z.of_nat (width c') = 2%Z /\ Z.of_nat (height c') = 2%Z.
Proof.
  destruct (rotate_dimensions_truncated (ua:=sample_agent) example_store 1
              quad_canvas 45 eq_refl)
    as (_ & (c' & Hc' & Hw & Hh) & _).
  exists c'. split; [exact Hc'|]. split; [exact Hw | exact Hh].
Defined.

(** C8 as stated fails: a 2 x 2 canvas rotated by 45 degrees has the
    bounding box 2 x 0.7071067811865476 + 2 x 0.7071067811865475
    = 2.82842712474619 on each side, and the canvas returned is 2 wide and 2
    high. *)
Lemma rotate_dimensions_not_bounding_box :
  let radians := (45 * Math_PI / 180)%float in
  let sin := Math_abs (Math_sin (UserAgent:=sample_agent) radians) in
  let cos := Math_abs (Math_cos (UserAgent:=sample_agent) radians) in
  let out := fst (rotate (ua:=sample_agent) 1 45 example_store) in
  let s' := snd (rotate (ua:=sample_agent) 1 45 example_store) in
  exists c c',
    example_store !! 1%nat = Some c /\ s' !! out = Some c' /\
    (of_nat (width c) * cos + of_nat (height c) * sin
     = 2.8284271247461898)%float /\
    width c' = 2 /\ height c' = 2 /\
    PrimFloat.eqb (of_nat (width c'))
      (of_nat (width c) * cos + of_nat (height c) * sin) = false /\
    PrimFloat.eqb (of_nat (height c'))
      (of_nat (width c) * sin + of_nat (height c) * cos) = false.
Proof.
  cbv zeta. eexists quad_canvas, _.
  split; [reflexivity|]. split; [vm_compute; reflexivity|].
  cbn [width height]. repeat split; vm_compute; reflexivity.
Qed.

Lemma flip_involution_witness :
  exists c1 c2,
    snd (flip (ua:=sample_agent) 1 "horizontal" example_store)
      !! fst (flip (ua:=sample_agent) 1 "horizontal" example_store)
    = Some c1 /\
    snd (flip (ua:=sample_agent)
           (fst (flip (ua:=sample_agent) 1 "horizontal" example_store))
           "horizontal"
           (snd (flip (ua:=sample_agent) 1 "horizontal" example_store)))
      !! fst (flip (ua:=sample_agent)
                (fst (flip (ua:=sample_agent) 1 "horizontal" example_store))
                "horizontal"
                (snd (flip (ua:=sample_agent) 1 "horizontal" example_store)))
    = Some c2 /\
    pixels c1 = map byte_of_Z [10; 20; 30; 40;  255; 0; 0; 255;
                               200; 200; 200; 255;  50; 60; 70; 80]%Z /\
    pixels c2 = pixels quad_canvas.
Proof.
  destruct (flip_involution (ua:=sample_agent) example_store 1 quad_canvas
              "horizontal")
    as (c1 & c2 & H1 & H2 & _ & _ & _ & _ & _ & H3 & _);
    [reflexivity | reflexivity |].
  exists c1, c2. repeat split; auto.
  vm_compute in H1. now inversion H1.
Defined.

(** *** The model run on small inputs *)

(** A 2 x 2 gray image under contrast 50: 128 is the fixed point of the
    contrast formula. *)
Example contrast_on_mid_gray :
  for_pixels (adjust_body (mkAdjustments 0 0 50 0 0 0 0 0))
    (concat (replicate 4 (map byte_of_Z [128; 128; 128; 255]%Z)))
  = concat (replicate 4 (map byte_of_Z [128; 128; 128; 255]%Z)).
Proof. vm_compute. reflexivity. Qed.

Example contrast_on_quad :
  for_pixels (adjust_body (mkAdjustments 0 0 50 0 0 0 0 0)) (pixels quad_canvas)
  = map byte_of_Z [255; 0; 0; 255;  0; 0; 0; 40;
                   12; 27; 42; 80;  235; 235; 235; 255]%Z.
Proof. vm_compute. reflexivity. Qed.

Example sepia_on_quad :
  filter_data "sepia" (pixels quad_canvas)
  = map byte_of_Z [100; 89; 69; 255;  25; 22; 17; 40;
                   79; 70; 55; 80;  255; 241; 187; 255]%Z.
Proof. vm_compute. reflexivity. Qed.

Example unknown_filter_is_identity :
  filter_data "posterize" (pixels quad_canvas) = pixels quad_canvas.
Proof. vm_compute. reflexivity. Qed.

(** The centre of [example_image]: 3 x 100 - 0.5 x (5 + 13 + 21 + 41) = 260,
    clamped to 255; alpha and border as they were. *)
Example sharpen_example :
  data (applySharpness example_image 0.5)
  = map byte_of_Z [1; 2; 3; 4;  5; 6; 7; 8;  9; 10; 11; 12;
                   13; 14; 15; 16;  255; 255; 255; 130;  21; 22; 23; 24;
                   31; 32; 33; 34;  41; 42; 43; 44;  51; 52; 53; 54]%Z.
Proof. vm_compute. reflexivity. Qed.

Example flip_vertical_example :
  pixels (snd (flip (ua:=sample_agent) 1 "vertical" example_store)
            !!! fst (flip (ua:=sample_agent) 1 "vertical" example_store))
  = map byte_of_Z [50; 60; 70; 80;  200; 200; 200; 255;
                   255; 0; 0; 255;  10; 20; 30; 40]%Z.
Proof. vm_compute. reflexivity. Qed.

Example store_rounds_ties_to_even :
  map ToUint8Clamp [0.5; 1.5; 2.5; 254.5; 300; -3; nan]%float
  = map byte_of_Z [0; 2; 2; 254; 255; 0; 0]%Z.
Proof. vm_compute. reflexivity. Qed.

End ImageEditorFacts.

(* ===================================================================== *)
(** ** Further facts about HistoryManager *)
(* ===================================================================== *)

Module HistoryMore.
Import History HistoryFacts.
Section Facts.
Context {State : Type}.
Implicit Types (h : History.t State) (s e : State) (l : list State).

(** The cursor condition holds in every reachable state, whatever the
    bound is. *)
Lemma undo_cursor_ok h : cursor_ok h -> cursor_ok (snd (undo h)).
Proof.
  intros [[Hlo Hhi] Hne]. unfold undo, canUndo.
  destruct (Z.ltb_spec 0 (currentIndex h)); simpl; [|repeat split; auto].
  repeat split; simpl; lia.
Qed.

Lemma redo_cursor_ok h : cursor_ok h -> cursor_ok (snd (redo h)).
Proof.
  intros [[Hlo Hhi] Hne]. unfold redo, canRedo.
  destruct (Z.ltb_spec (currentIndex h) (Z.of_nat (length (states h)) - 1));
    simpl; [|repeat split; auto].
  repeat split; simpl; lia.
Qed.

Lemma push_cursor_ok s h : cursor_ok h -> cursor_ok (push s h).
Proof.
  intros Hc. pose proof (push_cursor_last s h Hc) as Hlast.
  repeat split.
  - rewrite Hlast. lia.
  - rewrite Hlast. lia.
  - intros Hne. rewrite Hlast.
    destruct (states (push s h)); [congruence | simpl; lia].
Qed.

Lemma step_cursor_ok h o : cursor_ok h -> cursor_ok (step h o).
Proof.
  intros Hc. destruct o; simpl.
  - now apply push_cursor_ok.
  - now apply undo_cursor_ok.
  - now apply redo_cursor_ok.
  - repeat split; simpl; try lia. congruence.
Qed.

Lemma run_cursor_ok ops : forall h, cursor_ok h -> cursor_ok (run ops h).
Proof.
  induction ops as [|o ops IH]; intros h Hc; simpl; [exact Hc|].
  apply IH. now apply step_cursor_ok.
Qed.

Lemma reachable_cursor_ok m ops :
  cursor_ok (run ops (new (State:=State) m)).
Proof.
  apply run_cursor_ok. repeat split; simpl; try lia. congruence.
Qed.

Lemma at_index_Some (l : list State) (i : Z) :
  0 <= i < Z.of_nat (length l) -> exists e, at_index l i = Some e.
Proof.
  intros Hi. unfold at_index.
  destruct (Z.ltb_spec i 0); [lia|].
  apply lookup_lt_is_Some_2. lia.
Qed.

(** X1.  In every state the manager can reach in which [undo] is
    available, [undo] followed by [redo] returns the entry that was current
    and puts the manager back into exactly the state it was in. *)
Theorem undo_then_redo (m : Z) (ops : list (op State)) :
  let h := run ops (new m) in
  canUndo h = true ->
  redo (snd (undo h)) = (getCurrent h, h).
Proof.
  intros h Hu.
  destruct (reachable_cursor_ok m ops) as [[Hlo Hhi] _]. fold h in Hlo, Hhi.
  unfold undo. rewrite Hu. cbn [negb snd].
  unfold canUndo in Hu. apply Z.ltb_lt in Hu.
  unfold redo, canRedo. cbn [currentIndex states maxSize].
  destruct (Z.ltb_spec (currentIndex h - 1) (Z.of_nat (length (states h)) - 1));
    [|lia].
  cbn [negb]. unfold getCurrent.
  destruct (Z.ltb_spec (currentIndex h) 0); [lia|].
  replace (currentIndex h - 1 + 1) with (currentIndex h) by lia.
  now destruct h.
Qed.

(** X2.  In every reachable state in which [redo] is available, [redo]
    followed by [undo] returns the entry that was current and puts the
    manager back into exactly the state it was in. *)
Theorem redo_then_undo (m : Z) (ops : list (op State)) :
  let h := run ops (new m) in
  canRedo h = true ->
  undo (snd (redo h)) = (getCurrent h, h).
Proof.
  intros h Hr.
  destruct (reachable_cursor_ok m ops) as [[Hlo Hhi] Hne].
  fold h in Hlo, Hhi, Hne.
  unfold redo. rewrite Hr. cbn [negb snd].
  unfold canRedo in Hr. apply Z.ltb_lt in Hr.
  assert (H0 : 0 <= currentIndex h).
  { apply Hne. destruct (states h); [simpl in Hr; lia | congruence]. }
  unfold undo, canUndo. cbn [currentIndex states maxSize].
  destruct (Z.ltb_spec 0 (currentIndex h + 1)); [|lia].
  cbn [negb]. unfold getCurrent.
  destruct (Z.ltb_spec (currentIndex h) 0); [lia|].
  replace (currentIndex h + 1 - 1) with (currentIndex h) by lia.
  now destruct h.
Qed.

(** X3.  In every reachable state, [undo] returns an entry exactly when
    [canUndo] says so, and [redo] exactly when [canRedo] says so (these are
    the flags [getInfo] reports); a call that is not available returns [null]
    and changes nothing. *)
Theorem undo_redo_availability (m : Z) (ops : list (op State)) :
  let h := run ops (new m) in
  (info_canUndo (getInfo h) = true -> exists e, fst (undo h) = Some e) /\
  (info_canUndo (getInfo h) = false -> undo h = (None, h)) /\
  (info_canRedo (getInfo h) = true -> exists e, fst (redo h) = Some e) /\
  (info_canRedo (getInfo h) = false -> redo h = (None, h)).
Proof.
  intros h.
  destruct (reachable_cursor_ok m ops) as [[Hlo Hhi] Hne].
  fold h in Hlo, Hhi, Hne. cbn [getInfo info_canUndo info_canRedo].
  repeat split.
  - intros Hu. unfold undo. rewrite Hu. cbn [negb fst states currentIndex].
    apply Z.ltb_lt in Hu. apply at_index_Some. lia.
  - intros Hu. unfold undo. now rewrite Hu.
  - intros Hr. unfold redo. rewrite Hr. cbn [negb fst states currentIndex].
    apply Z.ltb_lt in Hr. apply at_index_Some. lia.
  - intros Hr. unfold redo. now rewrite Hr.
Qed.

(** X4.  After a [push] in any reachable state nothing can be redone; if
    the bound is positive the entry pushed is the current one; and [undo] is
    available exactly when at least two entries are kept. *)
Theorem push_makes_current (m : Z) (ops : list (op State)) (e : State) :
  let h := push e (run ops (new m)) in
  canRedo h = false /\
  (1 <= m -> getCurrent h = Some e) /\
  (canUndo h = true <-> (2 <= length (states h))%nat).
Proof.
  intros h.
  pose proof (reachable_cursor_ok m ops) as Hc.
  set (h0 := run ops (new m)) in *.
  pose proof (push_cursor_last e h0 Hc) as Hlast. fold h in Hlast.
  assert (Hmax : maxSize h0 = m) by (unfold h0; now rewrite maxSize_run).
  destruct Hc as [[Hlo Hhi] _].
  repeat split.
  - unfold canRedo. apply Z.ltb_ge. lia.
  - intros Hm.
    pose proof (push_unfold e h0 Hlo) as [Hfit Hevict]. cbv zeta in *.
    set (grown := take (Z.to_nat (currentIndex h0 + 1)) (states h0) ++ [e]) in *.
    assert (Hlen : Z.of_nat (length grown) = currentIndex h0 + 2).
    { unfold grown. rewrite length_app, length_take. simpl. lia. }
    assert (Hl : last (states h) = Some e).
    { destruct (Z.le_gt_cases (Z.of_nat (length grown)) (maxSize h0))
        as [Hle|Hgt].
      - destruct (Hfit Hle) as [E _]. fold h in E. rewrite E.
        apply last_snoc.
      - destruct (Hevict ltac:(lia)) as [E _]. fold h in E. rewrite E.
        rewrite last_lookup, length_drop, lookup_drop.
        replace (1 + pred (length grown - 1))%nat with (pred (length grown))
          by lia.
        rewrite <- last_lookup. apply last_snoc. }
    assert (Hpos : (0 < length (states h))%nat).
    { destruct (states h); [discriminate | simpl; lia]. }
    unfold getCurrent, at_index. rewrite Hlast.
    destruct (Z.ltb_spec (Z.of_nat (length (states h)) - 1) 0); [lia|].
    replace (Z.to_nat (Z.of_nat (length (states h)) - 1))
      with (pred (length (states h))) by lia.
    now rewrite <- last_lookup.
  - unfold canUndo. intros Hu. apply Z.ltb_lt in Hu. lia.
  - unfold canUndo. intros Hu. apply Z.ltb_lt. lia.
Qed.

Lemma undo_n_S k h : undo_n (S k) h = snd (undo (undo_n k h)).
Proof. reflexivity. Qed.

Lemma undo_n_walk k : forall h,
  cursor_ok h -> (Z.of_nat k <= currentIndex h) ->
  states (undo_n k h) = states h /\
  currentIndex (undo_n k h) = currentIndex h - Z.of_nat k /\
  maxSize (undo_n k h) = maxSize h.
Proof.
  induction k as [|k IH]; intros h Hc Hk.
  - simpl. repeat split; lia.
  - rewrite undo_n_S.
    destruct (IH h Hc ltac:(lia)) as (Hs & Hi & Hm).
    unfold undo, canUndo. rewrite Hi.
    destruct (Z.ltb_spec 0 (currentIndex h - Z.of_nat k)); [|lia].
    cbn [negb snd states currentIndex maxSize].
    repeat split; auto; lia.
Qed.

Lemma undo_n_stuck j : forall h,
  currentIndex h <= 0 -> undo_n j h = h.
Proof.
  induction j as [|j IH]; intros h Hh; [reflexivity|].
  rewrite undo_n_S, IH by auto.
  unfold undo, canUndo. destruct (Z.ltb_spec 0 (currentIndex h)); [lia|].
  reflexivity.
Qed.

(** X5.  After pushing a list of entries onto a new history with a
    positive bound, walking back with [undo] visits the kept entries from the
    newest to the oldest kept one: after [k] undos the current entry is the
    one [k] places before the last pushed.  The walk stops at the oldest kept
    entry: more undos change nothing, so an evicted entry is never seen
    again. *)
Theorem undo_walks_back (m : Z) (l : list State) (k : nat) :
  1 <= m ->
  let h := push_all l (new m) in
  let kept := drop (length l - Z.to_nat m) l in
  states h = kept /\
  ((k < length kept)%nat ->
   getCurrent (undo_n k h) = kept !! (length kept - 1 - k)%nat) /\
  ((length kept - 1 <= k)%nat ->
   undo_n k h = undo_n (length kept - 1) h /\
   getCurrent (undo_n k h) = head kept).
Proof.
  intros Hm h kept.
  destruct (push_all_new m l ltac:(lia)) as (Hs & Hc & _).
  fold h in Hs, Hc. fold kept in Hs.
  assert (Hok : cursor_ok h).
  { repeat split; try lia. intros Hne. rewrite Hc.
    destruct (states h); [congruence | simpl; lia]. }
  assert (Hwalk : forall j, (j < length kept)%nat ->
            states (undo_n j h) = kept /\
            currentIndex (undo_n j h) = Z.of_nat (length kept - 1 - j)).
  { intros j Hj.
    destruct (undo_n_walk j h Hok) as (E1 & E2 & _);
      [rewrite Hc, Hs; lia|].
    rewrite E1, E2, Hc, Hs. split; [reflexivity | lia]. }
  assert (Hcur : forall j, (j < length kept)%nat ->
            getCurrent (undo_n j h) = kept !! (length kept - 1 - j)%nat).
  { intros j Hj. destruct (Hwalk j Hj) as [E1 E2].
    unfold getCurrent, at_index. rewrite E1, E2.
    destruct (Z.ltb_spec (Z.of_nat (length kept - 1 - j)) 0); [lia|].
    now rewrite Nat2Z.id. }
  split; [exact Hs|]. split; [exact (Hcur k)|].
  intros Hk.
  destruct (decide (length kept = 0%nat)) as [Hz|Hnz].
  - assert (Hh : currentIndex h <= 0) by (rewrite Hc, Hs; lia).
    rewrite !undo_n_stuck by exact Hh. split; [reflexivity|].
    unfold getCurrent. rewrite Hc, Hs.
    destruct kept; [reflexivity | simpl in Hz; lia].
  - assert (E : undo_n k h = undo_n (length kept - 1) h).
    { replace k with ((k - (length kept - 1)) + (length kept - 1))%nat by lia.
      unfold undo_n at 1. rewrite Nat.iter_add. fold (undo_n (length kept - 1) h).
      apply undo_n_stuck.
      destruct (Hwalk (length kept - 1)%nat ltac:(lia)) as [_ E2].
      rewrite E2. lia. }
    split; [exact E|]. rewrite E, Hcur by lia.
    replace (length kept - 1 - (length kept - 1))%nat with 0%nat by lia.
    now destruct kept.
Qed.

(** X6.  In every reachable state [getCurrent] returns [null] exactly
    when the history is empty, and otherwise the entry under the cursor;
    after [clear] it returns [null] and neither [undo] nor [redo] is
    available. *)
Theorem getCurrent_iff_nonempty (m : Z) (ops : list (op State)) :
  let h := run ops (new m) in
  (getCurrent h = None <-> states h = []) /\
  (states h <> [] ->
   getCurrent h = states h !! Z.to_nat (currentIndex h) /\
   exists e, getCurrent h = Some e) /\
  getCurrent (clear h) = None /\
  canUndo (clear h) = false /\ canRedo (clear h) = false.
Proof.
  intros h.
  destruct (reachable_cursor_ok m ops) as [[Hlo Hhi] Hne].
  fold h in Hlo, Hhi, Hne.
  assert (Hfull : states h <> [] ->
            getCurrent h = states h !! Z.to_nat (currentIndex h) /\
            exists e, getCurrent h = Some e).
  { intros Hn. specialize (Hne Hn). unfold getCurrent, at_index.
    destruct (Z.ltb_spec (currentIndex h) 0); [lia|].
    split; [reflexivity|]. apply lookup_lt_is_Some_2. lia. }
  split; [split | split; [exact Hfull | repeat split]].
  - intros Hnone. destruct (states h) eqn:E; [reflexivity|].
    destruct Hfull as [_ [e He]]; [congruence | congruence].
  - intros Hnil. unfold getCurrent, at_index. rewrite Hnil in *.
    simpl in Hhi. destruct (Z.ltb_spec (currentIndex h) 0); [reflexivity|].
    lia.
Qed.

End Facts.

Lemma undo_then_redo_witness :
  let h := History.run [History.Push 1; History.Push 2; History.Push 3]
             (History.new 20) in
  History.redo (snd (History.undo h)) = (Some 3, h).
Proof.
  apply (undo_then_redo (State:=Z) 20
           [History.Push 1; History.Push 2; History.Push 3]).
  reflexivity.
Defined.

Lemma redo_then_undo_witness :
  let h := History.run [History.Push 1; History.Push 2; History.Undo]
             (History.new 20) in
  History.undo (snd (History.redo h)) = (Some 1, h).
Proof.
  apply (redo_then_undo (State:=Z) 20
           [History.Push 1; History.Push 2; History.Undo]).
  reflexivity.
Defined.

Lemma undo_redo_availability_witness :
  let h := History.run [History.Push 1; History.Push 2; History.Undo]
             (History.new 20) in
  History.undo h = (None, h) /\ exists e, fst (History.redo h) = Some e.
Proof.
  destruct (undo_redo_availability (State:=Z) 20
              [History.Push 1; History.Push 2; History.Undo])
    as (_ & Hu & Hr & _).
  split; [apply Hu; reflexivity | apply Hr; reflexivity].
Defined.

Lemma push_makes_current_witness :
  History.getCurrent
    (History.push 9 (History.run [History.Push 1; History.Push 2; History.Undo]
                       (History.new 2)))
  = Some 9.
Proof.
  destruct (push_makes_current (State:=Z) 2
              [History.Push 1; History.Push 2; History.Undo] 9)
    as (_ & Hcur & _).
  apply Hcur. lia.
Defined.

Lemma undo_walks_back_witness :
  History.getCurrent
    (History.undo_n 1 (History.push_all [1; 2; 3; 4; 5] (History.new 3)))
  = Some 4 /\
  History.getCurrent
    (History.undo_n 7 (History.push_all [1; 2; 3; 4; 5] (History.new 3)))
  = Some 3.
Proof.
  destruct (undo_walks_back (State:=Z) 3 [1; 2; 3; 4; 5] 1 ltac:(lia))
    as (_ & H1 & _).
  destruct (undo_walks_back (State:=Z) 3 [1; 2; 3; 4; 5] 7 ltac:(lia))
    as (_ & _ & H7).
  split; [apply H1; simpl; lia | apply H7; simpl; lia].
Defined.

Lemma getCurrent_iff_nonempty_witness :
  let h := History.run [History.Push 1; History.Push 2; History.Undo]
             (History.new 20) in
  History.getCurrent h = History.states h !! Z.to_nat (History.currentIndex h).
Proof.
  destruct (getCurrent_iff_nonempty (State:=Z) 20
              [History.Push 1; History.Push 2; History.Undo])
    as (_ & Hfull & _).
  apply Hfull. discriminate.
Defined.

End HistoryMore.

(* ===================================================================== *)
(** ** Further facts about BackgroundRemover *)
(* ===================================================================== *)

Module BackgroundRemoverMore.
Import BackgroundRemover BackgroundRemoverFacts.
Section Facts.
Context {Blob : Type}.
Implicit Types (w : world Blob) (b : Blob).

Lemma new_single_flight : single_flight (new (Blob:=Blob)).
Proof. right. split; reflexivity. Qed.

(** X7.  In every reachable state with an external call outstanding, when
    that call settles the promise returned by [remove] settles the same way
    (the result is returned, an error is rethrown), and in both cases the
    flag is cleared, nothing stays pending, and the next [remove] or
    [removeFromFile] is accepted: it starts a new external call under a ticket
    not used before. *)
Theorem settle_then_remove_accepted (es : list (event Blob))
    (t : nat) (b b' : Blob) (r : settlement Blob) :
  let w := run es new in
  (t, b) ∈ pending w ->
  let w1 := snd (resume t r w) in
  fst (resume t r w) = Some r /\
  isProcessing w1 = false /\ pending w1 = [] /\
  removeFromFile b' w1 = remove b' w1 /\
  fst (remove b' w1) = Awaits (started w) /\
  pending (snd (remove b' w1)) = [(started w, b')] /\
  isProcessing (snd (remove b' w1)) = true.
Proof.
  intros w Hin w1.
  assert (Hs : single_flight w) by apply run_single_flight, new_single_flight.
  destruct Hs as [[Hflag [p Hp]]|[_ Hp]]; rewrite Hp in Hin;
    [|inversion Hin].
  apply list_elem_of_singleton in Hin. subst p.
  assert (Ha : awaited t w = true).
  { unfold awaited. rewrite Hp. simpl. now rewrite Nat.eqb_refl. }
  assert (E : resume t r w
              = (Some r,
                 {| isProcessing := false; config := config w;
                    pending := []; started := started w;
                    console := console w ++
                      [match r with
                       | Fulfilled _ => "Background removal complete"
                       | Rejected _ => "Background removal failed:"
                       end] |})).
  { unfold resume. rewrite Ha, Hp. f_equal. f_equal.
    rewrite filter_cons_False by (simpl; intros Hn; now apply Hn).
    reflexivity. }
  unfold w1. rewrite E. cbn [fst snd]. unfold removeFromFile, remove.
  cbn [isProcessing pending started fst snd]. repeat split.
Qed.

Lemma started_accepted (es : list (event Blob)) : forall w,
  started (run es w) = (started w + accepted es w)%nat.
Proof.
  induction es as [|e es IH]; intros w; simpl; [lia|].
  destruct e as [b|t r]; simpl; rewrite IH.
  - unfold remove. destruct (isProcessing w); simpl; lia.
  - unfold resume. destruct (awaited t w); simpl; lia.
Qed.

(** X8.  In every reachable state the [busy] getter is true exactly when an
    external call is outstanding; there is never more than one; and the
    number of external calls started so far is the number of [remove] calls
    that were not turned away. *)
Theorem busy_iff_outstanding (es : list (event Blob)) :
  let w := run es new in
  (busy w = true <-> pending w <> []) /\
  (length (pending w) <= 1)%nat /\
  started w = accepted es new /\
  (forall p, p ∈ pending w -> (fst p < started w)%nat).
Proof.
  intros w.
  assert (Hs : single_flight w) by apply run_single_flight, new_single_flight.
  assert (Hst : started w = accepted es new)
    by (unfold w; now rewrite started_accepted).
  assert (Ht : forall es' w0,
            (forall p, p ∈ pending w0 -> (fst p < started w0)%nat) ->
            forall p, p ∈ pending (run es' w0) ->
                      (fst p < started (run es' w0))%nat).
  { induction es' as [|e es' IH]; intros w0 H0; simpl; [exact H0|].
    apply IH. destruct e as [b|t r]; simpl.
    - unfold remove. destruct (isProcessing w0); simpl; [exact H0|].
      intros p Hp. apply elem_of_app in Hp as [Hp|Hp].
      + specialize (H0 p Hp). lia.
      + apply list_elem_of_singleton in Hp. subst p. simpl. lia.
    - unfold resume. destruct (awaited t w0); simpl; [|exact H0].
      intros p Hp. apply list_elem_of_filter in Hp as [_ Hp]. auto. }
  unfold busy. repeat split.
  - intros Hb. destruct Hs as [[_ [p Hp]]|[Hf _]]; congruence.
  - intros Hp. destruct Hs as [[Hf _]|[_ Hq]]; congruence.
  - destruct Hs as [[_ [p ->]]|[_ ->]]; simpl; lia.
  - exact Hst.
  - apply Ht. intros p Hp. inversion Hp.
Qed.

End Facts.

Lemma settle_then_remove_accepted_witness :
  let w := BackgroundRemover.run [BackgroundRemover.Call 7%nat]
             BackgroundRemover.new in
  fst (BackgroundRemover.remove 8%nat
         (snd (BackgroundRemover.resume 0
                 (BackgroundRemover.Rejected "network") w)))
  = BackgroundRemover.Awaits 1.
Proof.
  destruct (settle_then_remove_accepted [BackgroundRemover.Call 7%nat]
              0 7%nat 8%nat (BackgroundRemover.Rejected "network"))
    as (_ & _ & _ & _ & H & _); [|exact H].
  vm_compute. apply list_elem_of_here.
Defined.

End BackgroundRemoverMore.

(* ===================================================================== *)
(** ** Further facts about ImageEditor: crop, imageToCanvas *)
(* ===================================================================== *)

(** The canvas API raises an exception when it is asked to draw from an
    empty canvas or to read an empty rectangle, and it replaces a width or
    height outside [0, 2147483647] by the default one.  The store has
    neither, so the properties of the canvas operations below are stated for
    canvases that are not empty and for extents in that range. *)

Module GeometryMore.
Import JS Dom ImageEditor DomFacts ImageEditorFacts.
Local Open Scope nat_scope.

Lemma raster_empty w h f : w * h = 0 -> raster w h f = [].
Proof. intros E. unfold raster. now rewrite E. Qed.

Lemma pixel_at_outside w h d x y :
  inside w h x y = false -> pixel_at w h d x y = transparent.
Proof. unfold inside, pixel_at. now intros ->. Qed.

Lemma pixel_at_composite `{ua : UserAgent} w h d x y :
  (if inside w h x y then composite transparent (pixel_at w h d x y)
   else transparent)
  = pixel_at w h d x y.
Proof.
  destruct (inside w h x y) eqn:E; [reflexivity|].
  now rewrite pixel_at_outside.
Qed.

Section Crop.
Context `{ua : UserAgent}.
Implicit Types (s : gmap nat canvas) (c : canvas).

(** The copy [draw_rect] makes onto a blank canvas of the size of the
    source rectangle. *)
Lemma draw_rect_blank c (rx ry rw rh : Z) :
  draw_rect c (Int rx) (Int ry) (Int rw) (Int rh) (Int 0) (Int 0)
    (Int (Z.of_nat (Z.to_nat rw))) (Int (Z.of_nat (Z.to_nat rh)))
    (blank (Z.to_nat rw) (Z.to_nat rh))
  = mkCanvas (Z.to_nat rw) (Z.to_nat rh)
      (raster (Z.to_nat rw) (Z.to_nat rh) (fun i j =>
         pixel_at (width c) (height c) (pixels c) (rx + i) (ry + j)))
      [].
Proof.
  unfold draw_rect. cbn [finite andb negb transform blank aligned].
  destruct (Z.eqb_spec rw 0) as [->|Hw0];
    [cbn [orb Z.to_nat]; unfold blank; f_equal;
     now rewrite raster_empty by reflexivity|].
  destruct (Z.eqb_spec rh 0) as [->|Hh0];
    [cbn [orb Z.to_nat]; unfold blank; f_equal;
     rewrite raster_empty by lia; now rewrite Nat.mul_0_r|].
  destruct (Z.eqb_spec (Z.of_nat (Z.to_nat rw)) 0) as [Ew|Ew];
    [cbn [orb]; assert (Z.to_nat rw = 0) as -> by lia; unfold blank; f_equal;
     now rewrite raster_empty by reflexivity|].
  destruct (Z.eqb_spec (Z.of_nat (Z.to_nat rh)) 0) as [Eh|Eh];
    [cbn [orb]; assert (Z.to_nat rh = 0) as -> by lia; unfold blank; f_equal;
     rewrite raster_empty by lia; now rewrite Nat.mul_0_r|].
  cbn [orb].
  assert (Hw : (0 < rw)%Z) by lia. assert (Hh : (0 < rh)%Z) by lia.
  rewrite !Z2Nat.id by lia. rewrite !Z.eqb_refl.
  destruct (Z.ltb_spec 0 rw); [|lia]. destruct (Z.ltb_spec 0 rh); [|lia].
  cbn [andb width height pixels transform]. f_equal.
  apply raster_ext. intros x y Hx Hy.
  unfold preimage. cbn [Z.eqb Pos.eqb]. rewrite !Z.sub_0_r.
  unfold blank. cbn [width height pixels].
  rewrite (pixel_at_inside _ _ (replicate _ _)) by auto.
  rewrite chunk_replicate by nia.
  destruct (Z.leb_spec 0 (Z.of_nat x)); [|lia].
  destruct (Z.ltb_spec (Z.of_nat x) rw); [|lia].
  destruct (Z.leb_spec 0 (Z.of_nat y)); [|lia].
  destruct (Z.ltb_spec (Z.of_nat y) rh); [|lia].
  cbn [andb]. apply pixel_at_composite.
Qed.

Lemma crop_store s src c (x y w h : num) (rx ry rw rh : Z) :
  s !! src = Some c ->
  round x = Int rx -> round y = Int ry ->
  round w = Int rw -> round h = Int rh ->
  crop src x y w h s
  = (fresh (dom s),
     <[fresh (dom s) :=
         mkCanvas (Z.to_nat rw) (Z.to_nat rh)
           (raster (Z.to_nat rw) (Z.to_nat rh) (fun i j =>
              pixel_at (width c) (height c) (pixels c) (rx + i) (ry + j)))
           []]> s).
Proof.
  intros Hsrc Ex Ey Ew Eh.
  pose proof (fresh_ne s src c Hsrc) as Hne.
  set (id := fresh (dom s)) in *.
  unfold crop, createElement, getContext. fold id. cbv beta iota zeta.
  rewrite Ex, Ey, Ew, Eh.
  unfold set_height, set_width. rewrite !alter_insert_eq.
  unfold extent. rewrite width_blank.
  set (c0 := blank (Z.to_nat rw) (Z.to_nat rh)).
  assert (Hw : get_width id (<[id := c0]> s) = Z.to_nat rw)
    by (unfold get_width; now rewrite lookup_total_insert_eq).
  assert (Hh : get_height id (<[id := c0]> s) = Z.to_nat rh)
    by (unfold get_height; now rewrite lookup_total_insert_eq).
  rewrite Hw, Hh. f_equal.
  unfold ctx_drawImage_rect. rewrite lookup_total_insert_ne by auto.
  rewrite (lookup_total_correct _ _ _ Hsrc), alter_insert_eq.
  unfold c0. now rewrite draw_rect_blank.
Qed.

(** X9.  For a source canvas that is not empty and finite bounds whose
    rounded width and height are not negative, [crop] returns a new canvas
    whose width and height are the rounded width and height asked for and
    whose pixel at [(i, j)] is the source pixel at the rounded origin plus
    [(i, j)], transparent black where that falls outside the source; bounds
    round to the nearest integer, ties upwards.  The source and every other
    canvas in the store are left as they were. *)
Theorem crop_extracts_region s src c (x y w h : num) (rx ry rw rh : Z) :
  s !! src = Some c -> 0 < width c -> 0 < height c ->
  round x = Int rx -> round y = Int ry ->
  round w = Int rw -> round h = Int rh ->
  (0 <= rw <= 2147483647)%Z -> (0 <= rh <= 2147483647)%Z ->
  let out := fst (crop src x y w h s) in
  let s' := snd (crop src x y w h s) in
  s !! out = None /\
  s' !! src = Some c /\
  (forall j, j <> out -> s' !! j = s !! j) /\
  exists c',
    s' !! out = Some c' /\ wf c' /\
    Z.of_nat (width c') = rw /\ Z.of_nat (height c') = rh /\
    forall i j, i < width c' -> j < height c' ->
      pixel_at (width c') (height c') (pixels c') (Z.of_nat i) (Z.of_nat j)
      = pixel_at (width c) (height c) (pixels c)
          (rx + Z.of_nat i) (ry + Z.of_nat j).
Proof.
  intros Hsrc _ _ Ex Ey Ew Eh Hrw Hrh out s'. unfold out, s'.
  rewrite (crop_store s src c x y w h rx ry rw rh) by auto.
  cbn [fst snd].
  pose proof (fresh_ne s src c Hsrc) as Hne.
  split; [apply fresh_unused|].
  split; [now rewrite lookup_insert_ne by auto|].
  split; [intros j Hj; now rewrite lookup_insert_ne by auto|].
  eexists. split; [apply lookup_insert_eq|].
  cbn [width height pixels]. repeat split; try lia.
  - unfold wf. cbn [width height pixels].
    apply length_raster. intros; apply length_pixel_at.
  - intros i j Hi Hj.
    now rewrite pixel_at_raster by (auto using length_pixel_at).
Qed.

(** X10.  Cropping a canvas that is not empty to its full extent returns
    a copy: same width, same height, same samples. *)
Theorem crop_full_is_copy s src c :
  s !! src = Some c -> wf c -> 0 < width c -> 0 < height c ->
  let r := crop src (Int 0) (Int 0)
             (Int (Z.of_nat (width c))) (Int (Z.of_nat (height c))) s in
  exists c',
    snd r !! fst r = Some c' /\
    width c' = width c /\ height c' = height c /\ pixels c' = pixels c.
Proof.
  intros Hsrc Hc _ _ r. unfold r.
  rewrite (crop_store s src c _ _ _ _ 0 0 (Z.of_nat (width c))
             (Z.of_nat (height c))) by auto.
  cbn [fst snd]. eexists. split; [apply lookup_insert_eq|].
  cbn [width height pixels]. rewrite !Nat2Z.id. repeat split.
  etransitivity; [|exact (raster_pixel_at _ _ _ Hc)].
  apply raster_ext. intros i j _ _. now rewrite !Z.add_0_l.
Qed.

(** X11.  Cropping a crop is one crop at the sum of the rounded origins.
    Every bound of a crop is rounded on its own, so for two crops with
    bounds [x1 y1 w1 h1] and [x2 y2 w2 h2], rounded to [rx1 ry1 rw1 rh1] and
    [rx2 ry2 rw2 rh2]: when the second rounded rectangle lies inside the
    first and neither canvas drawn from is empty, cropping the result of the
    first crop gives the same canvas contents as cropping the source once at
    [(rx1 + rx2, ry1 + ry2)] with size [rw2] x [rh2].  For integer bounds
    this is the sum of the two origins; for fractional bounds it need not be
    the crop at [x1 + x2], whose rounding can differ. *)
Theorem crop_of_crop s src c (x1 y1 w1 h1 x2 y2 w2 h2 : num)
    (rx1 ry1 rw1 rh1 rx2 ry2 rw2 rh2 : Z) :
  s !! src = Some c -> 0 < width c -> 0 < height c ->
  round x1 = Int rx1 -> round y1 = Int ry1 ->
  round w1 = Int rw1 -> round h1 = Int rh1 ->
  round x2 = Int rx2 -> round y2 = Int ry2 ->
  round w2 = Int rw2 -> round h2 = Int rh2 ->
  (0 < rw1 <= 2147483647)%Z -> (0 < rh1 <= 2147483647)%Z ->
  (0 <= rw2)%Z -> (0 <= rh2)%Z ->
  (0 <= rx2)%Z -> (0 <= ry2)%Z ->
  (rx2 + rw2 <= rw1)%Z -> (ry2 + rh2 <= rh1)%Z ->
  let r1 := crop src x1 y1 w1 h1 s in
  let r2 := crop (fst r1) x2 y2 w2 h2 (snd r1) in
  let r := crop src (Int (rx1 + rx2)) (Int (ry1 + ry2)) (Int rw2) (Int rh2)
             s in
  exists c2 c',
    snd r2 !! fst r2 = Some c2 /\ snd r !! fst r = Some c' /\
    width c2 = width c' /\ height c2 = height c' /\ pixels c2 = pixels c'.
Proof.
  intros Hsrc _ _ Ex1 Ey1 Ew1 Eh1 Ex2 Ey2 Ew2 Eh2
    Hw1 Hh1 Hw2 Hh2 Hx2 Hy2 Hw Hh r1 r2 r.
  unfold r2, r1, r.
  rewrite (crop_store s src c _ _ _ _ rx1 ry1 rw1 rh1) by auto.
  cbn [fst snd].
  set (c1 := mkCanvas (Z.to_nat rw1) (Z.to_nat rh1) _ []).
  rewrite (crop_store _ (fresh (dom s)) c1 _ _ _ _ rx2 ry2 rw2 rh2)
    by (auto; apply lookup_insert_eq).
  rewrite (crop_store s src c _ _ _ _ (rx1 + rx2) (ry1 + ry2) rw2 rh2)
    by auto.
  cbn [fst snd]. eexists _, _.
  split; [apply lookup_insert_eq|]. split; [apply lookup_insert_eq|].
  cbn [width height pixels]. repeat split.
  apply raster_ext. intros i j Hi Hj.
  unfold c1. cbn [width height pixels].
  replace (rx2 + Z.of_nat i)%Z
    with (Z.of_nat (Z.to_nat (rx2 + Z.of_nat i))) by lia.
  replace (ry2 + Z.of_nat j)%Z
    with (Z.of_nat (Z.to_nat (ry2 + Z.of_nat j))) by lia.
  rewrite pixel_at_raster by (auto using length_pixel_at; lia).
  f_equal; lia.
Qed.

(** X12.  For an image that is not empty [imageToCanvas] returns a new
    canvas with the width and height of the image and writes to nothing else
    in the store; when the samples of the image are all opaque, the new
    canvas holds these samples. *)
Theorem imageToCanvas_copies s img c :
  s !! img = Some c -> wf c -> 0 < width c -> 0 < height c ->
  let out := fst (imageToCanvas img s) in
  let s' := snd (imageToCanvas img s) in
  s !! out = None /\
  (forall j, j <> out -> s' !! j = s !! j) /\
  exists c',
    s' !! out = Some c' /\
    width c' = width c /\ height c' = height c /\
    (opaque (pixels c) = true -> pixels c' = pixels c).
Proof.
  intros Himg Hc _ _ out s'.
  pose proof (fresh_ne s img c Himg) as Hne.
  assert (E : imageToCanvas img s
              = (fresh (dom s),
                 <[fresh (dom s) :=
                     mkCanvas (width c) (height c) (pixels c) []]> s)).
  { unfold imageToCanvas, createElement, getContext. cbv beta iota zeta.
    rewrite (sized_like s img c _ Himg Hne).
    now rewrite (drawImage_copy s img c _ Himg Hc Hne). }
  unfold out, s'. rewrite E. cbn [fst snd].
  split; [apply fresh_unused|]. split.
  - intros j Hj. now rewrite lookup_insert_ne by auto.
  - eexists. split; [apply lookup_insert_eq|].
    cbn [width height pixels]. auto.
Qed.

End Crop.

Lemma crop_extracts_region_witness :
  exists c',
    snd (crop (ua:=sample_agent) 1 (Dbl 0.6) (Dbl 0.4) (Dbl 1.4) (Dbl 2.5)
           example_store)
      !! fst (crop (ua:=sample_agent) 1 (Dbl 0.6) (Dbl 0.4) (Dbl 1.4)
                (Dbl 2.5) example_store)
    = Some c' /\
    Z.of_nat (width c') = 1%Z /\ Z.of_nat (height c') = 3%Z /\
    pixel_at (width c') (height c') (pixels c') 0 1
    = map byte_of_Z [200; 200; 200; 255]%Z.
Proof.
  destruct (crop_extracts_region (ua:=sample_agent) example_store 1
              quad_canvas (Dbl 0.6) (Dbl 0.4) (Dbl 1.4) (Dbl 2.5) 1 0 1 3)
    as (_ & _ & _ & c' & Hc' & _ & Hw & Hh & Hpx);
    [reflexivity | cbn [width quad_canvas]; lia
     | cbn [height quad_canvas]; lia
     | reflexivity | reflexivity | reflexivity | reflexivity | lia | lia |].
  exists c'. split; [exact Hc'|]. split; [exact Hw|]. split; [exact Hh|].
  etransitivity; [exact (Hpx 0 1 ltac:(lia) ltac:(lia))|reflexivity].
Defined.

Lemma crop_full_is_copy_witness :
  exists c',
    snd (crop (ua:=sample_agent) 1 (Int 0) (Int 0) (Int 2) (Int 2)
           example_store)
      !! fst (crop (ua:=sample_agent) 1 (Int 0) (Int 0) (Int 2) (Int 2)
                example_store)
    = Some c' /\
    width c' = 2 /\ height c' = 2 /\ pixels c' = pixels quad_canvas.
Proof.
  apply (crop_full_is_copy (ua:=sample_agent) example_store 1 quad_canvas);
    [reflexivity | reflexivity | cbn [width quad_canvas]; lia
     | cbn [height quad_canvas]; lia].
Defined.

Lemma crop_of_crop_witness :
  exists c2 c',
    snd (crop (ua:=sample_agent)
           (fst (crop (ua:=sample_agent) 1 (Dbl (-0.5)) (Int 0) (Dbl 2.5)
                   (Int 2) example_store))
           (Dbl 0.5) (Dbl 0.5) (Dbl 1.2) (Int 1)
           (snd (crop (ua:=sample_agent) 1 (Dbl (-0.5)) (Int 0) (Dbl 2.5)
                   (Int 2) example_store)))
      !! fst (crop (ua:=sample_agent)
                (fst (crop (ua:=sample_agent) 1 (Dbl (-0.5)) (Int 0)
                        (Dbl 2.5) (Int 2) example_store))
                (Dbl 0.5) (Dbl 0.5) (Dbl 1.2) (Int 1)
                (snd (crop (ua:=sample_agent) 1 (Dbl (-0.5)) (Int 0)
                        (Dbl 2.5) (Int 2) example_store)))
    = Some c2 /\
    snd (crop (ua:=sample_agent) 1 (Int (0 + 1)) (Int (0 + 1)) (Int 1)
           (Int 1) example_store)
      !! fst (crop (ua:=sample_agent) 1 (Int (0 + 1)) (Int (0 + 1)) (Int 1)
                (Int 1) example_store)
    = Some c' /\
    width c2 = width c' /\ height c2 = height c' /\ pixels c2 = pixels c'.
Proof.
  apply (crop_of_crop (ua:=sample_agent) example_store 1 quad_canvas
           (Dbl (-0.5)) (Int 0) (Dbl 2.5) (Int 2)
           (Dbl 0.5) (Dbl 0.5) (Dbl 1.2) (Int 1)
           0 0 3 2 1 1 1 1);
    [reflexivity | cbn [width quad_canvas]; lia
     | cbn [height quad_canvas]; lia
     | reflexivity | reflexivity | reflexivity | reflexivity
     | reflexivity | reflexivity | reflexivity | reflexivity
     | lia ..].
Defined.

Lemma imageToCanvas_copies_witness :
  exists c',
    snd (imageToCanvas (ua:=sample_agent) 0 example_store)
      !! fst (imageToCanvas (ua:=sample_agent) 0 example_store)
    = Some c' /\
    width c' = 1 /\ height c' = 1 /\ pixels c' = [xff; x00; x00; xff].
Proof.
  destruct (imageToCanvas_copies (ua:=sample_agent) example_store 0
              red_canvas) as (_ & _ & c' & Hc' & Hw & Hh & Hpx);
    [reflexivity | reflexivity | cbn [width red_canvas]; lia
     | cbn [height red_canvas]; lia |].
  exists c'. split; [exact Hc'|]. split; [exact Hw|]. split; [exact Hh|].
  exact (Hpx eq_refl).
Defined.

End GeometryMore.

(* ===================================================================== *)
(** ** Further facts about the preset filters and the pixel pipeline *)
(* ===================================================================== *)

Module FilterMore.
Import JS Dom ImageEditor DomFacts ImageEditorFacts.
Local Open Scope nat_scope.

Ltac filter_bodies :=
  unfold vintage_body, bw_body, sepia_body, vibrant_body, warm_body,
    cool_body, dramatic_body, fade_body, noir_body;
  cbv zeta.

Ltac pixelwise_body :=
  intros pre r g b a post; filter_bodies; at_pixel; reflexivity.

Lemma pixelwise_vintage : pixelwise vintage_body (vintage_body 0).
Proof. pixelwise_body. Qed.

Lemma pixelwise_bw : pixelwise bw_body (bw_body 0).
Proof. pixelwise_body. Qed.

Lemma pixelwise_vibrant : pixelwise vibrant_body (vibrant_body 0).
Proof. pixelwise_body. Qed.

Lemma pixelwise_warm : pixelwise warm_body (warm_body 0).
Proof. pixelwise_body. Qed.

Lemma pixelwise_cool : pixelwise cool_body (cool_body 0).
Proof. pixelwise_body. Qed.

Lemma pixelwise_dramatic : pixelwise dramatic_body (dramatic_body 0).
Proof. pixelwise_body. Qed.

Lemma pixelwise_fade : pixelwise fade_body (fade_body 0).
Proof. pixelwise_body. Qed.

Lemma pixelwise_noir : pixelwise noir_body (noir_body 0).
Proof. pixelwise_body. Qed.

Lemma chunk_one p : length p = 4 -> chunk p 0 = p.
Proof.
  intros Hp. destruct p as [|r [|g [|b [|a [|? ?]]]]]; simpl in Hp; try lia.
  reflexivity.
Qed.

(** A pixel-wise loop run on one pixel is its pixel function. *)
Lemma for_pixels_one body pf p :
  pixelwise body pf -> (forall p, length p = 4 -> length (pf p) = 4) ->
  length p = 4 -> for_pixels body p = pf p.
Proof.
  intros Hb Hpf Hp. rewrite (for_pixels_map body pf p 1) by auto.
  cbn [seq flat_map]. now rewrite app_nil_r, chunk_one.
Qed.

(** Every [case] of the [switch] is a loop whose body rewrites one pixel,
    keeps its length and leaves its fourth sample alone. *)
Lemma filter_cases filter :
  (forall d, filter_data filter d = d) \/
  exists body,
    (forall d, filter_data filter d = for_pixels body d) /\
    pixelwise body (body 0) /\
    (forall p, length (body 0 p) = length p) /\
    (forall r g b a, body 0 [r; g; b; a] !! 3 = Some a).
Proof.
  unfold filter_data.
  destruct (String.eqb filter "vintage");
    [right; exists vintage_body; split; [reflexivity|];
     split; [apply pixelwise_vintage|];
     split; intros; filter_bodies; now rewrite ?length_wr|].
  destruct (String.eqb filter "bw");
    [right; exists bw_body; split; [reflexivity|];
     split; [apply pixelwise_bw|];
     split; intros; filter_bodies; now rewrite ?length_wr|].
  destruct (String.eqb filter "sepia");
    [right; exists sepia_body; split; [reflexivity|];
     split; [apply pixelwise_sepia|];
     split; intros; filter_bodies; now rewrite ?length_wr|].
  destruct (String.eqb filter "vibrant");
    [right; exists vibrant_body; split; [reflexivity|];
     split; [apply pixelwise_vibrant|];
     split; intros; filter_bodies; now rewrite ?length_wr|].
  destruct (String.eqb filter "warm");
    [right; exists warm_body; split; [reflexivity|];
     split; [apply pixelwise_warm|];
     split; intros; filter_bodies; now rewrite ?length_wr|].
  destruct (String.eqb filter "cool");
    [right; exists cool_body; split; [reflexivity|];
     split; [apply pixelwise_cool|];
     split; intros; filter_bodies; now rewrite ?length_wr|].
  destruct (String.eqb filter "dramatic");
    [right; exists dramatic_body; split; [reflexivity|];
     split; [apply pixelwise_dramatic|];
     split; intros; filter_bodies; now rewrite ?length_wr|].
  destruct (String.eqb filter "fade");
    [right; exists fade_body; split; [reflexivity|];
     split; [apply pixelwise_fade|];
     split; intros; filter_bodies; now rewrite ?length_wr|].
  destruct (String.eqb filter "noir");
    [right; exists noir_body; split; [reflexivity|];
     split; [apply pixelwise_noir|];
     split; intros; filter_bodies; now rewrite ?length_wr|].
  now left.
Qed.

Lemma filter_data_chunk filter d n k :
  length d = 4 * n -> k < n ->
  chunk (filter_data filter d) k = filter_data filter (chunk d k).
Proof.
  intros Hd Hk.
  destruct (filter_cases filter) as [Hid | (body & Hf & Hpw & Hlen & _)].
  - now rewrite !Hid.
  - rewrite !Hf.
    assert (Hpf : forall p, length p = 4 -> length (body 0 p) = 4)
      by (intros p Hp; now rewrite Hlen).
    rewrite (chunk_for_pixels body (body 0) d n k) by auto.
    now rewrite (for_pixels_one body (body 0)) by auto using length_chunk.
Qed.

Lemma chunk_lookup3 d k :
  4 * k + 3 < length d -> d !! (4 * k + 3) = chunk d k !! 3.
Proof. intros Hk. now rewrite lookup_chunk by lia. Qed.

Lemma filter_data_alpha filter d n k :
  length d = 4 * n ->
  filter_data filter d !! (4 * k + 3) = d !! (4 * k + 3).
Proof.
  intros Hd. destruct (decide (k < n)) as [Hk|Hk].
  - rewrite chunk_lookup3 by (rewrite length_filter_data; lia).
    rewrite (filter_data_chunk filter d n k) by auto.
    rewrite (chunk_lookup3 d) by lia.
    destruct (filter_cases filter) as [Hid | (body & Hf & Hpw & Hlen & Ha)].
    + now rewrite Hid.
    + rewrite Hf.
      assert (Hpf : forall p, length p = 4 -> length (body 0 p) = 4)
        by (intros p Hp; now rewrite Hlen).
      rewrite (for_pixels_one body (body 0)) by auto using length_chunk.
      unfold chunk at 1. rewrite Ha. reflexivity.
  - rewrite !(proj2 (lookup_ge_None _ _)); auto;
      rewrite ?length_filter_data; lia.
Qed.

(** X13.  Every preset filter works pixel by pixel: pixel [k] of the
    filtered array is the filter applied to pixel [k] alone, whatever the
    filter name and whatever the other pixels hold. *)
Theorem filter_is_pixelwise filter d n k :
  length d = 4 * n -> k < n ->
  chunk (filter_data filter d) k = filter_data filter (chunk d k).
Proof. apply filter_data_chunk. Qed.

(** X14.  No filter name changes the length of the sample array or any
    alpha sample. *)
Theorem filter_keeps_alpha filter d n :
  length d = 4 * n ->
  length (filter_data filter d) = length d /\
  forall k, filter_data filter d !! (4 * k + 3) = d !! (4 * k + 3).
Proof.
  intros Hd. split; [apply length_filter_data|].
  intros k. now apply (filter_data_alpha filter d n).
Qed.

Lemma bw_pixel r g b a :
  bw_body 0 [r; g; b; a]
  = let v := ToUint8Clamp (of_byte r * 0.299 + of_byte g * 0.587
                           + of_byte b * 0.114) in
    [v; v; v; a].
Proof. reflexivity. Qed.

Lemma noir_pixel r g b a :
  exists v, noir_body 0 [r; g; b; a] = [v; v; v; a].
Proof. eexists. unfold noir_body. cbv zeta. at_pixel. reflexivity. Qed.

Lemma length4 (p : list byte) :
  length p = 4 -> exists r g b a, p = [r; g; b; a].
Proof.
  intros Hp. destruct p as [|r [|g [|b [|a [|? ?]]]]]; simpl in Hp; try lia.
  now exists r, g, b, a.
Qed.

Lemma filter_bw d : filter_data "bw" d = for_pixels bw_body d.
Proof. reflexivity. Qed.

Lemma filter_noir d : filter_data "noir" d = for_pixels noir_body d.
Proof. reflexivity. Qed.

Lemma length_bw_pixel p : length p = 4 -> length (bw_body 0 p) = 4.
Proof. intros Hp. unfold bw_body. cbv zeta. now rewrite !length_wr. Qed.

Lemma length_noir_pixel p : length p = 4 -> length (noir_body 0 p) = 4.
Proof. intros Hp. unfold noir_body. cbv zeta. now rewrite !length_wr. Qed.

(** X15.  After the [bw] or the [noir] filter every pixel is gray: its
    red, green and blue samples are equal, and its alpha is the one it
    had. *)
Theorem bw_and_noir_give_gray filter d n k :
  filter = "bw" \/ filter = "noir" ->
  length d = 4 * n -> k < n ->
  exists v,
    chunk (filter_data filter d) k = [v; v; v; nth (4 * k + 3) d x00].
Proof.
  intros Hf Hd Hk.
  destruct Hf as [-> | ->].
  - rewrite filter_bw.
    rewrite (chunk_for_pixels bw_body (bw_body 0) d n k)
      by auto using pixelwise_bw, length_bw_pixel.
    unfold chunk. rewrite bw_pixel. cbv zeta. eauto.
  - rewrite filter_noir.
    rewrite (chunk_for_pixels noir_body (noir_body 0) d n k)
      by auto using pixelwise_noir, length_noir_pixel.
    unfold chunk. apply noir_pixel.
Qed.

Lemma bw_gray_fixed v :
  ToUint8Clamp (of_byte v * 0.299 + of_byte v * 0.587 + of_byte v * 0.114)
  = v.
Proof. destruct v; vm_compute; reflexivity. Qed.

(** X16.  The [bw] filter is idempotent: applying it to its own output
    changes nothing. *)
Theorem bw_idempotent d n :
  length d = 4 * n ->
  filter_data "bw" (filter_data "bw" d) = filter_data "bw" d.
Proof.
  intros Hd. rewrite !filter_bw.
  assert (Hd' : length (for_pixels bw_body d) = 4 * n)
    by (apply (length_for_pixels bw_body (bw_body 0));
        auto using pixelwise_bw, length_bw_pixel).
  rewrite (for_pixels_map bw_body (bw_body 0) (for_pixels bw_body d) n)
    by auto using pixelwise_bw, length_bw_pixel.
  etransitivity; [|exact (flat_map_chunk (for_pixels bw_body d) n Hd')].
  apply flat_map_ext_seq. intros k Hk.
  rewrite (chunk_for_pixels bw_body (bw_body 0) d n k)
    by auto using pixelwise_bw, length_bw_pixel.
  unfold chunk. rewrite !bw_pixel. cbv zeta.
  now rewrite bw_gray_fixed.
Qed.

Lemma filter_warm d : filter_data "warm" d = for_pixels warm_body d.
Proof. reflexivity. Qed.

Lemma filter_cool d : filter_data "cool" d = for_pixels cool_body d.
Proof. reflexivity. Qed.

Lemma filter_fade d : filter_data "fade" d = for_pixels fade_body d.
Proof. reflexivity. Qed.

Lemma length_warm_pixel p : length p = 4 -> length (warm_body 0 p) = 4.
Proof. intros Hp. unfold warm_body. cbv zeta. now rewrite !length_wr. Qed.

Lemma length_cool_pixel p : length p = 4 -> length (cool_body 0 p) = 4.
Proof. intros Hp. unfold cool_body. cbv zeta. now rewrite !length_wr. Qed.

Lemma length_fade_pixel p : length p = 4 -> length (fade_body 0 p) = 4.
Proof. intros Hp. unfold fade_body. cbv zeta. now rewrite !length_wr. Qed.

Lemma times_110_up v :
  (Byte.to_N v <= Byte.to_N (ToUint8Clamp (Math_min 255 (of_byte v * 1.1))))%N.
Proof. apply N.leb_le. destruct v; vm_compute; reflexivity. Qed.

Lemma times_105_up v :
  (Byte.to_N v <= Byte.to_N (ToUint8Clamp (Math_min 255 (of_byte v * 1.05))))%N.
Proof. apply N.leb_le. destruct v; vm_compute; reflexivity. Qed.

Lemma times_090_down v :
  (Byte.to_N (ToUint8Clamp (Math_max 0 (of_byte v * 0.9))) <= Byte.to_N v)%N.
Proof. apply N.leb_le. destruct v; vm_compute; reflexivity. Qed.

Lemma fade_range v :
  (30 <= Byte.to_N (ToUint8Clamp (Math_min 255 (of_byte v * 0.85 + 30)))
   <= 247)%N.
Proof.
  split; apply N.leb_le; destruct v; vm_compute; reflexivity.
Qed.

(** X17.  The [warm] filter never lowers red or green and never raises
    blue; the [cool] filter never raises red and never lowers green or
    blue.  Both keep alpha. *)
Theorem warm_and_cool_direction d n k r g b a :
  length d = 4 * n -> k < n -> chunk d k = [r; g; b; a] ->
  (exists r' g' b',
     chunk (filter_data "warm" d) k = [r'; g'; b'; a] /\
     (Byte.to_N r <= Byte.to_N r')%N /\ (Byte.to_N g <= Byte.to_N g')%N /\
     (Byte.to_N b' <= Byte.to_N b)%N) /\
  (exists r' g' b',
     chunk (filter_data "cool" d) k = [r'; g'; b'; a] /\
     (Byte.to_N r' <= Byte.to_N r)%N /\ (Byte.to_N g <= Byte.to_N g')%N /\
     (Byte.to_N b <= Byte.to_N b')%N).
Proof.
  intros Hd Hk Hp. split.
  - rewrite filter_warm.
    rewrite (chunk_for_pixels warm_body (warm_body 0) d n k)
      by auto using pixelwise_warm, length_warm_pixel.
    rewrite Hp. eexists _, _, _. split; [reflexivity|].
    split; [apply times_110_up|split; [apply times_105_up|apply times_090_down]].
  - rewrite filter_cool.
    rewrite (chunk_for_pixels cool_body (cool_body 0) d n k)
      by auto using pixelwise_cool, length_cool_pixel.
    rewrite Hp. eexists _, _, _. split; [reflexivity|].
    split; [apply times_090_down|split; [apply times_105_up|apply times_110_up]].
Qed.

(** X18.  The [fade] filter lifts blacks and lowers whites: every red,
    green and blue sample of its output lies between 30 and 247. *)
Theorem fade_compresses_range d n k :
  length d = 4 * n -> k < n ->
  forall c, c < 3 ->
    exists v, chunk (filter_data "fade" d) k !! c = Some v /\
              (30 <= Byte.to_N v <= 247)%N.
Proof.
  intros Hd Hk c Hc. rewrite filter_fade.
  rewrite (chunk_for_pixels fade_body (fade_body 0) d n k)
    by auto using pixelwise_fade, length_fade_pixel.
  unfold chunk.
  destruct c as [|[|[|c]]]; [| | |lia];
    (eexists; split; [reflexivity|apply fade_range]).
Qed.

Section FilterStore.
Context `{ua : UserAgent}.
Implicit Types (s : gmap nat canvas) (c : canvas).

(** X19.  [applyFilter] with a name that has no [case] (['none'] among
    them), on a canvas that is not empty, reads the canvas and writes back
    what it read: the store is left exactly as it was. *)
Theorem applyFilter_without_case s ctx c filter :
  s !! ctx = Some c -> wf c -> 0 < width c -> 0 < height c ->
  filter ∉ ["vintage"; "bw"; "sepia"; "vibrant"; "warm"; "cool";
            "dramatic"; "fade"; "noir"]%string ->
  applyFilter ctx (width c) (height c) filter s = s.
Proof.
  intros Hctx Hc _ _ Hf. rewrite (applyFilter_store s ctx c filter Hctx Hc).
  assert (E : filter_data filter (pixels c) = pixels c).
  { unfold filter_data.
    repeat match goal with
           | |- context [String.eqb filter ?n] =>
               destruct (String.eqb_spec filter n) as [->|_];
                 [exfalso; apply Hf; set_solver|]
           end.
    reflexivity. }
  rewrite E. destruct c. cbn [width height pixels transform].
  now apply insert_id.
Qed.

End FilterStore.

Lemma filter_is_pixelwise_witness :
  chunk (filter_data "sepia" (pixels quad_canvas)) 3
  = filter_data "sepia" (chunk (pixels quad_canvas) 3).
Proof.
  apply (filter_is_pixelwise "sepia" (pixels quad_canvas) 4 3);
    [reflexivity | lia].
Defined.

Lemma filter_keeps_alpha_witness :
  length (filter_data "dramatic" (pixels quad_canvas))
  = length (pixels quad_canvas) /\
  forall k, filter_data "dramatic" (pixels quad_canvas) !! (4 * k + 3)
            = pixels quad_canvas !! (4 * k + 3).
Proof.
  apply (filter_keeps_alpha "dramatic" (pixels quad_canvas) 4). reflexivity.
Defined.

Lemma bw_and_noir_give_gray_witness :
  exists v,
    chunk (filter_data "noir" (pixels quad_canvas)) 2
    = [v; v; v; nth (4 * 2 + 3) (pixels quad_canvas) x00].
Proof.
  apply (bw_and_noir_give_gray "noir" (pixels quad_canvas) 4 2);
    [now right | reflexivity | lia].
Defined.

Lemma bw_idempotent_witness :
  filter_data "bw" (filter_data "bw" (pixels quad_canvas))
  = filter_data "bw" (pixels quad_canvas).
Proof. apply (bw_idempotent (pixels quad_canvas) 4). reflexivity. Defined.

Lemma warm_and_cool_direction_witness :
  exists r' g' b',
    chunk (filter_data "warm" (pixels quad_canvas)) 3
    = [r'; g'; b'; byte_of_Z 255] /\
    (200 <= Byte.to_N r')%N /\ (200 <= Byte.to_N g')%N /\
    (Byte.to_N b' <= 200)%N.
Proof.
  destruct (warm_and_cool_direction (pixels quad_canvas) 4 3
              (byte_of_Z 200) (byte_of_Z 200) (byte_of_Z 200)
              (byte_of_Z 255)) as [H _];
    [reflexivity | lia | reflexivity | exact H].
Defined.

Lemma fade_compresses_range_witness :
  exists v,
    chunk (filter_data "fade" (pixels quad_canvas)) 0 !! 1 = Some v /\
    (30 <= Byte.to_N v <= 247)%N.
Proof.
  apply (fade_compresses_range (pixels quad_canvas) 4 0);
    [reflexivity | lia | lia].
Defined.

Lemma applyFilter_without_case_witness :
  applyFilter 1 2 2 "none" example_store = example_store.
Proof.
  apply (applyFilter_without_case example_store 1
           quad_canvas "none");
    [reflexivity | reflexivity | cbn [width quad_canvas]; lia
     | cbn [height quad_canvas]; lia |].
  intros H. repeat (apply elem_of_cons in H as [H|H]; [discriminate H|]).
  inversion H.
Defined.

End FilterMore.

(* ===================================================================== *)
(** ** What each slider does, for the integer values a slider gives *)
(* ===================================================================== *)

Module SliderMore.
Import JS Dom ImageEditor DomFacts ImageEditorFacts.
Local Open Scope nat_scope.

(** The adjustment loop rewrites pixel [k] as it rewrites that pixel
    alone. *)
Lemma adjust_pixel_body adj r g b a :
  AdjustmentSpec.adjust_pixel adj [r; g; b; a] = adjust_body adj 0 [r; g; b; a].
Proof.
  pose proof (pixelwise_adjust adj [] r g b a []) as H.
  cbn [length app] in H. rewrite app_nil_r in H. now rewrite H.
Qed.

Lemma adjust_chunk adj d n k r g b a :
  length d = 4 * n -> k < n -> chunk d k = [r; g; b; a] ->
  chunk (for_pixels (adjust_body adj) d) k = adjust_body adj 0 [r; g; b; a].
Proof.
  intros Hd Hk Hp.
  rewrite (chunk_for_pixels _ (AdjustmentSpec.adjust_pixel adj) d n k)
    by auto using pixelwise_adjust, length_adjust_pixel.
  rewrite Hp. apply adjust_pixel_body.
Qed.

(** A check made for every slider value and every sample value holds for
    each of them. *)
Lemma every_byte v :
  v ∈ map (fun i => byte_of_Z (Z.of_nat i)) (seq 0 256).
Proof.
  apply list_elem_of_In, in_map_iff.
  exists (N.to_nat (Byte.to_N v)). split.
  - destruct v; reflexivity.
  - apply in_seq. pose proof (Byte.to_N_bounded v). lia.
Qed.

Lemma every_slider_value (n : Z) :
  (-100 <= n <= 100)%Z ->
  n ∈ map (fun i => (Z.of_nat i - 100)%Z) (seq 0 201).
Proof.
  intros Hn. apply list_elem_of_In, in_map_iff.
  exists (Z.to_nat (n + 100)). split; [lia|]. apply in_seq. lia.
Qed.

Lemma for_sliders_and_bytes (P : Z -> byte -> bool) :
  forallb (fun n => forallb (P n)
                      (map (fun i => byte_of_Z (Z.of_nat i)) (seq 0 256)))
          (map (fun i => (Z.of_nat i - 100)%Z) (seq 0 201)) = true ->
  forall n v, (-100 <= n <= 100)%Z -> P n v = true.
Proof.
  intros H n v Hn.
  rewrite forallb_forall in H.
  specialize (H n (proj1 (list_elem_of_In _ _) (every_slider_value n Hn))).
  rewrite forallb_forall in H.
  exact (H v (proj1 (list_elem_of_In _ _) (every_byte v))).
Qed.

Lemma up_down (n : Z) (x y : N) :
  (if (0 <=? n)%Z then (x <=? y)%N else true)
  && (if (n <=? 0)%Z then (y <=? x)%N else true) = true ->
  ((0 <= n)%Z -> (x <= y)%N) /\ ((n <= 0)%Z -> (y <= x)%N).
Proof.
  intros H. apply andb_prop in H as [H1 H2]. split; intros Hn.
  - destruct (Z.leb_spec 0 n); [|lia]. now apply N.leb_le.
  - destruct (Z.leb_spec n 0); [|lia]. now apply N.leb_le.
Qed.

Lemma brightness_channel n v :
  (-100 <= n <= 100)%Z ->
  let v' := ToUint8Clamp (Math_max 0 (Math_min 255
              (if strict_ne (of_Z n) 0 then of_byte v + of_Z n * 2.55
               else of_byte v))) in
  ((0 <= n)%Z -> (Byte.to_N v <= Byte.to_N v')%N) /\
  ((n <= 0)%Z -> (Byte.to_N v' <= Byte.to_N v)%N).
Proof.
  intros Hn v'. apply up_down. unfold v'. clear v'. revert n v Hn.
  apply (for_sliders_and_bytes (fun n v =>
    (if (0 <=? n)%Z
     then (Byte.to_N v <=?
           Byte.to_N (ToUint8Clamp (Math_max 0 (Math_min 255
              (if strict_ne (of_Z n) 0 then of_byte v + of_Z n * 2.55
               else of_byte v)))))%N
     else true)
    && (if (n <=? 0)%Z
        then (Byte.to_N (ToUint8Clamp (Math_max 0 (Math_min 255
               (if strict_ne (of_Z n) 0 then of_byte v + of_Z n * 2.55
                else of_byte v)))) <=? Byte.to_N v)%N
        else true))).
  vm_compute. reflexivity.
Qed.

(** X20.  Brightness alone, at an integer slider value between -100 and
    100: a value of 0 or more lowers no red, green or blue sample, a value
    of 0 or less raises none.  Alpha is kept. *)
Theorem brightness_direction (n : Z) (sharp : float) d m k r g b a :
  (-100 <= n <= 100)%Z ->
  length d = 4 * m -> k < m -> chunk d k = [r; g; b; a] ->
  exists r' g' b',
    chunk (for_pixels
             (adjust_body (mkAdjustments 0 (of_Z n) 0 0 0 0 0 sharp)) d) k
    = [r'; g'; b'; a] /\
    ((0 <= n)%Z ->
       (Byte.to_N r <= Byte.to_N r')%N /\ (Byte.to_N g <= Byte.to_N g')%N /\
       (Byte.to_N b <= Byte.to_N b')%N) /\
    ((n <= 0)%Z ->
       (Byte.to_N r' <= Byte.to_N r)%N /\ (Byte.to_N g' <= Byte.to_N g)%N /\
       (Byte.to_N b' <= Byte.to_N b)%N).
Proof.
  intros Hn Hd Hk Hp.
  rewrite (adjust_chunk _ d m k r g b a Hd Hk Hp).
  unfold adjust_body.
  cbn [exposure brightness contrast temperature highlights shadows
       saturation].
  change (strict_ne 0 0) with false. cbv iota. cbn [Nat.add].
  at_pixel.
  pose proof (brightness_channel n r Hn) as [Hr1 Hr2].
  pose proof (brightness_channel n g Hn) as [Hg1 Hg2].
  pose proof (brightness_channel n b Hn) as [Hb1 Hb2].
  destruct (strict_ne (of_Z n) 0); cbv beta iota zeta; at_pixel;
    (eexists _, _, _; split; [reflexivity|]; split; intros Hs;
     auto).
Qed.

Lemma exposure_channel n v :
  (-100 <= n <= 100)%Z ->
  let v' := ToUint8Clamp (Math_max 0 (Math_min 255
              (if strict_ne (of_Z n) 0 then of_byte v * (1 + of_Z n / 100)
               else of_byte v))) in
  ((0 <= n)%Z -> (Byte.to_N v <= Byte.to_N v')%N) /\
  ((n <= 0)%Z -> (Byte.to_N v' <= Byte.to_N v)%N).
Proof.
  intros Hn v'. apply up_down. unfold v'. clear v'. revert n v Hn.
  apply (for_sliders_and_bytes (fun n v =>
    (if (0 <=? n)%Z
     then (Byte.to_N v <=?
           Byte.to_N (ToUint8Clamp (Math_max 0 (Math_min 255
              (if strict_ne (of_Z n) 0 then of_byte v * (1 + of_Z n / 100)
               else of_byte v)))))%N
     else true)
    && (if (n <=? 0)%Z
        then (Byte.to_N (ToUint8Clamp (Math_max 0 (Math_min 255
               (if strict_ne (of_Z n) 0 then of_byte v * (1 + of_Z n / 100)
                else of_byte v)))) <=? Byte.to_N v)%N
        else true))).
  vm_compute. reflexivity.
Qed.

Lemma exposure_floor v :
  ToUint8Clamp (Math_max 0 (Math_min 255
    (of_byte v * (1 + of_Z (-100) / 100)))) = x00.
Proof. destruct v; vm_compute; reflexivity. Qed.

(** X21.  Exposure alone, at an integer slider value between -100 and
    100: a value of 0 or more lowers no red, green or blue sample, a value
    of 0 or less raises none, and -100 turns every pixel black.  Alpha is
    kept. *)
Theorem exposure_direction (n : Z) (sharp : float) d m k r g b a :
  (-100 <= n <= 100)%Z ->
  length d = 4 * m -> k < m -> chunk d k = [r; g; b; a] ->
  exists r' g' b',
    chunk (for_pixels
             (adjust_body (mkAdjustments (of_Z n) 0 0 0 0 0 0 sharp)) d) k
    = [r'; g'; b'; a] /\
    ((0 <= n)%Z ->
       (Byte.to_N r <= Byte.to_N r')%N /\ (Byte.to_N g <= Byte.to_N g')%N /\
       (Byte.to_N b <= Byte.to_N b')%N) /\
    ((n <= 0)%Z ->
       (Byte.to_N r' <= Byte.to_N r)%N /\ (Byte.to_N g' <= Byte.to_N g)%N /\
       (Byte.to_N b' <= Byte.to_N b)%N) /\
    (n = (-100)%Z -> r' = x00 /\ g' = x00 /\ b' = x00).
Proof.
  intros Hn Hd Hk Hp.
  rewrite (adjust_chunk _ d m k r g b a Hd Hk Hp).
  unfold adjust_body.
  cbn [exposure brightness contrast temperature highlights shadows
       saturation].
  change (strict_ne 0 0) with false. cbv iota. cbn [Nat.add].
  at_pixel.
  pose proof (exposure_channel n r Hn) as [Hr1 Hr2].
  pose proof (exposure_channel n g Hn) as [Hg1 Hg2].
  pose proof (exposure_channel n b Hn) as [Hb1 Hb2].
  destruct (strict_ne (of_Z n) 0) eqn:Hne; cbv beta iota zeta; at_pixel;
    (eexists _, _, _; split; [reflexivity|];
     split; [intros Hs; auto|split; [intros Hs; auto|]]).
  - intros ->. now rewrite !exposure_floor.
  - intros ->. vm_compute in Hne. discriminate Hne.
Qed.

Lemma pivot (n : Z) (x y : N) :
  (if (0 <=? n)%Z
   then (if (128 <=? x)%N then (x <=? y)%N else true)
        && (if (x <=? 128)%N then (y <=? x)%N else true)
   else true)
  && (if (n <=? 0)%Z
      then (if (128 <=? x)%N then (128 <=? y)%N && (y <=? x)%N else true)
           && (if (x <=? 128)%N then (x <=? y)%N && (y <=? 128)%N else true)
      else true) = true ->
  ((0 <= n)%Z ->
     ((128 <= x)%N -> (x <= y)%N) /\ ((x <= 128)%N -> (y <= x)%N)) /\
  ((n <= 0)%Z ->
     ((128 <= x)%N -> (128 <= y <= x)%N) /\
     ((x <= 128)%N -> (x <= y <= 128)%N)).
Proof.
  intros H. apply andb_prop in H as [H1 H2]. split; intros Hn.
  - destruct (Z.leb_spec 0 n); [|lia].
    apply andb_prop in H1 as [Ha Hb]. split; intros Hx.
    + destruct (N.leb_spec 128 x); [|lia]. now apply N.leb_le.
    + destruct (N.leb_spec x 128); [|lia]. now apply N.leb_le.
  - destruct (Z.leb_spec n 0); [|lia].
    apply andb_prop in H2 as [Ha Hb]. split; intros Hx.
    + destruct (N.leb_spec 128 x); [|lia].
      apply andb_prop in Ha as [Ha1 Ha2].
      split; now apply N.leb_le.
    + destruct (N.leb_spec x 128); [|lia].
      apply andb_prop in Hb as [Hb1 Hb2].
      split; now apply N.leb_le.
Qed.

Lemma contrast_channel n v :
  (-100 <= n <= 100)%Z ->
  let v' := ToUint8Clamp (Math_max 0 (Math_min 255
              (if strict_ne (of_Z n) 0
               then (259 * (of_Z n + 255)) / (255 * (259 - of_Z n))
                    * (of_byte v - 128) + 128
               else of_byte v))) in
  ((0 <= n)%Z ->
     ((128 <= Byte.to_N v)%N -> (Byte.to_N v <= Byte.to_N v')%N) /\
     ((Byte.to_N v <= 128)%N -> (Byte.to_N v' <= Byte.to_N v)%N)) /\
  ((n <= 0)%Z ->
     ((128 <= Byte.to_N v)%N -> (128 <= Byte.to_N v' <= Byte.to_N v)%N) /\
     ((Byte.to_N v <= 128)%N -> (Byte.to_N v <= Byte.to_N v' <= 128)%N)).
Proof.
  intros Hn v'. apply pivot. unfold v'. clear v'. revert n v Hn.
  apply (for_sliders_and_bytes (fun n v =>
    (if (0 <=? n)%Z
     then (if (128 <=? Byte.to_N v)%N
           then (Byte.to_N v <=?
                 Byte.to_N (ToUint8Clamp (Math_max 0 (Math_min 255
                   (if strict_ne (of_Z n) 0
                    then (259 * (of_Z n + 255)) / (255 * (259 - of_Z n))
                         * (of_byte v - 128) + 128
                    else of_byte v)))))%N
           else true)
          && (if (Byte.to_N v <=? 128)%N
              then (Byte.to_N (ToUint8Clamp (Math_max 0 (Math_min 255
                      (if strict_ne (of_Z n) 0
                       then (259 * (of_Z n + 255)) / (255 * (259 - of_Z n))
                            * (of_byte v - 128) + 128
                       else of_byte v)))) <=? Byte.to_N v)%N
              else true)
     else true)
    && (if (n <=? 0)%Z
        then (if (128 <=? Byte.to_N v)%N
              then (128 <=?
                    Byte.to_N (ToUint8Clamp (Math_max 0 (Math_min 255
                      (if strict_ne (of_Z n) 0
                       then (259 * (of_Z n + 255)) / (255 * (259 - of_Z n))
                            * (of_byte v - 128) + 128
                       else of_byte v)))))%N
                   && (Byte.to_N (ToUint8Clamp (Math_max 0 (Math_min 255
                         (if strict_ne (of_Z n) 0
                          then (259 * (of_Z n + 255))
                               / (255 * (259 - of_Z n))
                               * (of_byte v - 128) + 128
                          else of_byte v)))) <=? Byte.to_N v)%N
              else true)
             && (if (Byte.to_N v <=? 128)%N
                 then (Byte.to_N v <=?
                       Byte.to_N (ToUint8Clamp (Math_max 0 (Math_min 255
                         (if strict_ne (of_Z n) 0
                          then (259 * (of_Z n + 255))
                               / (255 * (259 - of_Z n))
                               * (of_byte v - 128) + 128
                          else of_byte v)))))%N
                      && (Byte.to_N (ToUint8Clamp (Math_max 0 (Math_min 255
                            (if strict_ne (of_Z n) 0
                             then (259 * (of_Z n + 255))
                                  / (255 * (259 - of_Z n))
                                  * (of_byte v - 128) + 128
                             else of_byte v)))) <=? 128)%N
                 else true)
        else true))).
  vm_compute. reflexivity.
Qed.

(** X22.  Contrast alone, at an integer slider value between -100 and
    100, pivots on 128: a value of 0 or more moves no sample towards 128
    (samples of 128 or more do not fall, samples of 128 or less do not
    rise); a value of 0 or less moves every sample towards 128 without
    crossing it.  Alpha is kept. *)
Theorem contrast_pivots_on_128 (n : Z) (sharp : float) d m k r g b a :
  (-100 <= n <= 100)%Z ->
  length d = 4 * m -> k < m -> chunk d k = [r; g; b; a] ->
  exists r' g' b',
    chunk (for_pixels
             (adjust_body (mkAdjustments 0 0 (of_Z n) 0 0 0 0 sharp)) d) k
    = [r'; g'; b'; a] /\
    forall v v', (v, v') ∈ [(r, r'); (g, g'); (b, b')] ->
      ((0 <= n)%Z ->
         ((128 <= Byte.to_N v)%N -> (Byte.to_N v <= Byte.to_N v')%N) /\
         ((Byte.to_N v <= 128)%N -> (Byte.to_N v' <= Byte.to_N v)%N)) /\
      ((n <= 0)%Z ->
         ((128 <= Byte.to_N v)%N -> (128 <= Byte.to_N v' <= Byte.to_N v)%N) /\
         ((Byte.to_N v <= 128)%N -> (Byte.to_N v <= Byte.to_N v' <= 128)%N)).
Proof.
  intros Hn Hd Hk Hp.
  rewrite (adjust_chunk _ d m k r g b a Hd Hk Hp).
  unfold adjust_body.
  cbn [exposure brightness contrast temperature highlights shadows
       saturation].
  change (strict_ne 0 0) with false. cbv iota. cbn [Nat.add].
  at_pixel.
  pose proof (contrast_channel n r Hn) as Hr.
  pose proof (contrast_channel n g Hn) as Hg.
  pose proof (contrast_channel n b Hn) as Hb.
  cbv zeta in Hr, Hg, Hb.
  destruct (strict_ne (of_Z n) 0); cbv beta iota zeta; at_pixel;
    (eexists _, _, _; split; [reflexivity|]; intros v v' Hv;
     repeat (apply elem_of_cons in Hv as [Hv|Hv];
             [injection Hv as -> ->; assumption|]);
     inversion Hv).
Qed.

Lemma temperature_red n v :
  (-100 <= n <= 100)%Z ->
  let v' := ToUint8Clamp (Math_max 0 (Math_min 255
              (if strict_ne (of_Z n) 0 then of_byte v + of_Z n * 0.5
               else of_byte v))) in
  ((0 <= n)%Z -> (Byte.to_N v <= Byte.to_N v')%N) /\
  ((n <= 0)%Z -> (Byte.to_N v' <= Byte.to_N v)%N).
Proof.
  intros Hn v'. apply up_down. unfold v'. clear v'. revert n v Hn.
  apply (for_sliders_and_bytes (fun n v =>
    (if (0 <=? n)%Z
     then (Byte.to_N v <=?
           Byte.to_N (ToUint8Clamp (Math_max 0 (Math_min 255
              (if strict_ne (of_Z n) 0 then of_byte v + of_Z n * 0.5
               else of_byte v)))))%N
     else true)
    && (if (n <=? 0)%Z
        then (Byte.to_N (ToUint8Clamp (Math_max 0 (Math_min 255
               (if strict_ne (of_Z n) 0 then of_byte v + of_Z n * 0.5
                else of_byte v)))) <=? Byte.to_N v)%N
        else true))).
  vm_compute. reflexivity.
Qed.

Lemma temperature_blue n v :
  (-100 <= n <= 100)%Z ->
  let v' := ToUint8Clamp (Math_max 0 (Math_min 255
              (if strict_ne (of_Z n) 0 then of_byte v - of_Z n * 0.5
               else of_byte v))) in
  ((0 <= n)%Z -> (Byte.to_N v' <= Byte.to_N v)%N) /\
  ((n <= 0)%Z -> (Byte.to_N v <= Byte.to_N v')%N).
Proof.
  intros Hn v'. apply up_down. unfold v'. clear v'. revert n v Hn.
  apply (for_sliders_and_bytes (fun n v =>
    (if (0 <=? n)%Z
     then (Byte.to_N (ToUint8Clamp (Math_max 0 (Math_min 255
              (if strict_ne (of_Z n) 0 then of_byte v - of_Z n * 0.5
               else of_byte v)))) <=? Byte.to_N v)%N
     else true)
    && (if (n <=? 0)%Z
        then (Byte.to_N v <=?
              Byte.to_N (ToUint8Clamp (Math_max 0 (Math_min 255
               (if strict_ne (of_Z n) 0 then of_byte v - of_Z n * 0.5
                else of_byte v)))))%N
        else true))).
  vm_compute. reflexivity.
Qed.

(** X23.  Temperature alone, at an integer slider value between -100 and
    100: green and alpha are never changed; a value of 0 or more does not
    lower red and does not raise blue; a value of 0 or less does not raise
    red and does not lower blue. *)
Theorem temperature_shifts_red_against_blue (n : Z) (sharp : float)
    d m k r g b a :
  (-100 <= n <= 100)%Z ->
  length d = 4 * m -> k < m -> chunk d k = [r; g; b; a] ->
  exists r' b',
    chunk (for_pixels
             (adjust_body (mkAdjustments 0 0 0 (of_Z n) 0 0 0 sharp)) d) k
    = [r'; g; b'; a] /\
    ((0 <= n)%Z ->
       (Byte.to_N r <= Byte.to_N r')%N /\ (Byte.to_N b' <= Byte.to_N b)%N) /\
    ((n <= 0)%Z ->
       (Byte.to_N r' <= Byte.to_N r)%N /\ (Byte.to_N b <= Byte.to_N b')%N).
Proof.
  intros Hn Hd Hk Hp.
  rewrite (adjust_chunk _ d m k r g b a Hd Hk Hp).
  unfold adjust_body.
  cbn [exposure brightness contrast temperature highlights shadows
       saturation].
  change (strict_ne 0 0) with false. cbv iota. cbn [Nat.add].
  at_pixel.
  pose proof (temperature_red n r Hn) as [Hr1 Hr2].
  pose proof (temperature_blue n b Hn) as [Hb1 Hb2].
  destruct (strict_ne (of_Z n) 0); cbv beta iota zeta; at_pixel;
    rewrite (store_of_byte g);
    (eexists _, _; split; [reflexivity|]; split; intros Hs; auto).
Qed.

Lemma byte_to_N_inj (x y : byte) : Byte.to_N x = Byte.to_N y -> x = y.
Proof.
  intros H. assert (E : Byte.of_N (Byte.to_N x) = Byte.of_N (Byte.to_N y))
    by now rewrite H.
  rewrite !Byte.of_to_N in E. now injection E.
Qed.

Lemma saturation_gray n v :
  (-100 <= n <= 100)%Z ->
  ToUint8Clamp (Math_max 0 (Math_min 255
    (if strict_ne (of_Z n) 0
     then (0.2989 * of_byte v + 0.587 * of_byte v + 0.114 * of_byte v)
          + (1 + of_Z n / 100)
            * (of_byte v
               - (0.2989 * of_byte v + 0.587 * of_byte v + 0.114 * of_byte v))
     else of_byte v))) = v.
Proof.
  intros Hn.
  assert (H : N.eqb (Byte.to_N (ToUint8Clamp (Math_max 0 (Math_min 255
    (if strict_ne (of_Z n) 0
     then (0.2989 * of_byte v + 0.587 * of_byte v + 0.114 * of_byte v)
          + (1 + of_Z n / 100)
            * (of_byte v
               - (0.2989 * of_byte v + 0.587 * of_byte v + 0.114 * of_byte v))
     else of_byte v))))) (Byte.to_N v) = true).
  { revert n v Hn.
    apply (for_sliders_and_bytes (fun n v =>
      N.eqb (Byte.to_N (ToUint8Clamp (Math_max 0 (Math_min 255
        (if strict_ne (of_Z n) 0
         then (0.2989 * of_byte v + 0.587 * of_byte v + 0.114 * of_byte v)
              + (1 + of_Z n / 100)
                * (of_byte v
                   - (0.2989 * of_byte v + 0.587 * of_byte v
                      + 0.114 * of_byte v))
         else of_byte v))))) (Byte.to_N v))).
    vm_compute. reflexivity. }
  apply N.eqb_eq in H. now apply byte_to_N_inj in H.
Qed.

(** X24.  Saturation alone, at an integer slider value between -100 and
    100, leaves every gray pixel (red, green and blue equal) exactly as it
    is. *)
Theorem saturation_keeps_gray (n : Z) (sharp : float) d m k v a :
  (-100 <= n <= 100)%Z ->
  length d = 4 * m -> k < m -> chunk d k = [v; v; v; a] ->
  chunk (for_pixels
           (adjust_body (mkAdjustments 0 0 0 0 0 0 (of_Z n) sharp)) d) k
  = [v; v; v; a].
Proof.
  intros Hn Hd Hk Hp.
  rewrite (adjust_chunk _ d m k v v v a Hd Hk Hp).
  unfold adjust_body.
  cbn [exposure brightness contrast temperature highlights shadows
       saturation].
  change (strict_ne 0 0) with false. cbv iota. cbn [Nat.add].
  at_pixel.
  pose proof (saturation_gray n v Hn) as Hv.
  destruct (strict_ne (of_Z n) 0); cbv beta iota zeta; at_pixel;
    now rewrite !Hv.
Qed.

(** *** Highlights and shadows *)

Lemma for_bytes (P : byte -> bool) :
  forallb P (map (fun i => byte_of_Z (Z.of_nat i)) (seq 0 256)) = true ->
  forall v, P v = true.
Proof.
  intros H v. rewrite forallb_forall in H.
  exact (H v (proj1 (list_elem_of_In _ _) (every_byte v))).
Qed.

Lemma for_range (len : nat) (P : Z -> bool) :
  forallb P (map Z.of_nat (seq 0 len)) = true ->
  forall z, (0 <= z < Z.of_nat len)%Z -> P z = true.
Proof.
  intros H z Hz. rewrite forallb_forall in H. apply H.
  apply in_map_iff. exists (Z.to_nat z). split; [lia|]. apply in_seq. lia.
Qed.

(** Sums of two and of three samples are exact. *)
Lemma sum_of_two r g :
  (of_byte r + of_byte g)%float
  = of_Z (Z.of_N (Byte.to_N r + Byte.to_N g)).
Proof.
  apply FloatAxioms.Leibniz.eqb_spec. revert g. revert r.
  assert (H : forall r, forallb (fun g =>
            PrimFloat.Leibniz.eqb (of_byte r + of_byte g)%float
              (of_Z (Z.of_N (Byte.to_N r + Byte.to_N g))))
            (map (fun i => byte_of_Z (Z.of_nat i)) (seq 0 256)) = true).
  { apply (for_bytes (fun r => forallb (fun g =>
            PrimFloat.Leibniz.eqb (of_byte r + of_byte g)%float
              (of_Z (Z.of_N (Byte.to_N r + Byte.to_N g))))
            (map (fun i => byte_of_Z (Z.of_nat i)) (seq 0 256)))).
    vm_compute. reflexivity. }
  intros r g.
  exact (for_bytes _ (H r) g).
Qed.

Lemma sum_and_one (s : Z) b :
  (0 <= s < 511)%Z ->
  (of_Z s + of_byte b)%float = of_Z (s + Z.of_N (Byte.to_N b)).
Proof.
  intros Hs. apply FloatAxioms.Leibniz.eqb_spec. revert s Hs.
  apply (for_range 511 (fun s =>
           PrimFloat.Leibniz.eqb (of_Z s + of_byte b)%float
             (of_Z (s + Z.of_N (Byte.to_N b))))).
  revert b.
  apply (for_bytes (fun b => forallb (fun s =>
           PrimFloat.Leibniz.eqb (of_Z s + of_byte b)%float
             (of_Z (s + Z.of_N (Byte.to_N b))))
           (map Z.of_nat (seq 0 511)))).
  vm_compute. reflexivity.
Qed.

Lemma sum_of_three r g b :
  (of_byte r + of_byte g + of_byte b)%float
  = of_Z (Z.of_N (Byte.to_N r + Byte.to_N g + Byte.to_N b)).
Proof.
  rewrite sum_of_two, sum_and_one.
  - f_equal. lia.
  - pose proof (Byte.to_N_bounded r). pose proof (Byte.to_N_bounded g). lia.
Qed.

(** Adding a zero of either sign to a sample stores the sample. *)
Lemma store_plus_zero v (z : float) :
  z = 0%float \/ z = (-0)%float ->
  ToUint8Clamp (Math_max 0 (Math_min 255 (of_byte v + z))) = v.
Proof. intros [-> | ->]; destruct v; vm_compute; reflexivity. Qed.

(** At or below a mean of 128 the highlight term is a zero. *)
Lemma highlight_term_dark (n s : Z) :
  (-100 <= n <= 100)%Z -> (0 <= s <= 384)%Z ->
  let t := (of_Z n * Math_max 0 ((of_Z s / 3 - 128) / 127) * 0.5)%float in
  t = 0%float \/ t = (-0)%float.
Proof.
  intros Hn Hs t.
  assert (H : PrimFloat.Leibniz.eqb t 0 || PrimFloat.Leibniz.eqb t (-0)
              = true).
  { unfold t. clear t.
    replace n with ((n + 100) - 100)%Z by lia.
    assert (Hn' : (0 <= n + 100 < Z.of_nat 201)%Z) by lia.
    revert Hn'. generalize (n + 100)%Z. clear n Hn. intros n Hn.
    revert s Hs.
    assert (H : forall s, (0 <= s < Z.of_nat 385)%Z ->
              (fun s =>
                 PrimFloat.Leibniz.eqb
                   (of_Z (n - 100) * Math_max 0 ((of_Z s / 3 - 128) / 127)
                    * 0.5) 0
                 || PrimFloat.Leibniz.eqb
                      (of_Z (n - 100) * Math_max 0 ((of_Z s / 3 - 128) / 127)
                       * 0.5) (-0)) s = true).
    { apply for_range. revert n Hn.
      apply (for_range 201 (fun n => forallb (fun s =>
                 PrimFloat.Leibniz.eqb
                   (of_Z (n - 100) * Math_max 0 ((of_Z s / 3 - 128) / 127)
                    * 0.5) 0
                 || PrimFloat.Leibniz.eqb
                      (of_Z (n - 100) * Math_max 0 ((of_Z s / 3 - 128) / 127)
                       * 0.5) (-0))
               (map Z.of_nat (seq 0 385)))).
      vm_compute. reflexivity. }
    intros s Hs. apply (H s). lia. }
  apply orb_prop in H as [H|H]; [left|right];
    now apply FloatAxioms.Leibniz.eqb_spec.
Qed.

(** At or above a mean of 128 the shadow term is a zero. *)
Lemma shadow_term_bright (n s : Z) :
  (-100 <= n <= 100)%Z -> (384 <= s <= 765)%Z ->
  let t := (of_Z n * Math_max 0 ((128 - of_Z s / 3) / 128) * 0.5)%float in
  t = 0%float \/ t = (-0)%float.
Proof.
  intros Hn Hs t.
  assert (H : PrimFloat.Leibniz.eqb t 0 || PrimFloat.Leibniz.eqb t (-0)
              = true).
  { unfold t. clear t.
    replace n with ((n + 100) - 100)%Z by lia.
    assert (Hn' : (0 <= n + 100 < Z.of_nat 201)%Z) by lia.
    revert Hn'. generalize (n + 100)%Z. clear n Hn. intros n Hn.
    replace s with ((s - 384) + 384)%Z by lia.
    assert (Hs' : (0 <= s - 384 < Z.of_nat 382)%Z) by lia.
    revert Hs'. generalize (s - 384)%Z. clear s Hs. intros s Hs.
    revert s Hs.
    apply (for_range 382 (fun s =>
             PrimFloat.Leibniz.eqb
               (of_Z (n - 100)
                * Math_max 0 ((128 - of_Z (s + 384) / 3) / 128) * 0.5) 0
             || PrimFloat.Leibniz.eqb
                  (of_Z (n - 100)
                   * Math_max 0 ((128 - of_Z (s + 384) / 3) / 128) * 0.5)
                  (-0))).
    revert n Hn.
    apply (for_range 201 (fun n => forallb (fun s =>
             PrimFloat.Leibniz.eqb
               (of_Z (n - 100)
                * Math_max 0 ((128 - of_Z (s + 384) / 3) / 128) * 0.5) 0
             || PrimFloat.Leibniz.eqb
                  (of_Z (n - 100)
                   * Math_max 0 ((128 - of_Z (s + 384) / 3) / 128) * 0.5)
                  (-0))
           (map Z.of_nat (seq 0 382)))).
    vm_compute. reflexivity. }
  apply orb_prop in H as [H|H]; [left|right];
    now apply FloatAxioms.Leibniz.eqb_spec.
Qed.

(** X25.  Highlights alone, at an integer slider value between -100 and
    100, leave every pixel whose mean of red, green and blue is 128 or less
    exactly as it is. *)
Theorem highlights_spare_dark_pixels (n : Z) (sharp : float)
    d m k r g b a :
  (-100 <= n <= 100)%Z ->
  length d = 4 * m -> k < m -> chunk d k = [r; g; b; a] ->
  (Byte.to_N r + Byte.to_N g + Byte.to_N b <= 3 * 128)%N ->
  chunk (for_pixels
           (adjust_body (mkAdjustments 0 0 0 0 (of_Z n) 0 0 sharp)) d) k
  = [r; g; b; a].
Proof.
  intros Hn Hd Hk Hp Hs.
  rewrite (adjust_chunk _ d m k r g b a Hd Hk Hp).
  unfold adjust_body.
  cbn [exposure brightness contrast temperature highlights shadows
       saturation].
  change (strict_ne 0 0) with false. cbv iota. cbn [Nat.add].
  at_pixel.
  destruct (strict_ne (of_Z n) 0); cbv beta iota zeta; at_pixel;
    [|now rewrite !store_of_byte].
  rewrite sum_of_three.
  pose proof (highlight_term_dark n
                (Z.of_N (Byte.to_N r + Byte.to_N g + Byte.to_N b)) Hn
                ltac:(lia)) as Ht.
  cbv zeta in Ht.
  now rewrite !(store_plus_zero _ _ Ht).
Qed.

(** X26.  Shadows alone, at an integer slider value between -100 and 100,
    leave every pixel whose mean of red, green and blue is 128 or more
    exactly as it is. *)
Theorem shadows_spare_bright_pixels (n : Z) (sharp : float)
    d m k r g b a :
  (-100 <= n <= 100)%Z ->
  length d = 4 * m -> k < m -> chunk d k = [r; g; b; a] ->
  (3 * 128 <= Byte.to_N r + Byte.to_N g + Byte.to_N b)%N ->
  chunk (for_pixels
           (adjust_body (mkAdjustments 0 0 0 0 0 (of_Z n) 0 sharp)) d) k
  = [r; g; b; a].
Proof.
  intros Hn Hd Hk Hp Hs.
  rewrite (adjust_chunk _ d m k r g b a Hd Hk Hp).
  unfold adjust_body.
  cbn [exposure brightness contrast temperature highlights shadows
       saturation].
  change (strict_ne 0 0) with false. cbv iota. cbn [Nat.add].
  at_pixel.
  destruct (strict_ne (of_Z n) 0); cbv beta iota zeta; at_pixel;
    [|now rewrite !store_of_byte].
  rewrite sum_of_three.
  pose proof (Byte.to_N_bounded r). pose proof (Byte.to_N_bounded g).
  pose proof (Byte.to_N_bounded b).
  pose proof (shadow_term_bright n
                (Z.of_N (Byte.to_N r + Byte.to_N g + Byte.to_N b)) Hn
                ltac:(lia)) as Ht.
  cbv zeta in Ht.
  now rewrite !(store_plus_zero _ _ Ht).
Qed.

Lemma brightness_direction_witness :
  exists r' g' b',
    chunk (for_pixels
             (adjust_body (mkAdjustments 0 (of_Z 40) 0 0 0 0 0 0))
             (pixels quad_canvas)) 1
    = [r'; g'; b'; byte_of_Z 40] /\
    (10 <= Byte.to_N r')%N /\ (20 <= Byte.to_N g')%N /\
    (30 <= Byte.to_N b')%N.
Proof.
  destruct (brightness_direction 40 0 (pixels quad_canvas) 4 1
              (byte_of_Z 10) (byte_of_Z 20) (byte_of_Z 30) (byte_of_Z 40))
    as (r' & g' & b' & E & Hup & _);
    [lia | reflexivity | lia | reflexivity |].
  exists r', g', b'. split; [exact E|]. apply Hup. lia.
Defined.

Lemma exposure_direction_witness :
  exists r' g' b',
    chunk (for_pixels
             (adjust_body (mkAdjustments (of_Z (-100)) 0 0 0 0 0 0 0))
             (pixels quad_canvas)) 3
    = [r'; g'; b'; byte_of_Z 255] /\
    r' = x00 /\ g' = x00 /\ b' = x00.
Proof.
  destruct (exposure_direction (-100) 0 (pixels quad_canvas) 4 3
              (byte_of_Z 200) (byte_of_Z 200) (byte_of_Z 200)
              (byte_of_Z 255))
    as (r' & g' & b' & E & _ & _ & Hz);
    [lia | reflexivity | lia | reflexivity |].
  exists r', g', b'. split; [exact E|]. apply Hz. reflexivity.
Defined.

Lemma contrast_pivots_on_128_witness :
  exists r' g' b',
    chunk (for_pixels
             (adjust_body (mkAdjustments 0 0 (of_Z 50) 0 0 0 0 0))
             (pixels quad_canvas)) 3
    = [r'; g'; b'; byte_of_Z 255] /\
    (200 <= Byte.to_N r')%N.
Proof.
  destruct (contrast_pivots_on_128 50 0 (pixels quad_canvas) 4 3
              (byte_of_Z 200) (byte_of_Z 200) (byte_of_Z 200)
              (byte_of_Z 255))
    as (r' & g' & b' & E & H);
    [lia | reflexivity | lia | reflexivity |].
  exists r', g', b'. split; [exact E|].
  destruct (H (byte_of_Z 200) r') as [Hup _]; [now left|].
  destruct Hup as [Hhi _]; [lia|]. apply Hhi. vm_compute. discriminate.
Defined.

Lemma temperature_shifts_red_against_blue_witness :
  exists r' b',
    chunk (for_pixels
             (adjust_body (mkAdjustments 0 0 0 (of_Z 30) 0 0 0 0))
             (pixels quad_canvas)) 1
    = [r'; byte_of_Z 20; b'; byte_of_Z 40] /\
    (10 <= Byte.to_N r')%N /\ (Byte.to_N b' <= 30)%N.
Proof.
  destruct (temperature_shifts_red_against_blue 30 0 (pixels quad_canvas)
              4 1 (byte_of_Z 10) (byte_of_Z 20) (byte_of_Z 30)
              (byte_of_Z 40))
    as (r' & b' & E & Hup & _);
    [lia | reflexivity | lia | reflexivity |].
  exists r', b'. split; [exact E|]. apply Hup. lia.
Defined.

Lemma saturation_keeps_gray_witness :
  chunk (for_pixels
           (adjust_body (mkAdjustments 0 0 0 0 0 0 (of_Z (-100)) 0))
           (pixels quad_canvas)) 3
  = map byte_of_Z [200; 200; 200; 255]%Z.
Proof.
  apply (saturation_keeps_gray (-100) 0 (pixels quad_canvas) 4 3
           (byte_of_Z 200) (byte_of_Z 255));
    [lia | reflexivity | lia | reflexivity].
Defined.

Lemma highlights_spare_dark_pixels_witness :
  chunk (for_pixels
           (adjust_body (mkAdjustments 0 0 0 0 (of_Z 80) 0 0 0))
           (pixels quad_canvas)) 1
  = map byte_of_Z [10; 20; 30; 40]%Z.
Proof.
  apply (highlights_spare_dark_pixels 80 0 (pixels quad_canvas) 4 1
           (byte_of_Z 10) (byte_of_Z 20) (byte_of_Z 30) (byte_of_Z 40));
    [lia | reflexivity | lia | reflexivity | vm_compute; discriminate].
Defined.

Lemma shadows_spare_bright_pixels_witness :
  chunk (for_pixels
           (adjust_body (mkAdjustments 0 0 0 0 0 (of_Z (-60)) 0 0))
           (pixels quad_canvas)) 3
  = map byte_of_Z [200; 200; 200; 255]%Z.
Proof.
  apply (shadows_spare_bright_pixels (-60) 0 (pixels quad_canvas) 4 3
           (byte_of_Z 200) (byte_of_Z 200) (byte_of_Z 200) (byte_of_Z 255));
    [lia | reflexivity | lia | reflexivity | vm_compute; discriminate].
Defined.

End SliderMore.

(* ===================================================================== *)
(** ** Alpha through the whole pipeline, small images, composed flips *)
(* ===================================================================== *)

Module PipelineMore.
Import JS Dom ImageEditor DomFacts ImageEditorFacts FilterMore.
Local Open Scope nat_scope.

Lemma adjust_alpha adj d n k :
  length d = 4 * n ->
  for_pixels (adjust_body adj) d !! (4 * k + 3) = d !! (4 * k + 3).
Proof.
  intros Hd.
  assert (Hl : length (for_pixels (adjust_body adj) d) = 4 * n)
    by (apply (length_for_pixels _ (AdjustmentSpec.adjust_pixel adj));
        auto using pixelwise_adjust, length_adjust_pixel).
  destruct (decide (k < n)) as [Hk|Hk].
  - rewrite chunk_lookup3 by lia.
    rewrite (chunk_for_pixels _ (AdjustmentSpec.adjust_pixel adj) d n k)
      by auto using pixelwise_adjust, length_adjust_pixel.
    rewrite (chunk_lookup3 d) by lia.
    pose proof (alpha_adjust_pixel adj (chunk d k) (length_chunk d k)) as Ha.
    pose proof (length_adjust_pixel adj (chunk d k) (length_chunk d k)) as Hp.
    destruct (nth_lookup_or_length
                (AdjustmentSpec.adjust_pixel adj (chunk d k)) 3 x00)
      as [E|E]; [|lia].
    rewrite E, Ha. reflexivity.
  - rewrite !(proj2 (lookup_ge_None _ _)); auto; lia.
Qed.

Lemma sharpen_alpha img amount k :
  data (applySharpness img amount) !! (4 * k + 3) = data img !! (4 * k + 3).
Proof.
  rewrite applySharpness_writes.
  apply stores_elsewhere. intros p Hp Hj.
  apply elem_of_writes in Hp
    as (y' & x' & c' & Hy1' & Hy2' & Hx1' & Hx2' & Hc' & ->).
  cbn [fst] in Hj. lia.
Qed.

Lemma after_adjust_alpha adj filter w h d n k :
  length d = 4 * n ->
  after_adjust adj filter w h d !! (4 * k + 3) = d !! (4 * k + 3).
Proof.
  intros Hd. unfold after_adjust.
  destruct (PrimFloat.ltb 0 (sharpness adj)); destruct (negb _);
    rewrite ?(filter_data_alpha filter _ n)
      by (rewrite ?length_applySharpness; exact Hd);
    rewrite ?sharpen_alpha; reflexivity.
Qed.

Lemma fold_left_id {A B} (f : A -> B -> A) (l : list B) (a : A) :
  (forall a b, f a b = a) -> fold_left f l a = a.
Proof.
  intros Hf. revert a. induction l as [|b l IH]; intros a; simpl;
    [reflexivity|]. now rewrite Hf.
Qed.

(** X27.  An image less than three pixels wide or high has no interior:
    [applySharpness] leaves it as it is, whatever the amount. *)
Theorem applySharpness_small_image img amount :
  iwidth img < 3 \/ iheight img < 3 ->
  applySharpness img amount = img.
Proof.
  intros Hs. unfold applySharpness. destruct img as [w h d].
  cbn [iwidth iheight data] in *. f_equal.
  destruct Hs as [Hw|Hh].
  - apply fold_left_id. intros a y. unfold sharpen_row.
    replace (w - 2) with 0 by lia. reflexivity.
  - replace (h - 2) with 0 by lia. reflexivity.
Qed.

Section PipelineStore.
Context `{ua : UserAgent}.
Implicit Types (s : gmap nat canvas) (c : canvas).

(** X28.  Whatever the adjustments and the filter name, for a source that
    is not empty the canvas [applyAdjustments] returns has the width and
    height of the source and, pixel for pixel, the alpha of the source:
    exposure, brightness, contrast, temperature, highlights, shadows,
    saturation, sharpening and the filters only ever write red, green and
    blue. *)
Theorem applyAdjustments_keeps_alpha s src c adj filter :
  s !! src = Some c -> wf c -> 0 < width c -> 0 < height c ->
  let r := applyAdjustments src adj filter s in
  exists c',
    snd r !! fst r = Some c' /\ wf c' /\
    width c' = width c /\ height c' = height c /\
    forall k, pixels c' !! (4 * k + 3) = pixels c !! (4 * k + 3).
Proof.
  intros Hsrc Hc _ _ r. unfold r.
  rewrite (applyAdjustments_store s src c adj filter Hsrc Hc).
  cbn [fst snd]. eexists. split; [apply lookup_insert_eq|].
  assert (Hl : length (for_pixels (adjust_body adj) (pixels c))
               = 4 * (width c * height c))
    by (apply (length_for_pixels _ (AdjustmentSpec.adjust_pixel adj));
        auto using pixelwise_adjust, length_adjust_pixel).
  cbn [width height pixels]. split; [|split; [reflexivity|split;
                                              [reflexivity|]]].
  - unfold wf. cbn [width height pixels].
    now rewrite length_after_adjust.
  - intros k.
    rewrite (after_adjust_alpha _ _ _ _ _ (width c * height c)) by exact Hl.
    now apply (adjust_alpha adj (pixels c) (width c * height c)).
Qed.

(** X29.  On a canvas that is not empty the two flips commute, and
    together they turn the picture by half a turn: flipping horizontally
    then vertically gives the same
    samples as flipping vertically then horizontally, and the pixel at
    [(x, y)] of either is the source pixel at
    [(width - 1 - x, height - 1 - y)]. *)
Theorem flips_commute s src c :
  s !! src = Some c -> wf c -> 0 < width c -> 0 < height c ->
  let h := flip src "horizontal" s in
  let hv := flip (fst h) "vertical" (snd h) in
  let v := flip src "vertical" s in
  let vh := flip (fst v) "horizontal" (snd v) in
  exists c1 c2,
    snd hv !! fst hv = Some c1 /\ snd vh !! fst vh = Some c2 /\
    width c1 = width c /\ height c1 = height c /\
    width c2 = width c /\ height c2 = height c /\
    pixels c1 = pixels c2 /\
    forall x y, x < width c -> y < height c ->
      pixel_at (width c) (height c) (pixels c1) (Z.of_nat x) (Z.of_nat y)
      = pixel_at (width c) (height c) (pixels c)
          (Z.of_nat (width c - 1 - x)) (Z.of_nat (height c - 1 - y)).
Proof.
  intros Hsrc Hc _ _ h hv v vh. unfold hv, vh, h, v.
  rewrite !(flip_store s src c _ Hsrc Hc). cbn [fst snd].
  change (String.eqb "horizontal" "horizontal") with true.
  change (String.eqb "vertical" "horizontal") with false.
  cbv iota.
  set (W := width c). set (H := height c). set (d := pixels c).
  assert (Hh : forall t, wf (mkCanvas W H (GeometrySpec.mirror_horizontal W H d) t)).
  { intros t. unfold wf, GeometrySpec.mirror_horizontal.
    cbn [width height pixels].
    apply length_raster. intros; apply length_pixel_at. }
  assert (Hv : forall t, wf (mkCanvas W H (GeometrySpec.mirror_vertical W H d) t)).
  { intros t. unfold wf, GeometrySpec.mirror_vertical.
    cbn [width height pixels].
    apply length_raster. intros; apply length_pixel_at. }
  rewrite (flip_store _ (fresh (dom s)) _ "vertical"
             (lookup_insert_eq _ _ _) (Hh _)).
  rewrite (flip_store _ (fresh (dom s)) _ "horizontal"
             (lookup_insert_eq _ _ _) (Hv _)).
  cbn [fst snd width height pixels].
  change (String.eqb "horizontal" "horizontal") with true.
  change (String.eqb "vertical" "horizontal") with false.
  cbv iota.
  assert (E1 : GeometrySpec.mirror_vertical W H
                 (GeometrySpec.mirror_horizontal W H d)
               = raster W H (fun x y =>
                   pixel_at W H d (Z.of_nat W - 1 - x) (Z.of_nat H - 1 - y))).
  { unfold GeometrySpec.mirror_vertical, GeometrySpec.mirror_horizontal.
    apply raster_ext. intros x y Hx Hy.
    replace (Z.of_nat H - 1 - Z.of_nat y)%Z with (Z.of_nat (H - 1 - y))
      by lia.
    rewrite pixel_at_raster by (auto using length_pixel_at; lia).
    reflexivity. }
  assert (E2 : GeometrySpec.mirror_horizontal W H
                 (GeometrySpec.mirror_vertical W H d)
               = raster W H (fun x y =>
                   pixel_at W H d (Z.of_nat W - 1 - x) (Z.of_nat H - 1 - y))).
  { unfold GeometrySpec.mirror_vertical, GeometrySpec.mirror_horizontal.
    apply raster_ext. intros x y Hx Hy.
    replace (Z.of_nat W - 1 - Z.of_nat x)%Z with (Z.of_nat (W - 1 - x))
      by lia.
    rewrite pixel_at_raster by (auto using length_pixel_at; lia).
    reflexivity. }
  eexists _, _.
  split; [apply lookup_insert_eq|]. split; [apply lookup_insert_eq|].
  cbn [width height pixels]. rewrite E1, E2.
  repeat split.
  intros x y Hx Hy.
  rewrite pixel_at_raster by (auto using length_pixel_at).
  f_equal; lia.
Qed.

(** X30.  [flip] and [rotate] of a source that is not empty never write
    to a canvas that exists: every canvas in the store before the call, the
    source included, is the same after it, and the canvas returned is none
    of them. *)
Theorem flip_and_rotate_keep_existing s src cs direction degrees j c :
  s !! src = Some cs -> 0 < width cs -> 0 < height cs ->
  s !! j = Some c ->
  (fst (flip src direction s) <> j) /\
  (snd (flip src direction s) !! j = Some c) /\
  (fst (rotate src degrees s) <> j) /\
  (snd (rotate src degrees s) !! j = Some c).
Proof.
  intros _ _ _ Hj. pose proof (fresh_ne s j c Hj) as Hne.
  destruct (flip_frame s src direction j Hne) as [Hf1 Hf2].
  destruct (rotate_frame s src degrees j Hne) as [Hr1 Hr2].
  rewrite Hf1, Hf2, Hr1, Hr2. auto.
Qed.

End PipelineStore.

Lemma applySharpness_small_image_witness :
  applySharpness (mkImageData 2 2 (pixels quad_canvas)) 0.5
  = mkImageData 2 2 (pixels quad_canvas).
Proof.
  apply (applySharpness_small_image (mkImageData 2 2 (pixels quad_canvas))).
  left. cbn [iwidth]. lia.
Defined.

Lemma applyAdjustments_keeps_alpha_witness :
  exists c',
    snd (applyAdjustments (ua:=sample_agent) 1
           (mkAdjustments 5 10 15 (-20) 30 (-10) 20 30) "noir" example_store)
      !! fst (applyAdjustments (ua:=sample_agent) 1
                (mkAdjustments 5 10 15 (-20) 30 (-10) 20 30) "noir"
                example_store)
    = Some c' /\ wf c' /\
    width c' = 2 /\ height c' = 2 /\
    forall k, pixels c' !! (4 * k + 3) = pixels quad_canvas !! (4 * k + 3).
Proof.
  apply (applyAdjustments_keeps_alpha (ua:=sample_agent) example_store 1
           quad_canvas);
    [reflexivity | reflexivity | cbn [width quad_canvas]; lia
     | cbn [height quad_canvas]; lia].
Defined.

Lemma flips_commute_witness :
  exists c1 c2,
    snd (flip (ua:=sample_agent)
           (fst (flip (ua:=sample_agent) 1 "horizontal" example_store))
           "vertical"
           (snd (flip (ua:=sample_agent) 1 "horizontal" example_store)))
      !! fst (flip (ua:=sample_agent)
                (fst (flip (ua:=sample_agent) 1 "horizontal" example_store))
                "vertical"
                (snd (flip (ua:=sample_agent) 1 "horizontal" example_store)))
    = Some c1 /\
    snd (flip (ua:=sample_agent)
           (fst (flip (ua:=sample_agent) 1 "vertical" example_store))
           "horizontal"
           (snd (flip (ua:=sample_agent) 1 "vertical" example_store)))
      !! fst (flip (ua:=sample_agent)
                (fst (flip (ua:=sample_agent) 1 "vertical" example_store))
                "horizontal"
                (snd (flip (ua:=sample_agent) 1 "vertical" example_store)))
    = Some c2 /\
    pixels c1 = pixels c2.
Proof.
  destruct (flips_commute (ua:=sample_agent) example_store 1 quad_canvas)
    as (c1 & c2 & H1 & H2 & _ & _ & _ & _ & E & _);
    [reflexivity | reflexivity | cbn [width quad_canvas]; lia
     | cbn [height quad_canvas]; lia |].
  exists c1, c2. auto.
Defined.

Lemma flip_and_rotate_keep_existing_witness :
  (snd (flip (ua:=sample_agent) 1 "vertical" example_store) !! 1
   = Some quad_canvas) /\
  (snd (rotate (ua:=sample_agent) 1 90 example_store) !! 0
   = Some red_canvas).
Proof.
  split.
  - apply (flip_and_rotate_keep_existing (ua:=sample_agent) example_store 1
             quad_canvas "vertical" 0 1 quad_canvas);
      [reflexivity | cbn [width quad_canvas]; lia
       | cbn [height quad_canvas]; lia | reflexivity].
  - apply (flip_and_rotate_keep_existing (ua:=sample_agent) example_store 1
             quad_canvas "vertical" 90 0 red_canvas);
      [reflexivity | cbn [width quad_canvas]; lia
       | cbn [height quad_canvas]; lia | reflexivity].
Defined.

End PipelineMore.
